(** * nri-postgresql: the metrics collection pipeline

    A shallow embedding of package [metrics] (functions [PopulateMetrics],
    [collectVersion], [parseSpecialVersion], [PopulateInstanceMetrics],
    [processDatabaseDefinitions], [PopulateTableMetrics],
    [PopulateIndexMetrics], [PopulatePgBouncerMetrics] and their helpers).

    The Go code is effectful: it opens connections, runs queries, writes to
    the log and mutates the entities of the integration.  The embedding
    threads an explicit [State] (event trace, entities, deferred calls)
    through a small monad [Go] whose outcome is either a value or a Go
    run-time panic.  Everything the server, the network or the SDK decides is
    read from a [World] of oracles that may depend on the whole history. *)

From stdpp Require Import base numbers list strings.

Open Scope string_scope.
Open Scope list_scope.

(** ** Go values *)

Definition Err := string.

(** [semver.Version]: the numeric triple (pre-release and build tags are not
    used by this package). *)
Record Version := mkVersion { Major : N; Minor : N; Patch : N }.

(** A call either returns or panics (nil dereference, index or slice bounds
    out of range). *)
Inductive Outcome (A : Type) : Type :=
| Done (a : A)
| Panic (msg : string).
Arguments Done {A} a.
Arguments Panic {A} msg.

Definition nilDeref : string := "invalid memory address or nil pointer dereference".
Definition indexRange : string := "index out of range".
Definition sliceRange : string := "slice bounds out of range".

(** ** Package [strings] and string slicing *)

(** [strings.Index(s, substr)]: byte offset of the first occurrence, or -1. *)
Definition strings_Index (s substr : string) : Z :=
  match String.index 0 substr s with
  | Some n => Z.of_nat n
  | None => (-1)%Z
  end.

(** [strings.Contains(s, substr)] is [Index(s, substr) >= 0]. *)
Definition strings_Contains (s substr : string) : bool :=
  (0 <=? strings_Index s substr)%Z.

(** The slice expression [s[:hi]]; Go panics unless [0 <= hi <= len(s)]. *)
Definition slice_to (s : string) (hi : Z) : Outcome string :=
  if ((hi <? 0) || (Z.of_nat (String.length s) <? hi))%Z
  then Panic sliceRange
  else Done (String.substring 0 (Z.to_nat hi) s).

(** ** Data model *)

(** Modelled from the spec: the type [collection.SchemaList] is declared
    outside the given sources; the topology maps a database name to its set
    of schema names. *)
Definition SchemaList := list string.

(** [collection.DatabaseList] is a Go map; [range] visits its entries in an
    unspecified order.  A value of this type is the sequence of entries in
    the order one particular [range] visits them. *)
Definition DatabaseList := list (string * SchemaList).

(** Modelled from the spec: the type [QueryDefinition] is declared outside
    the given sources.  The code reads [GetQuery] and [GetDataModels]; the
    version range is the data model's "minimum version (inclusive,
    optional), maximum version (exclusive, optional)". *)
Record QueryDefinition := mkQueryDefinition {
  GetQuery : string;
  minVersion : option Version;
  maxVersion : option Version
}.

Definition version_ltb (a b : Version) : bool :=
  ((Major a <? Major b)
   || ((Major a =? Major b) && ((Minor a <? Minor b)
        || ((Minor a =? Minor b) && (Patch a <? Patch b)))))%N.

Definition version_leb (a b : Version) : bool := negb (version_ltb b a).

(** Modelled from the spec: "A definition is eligible for a run iff the
    resolved version falls in [min, max)". *)
Definition eligible (v : Version) (d : QueryDefinition) : bool :=
  match minVersion d with Some lo => version_leb lo v | None => true end
  && match maxVersion d with Some hi => version_ltb v hi | None => true end.

(** A decoded row.  The identity fields are found by tag lookup and may be
    absent from the record's shape; [row_fields] are the metric fields that
    [MarshalMetrics] copies and [row_marshalErr] the error it reports, if
    any. *)
Record Row := mkRow {
  row_database : option string;
  row_schema : option string;
  row_table : option string;
  row_index : option string;
  row_fields : list (string * string);
  row_marshalErr : option Err
}.

Definition Attribute := (string * string)%type.

Record MetricSet := mkMetricSet {
  ms_eventType : string;
  ms_attributes : list Attribute;
  ms_metrics : list (string * string)
}.

Record Entity := mkEntity {
  Metadata_Name : string;
  Metadata_Namespace : string;
  idAttributes : list Attribute;
  Metrics : list MetricSet
}.

(** A [*PGSQLConnection] that is not nil: the database it is connected to
    and the position of its opening in the trace. *)
Record Conn := mkConn { conn_database : string; conn_serial : nat }.

Inductive Level := LError | LWarn | LDebug.

Inductive Event :=
| EOpen (database : string) (ok : bool)
| EQuery (c : Conn) (sql : string)
| EExtension (c : Conn) (extension schema : string)
| EClose (c : Conn)
| ELog (l : Level) (msg : string).

(** A [*integration.Entity] that is not nil: the instance entity handed to
    [PopulateMetrics], or an entity of the integration by position. *)
Inductive EntityRef := InstanceRef | EntRef (i : nat).

(** A [*metric.Set]: the owning entity and the position in its [Metrics]. *)
Definition MetricRef := (EntityRef * nat)%type.

Record State := mkState {
  st_trace : list Event;
  st_instance : Entity;
  st_entities : list Entity;
  st_defers : list (option Conn)
}.

(** What the environment decides.  Every oracle sees the trace so far, so a
    result may depend on anything that happened before. *)
Record World := mkWorld {
  ci_DatabaseName : string;
  ci_HostPort : string * string;
  (** [ci.NewConnection]: [None] when the connection is established. *)
  w_connect : list Event -> string -> option Err;
  (** [Query] into [[]*serverVersionRow]: the [server_version] column. *)
  w_versionRows : list Event -> Conn -> string -> Err + list string;
  (** [Query] into a definition's data models. *)
  w_rows : list Event -> Conn -> string -> Err + list Row;
  w_haveExtension : list Event -> Conn -> string -> string -> bool;
  (** [integration.Entity]: the error for a name and a type, if any. *)
  w_entityErr : string -> string -> option Err
}.

(** ** The [Go] monad: state and panics *)

Definition Go (A : Type) : Type := State -> Outcome A * State.

Definition ret {A} (a : A) : Go A := fun s => (Done a, s).

Definition bind {A B} (m : Go A) (k : A -> Go B) : Go B := fun s =>
  match m s with
  | (Done a, s') => k a s'
  | (Panic msg, s') => (Panic msg, s')
  end.

Definition panic {A} (msg : string) : Go A := fun s => (Panic msg, s).

Declare Scope go_scope.
Delimit Scope go_scope with go.
Notation "x <- m ;; k" := (bind m (fun x => k))
  (at level 100, m at next level, right associativity) : go_scope.
Notation "m ;;; k" := (bind m (fun _ => k))
  (at level 100, right associativity) : go_scope.
Open Scope go_scope.

Definition emit (e : Event) : Go unit := fun s =>
  (Done tt, mkState (st_trace s ++ [e]) (st_instance s) (st_entities s) (st_defers s)).

Definition log_Error (msg : string) : Go unit := emit (ELog LError msg).
Definition log_Warn (msg : string) : Go unit := emit (ELog LWarn msg).
Definition log_Debug (msg : string) : Go unit := emit (ELog LDebug msg).

(** Control flow of a loop body: fall through or [continue] to the next
    iteration, or [return] from the enclosing function. *)
Inductive Flow := Next | Return.

Fixpoint forRange {A} (body : A -> Go Flow) (l : list A) : Go unit :=
  match l with
  | [] => ret tt
  | x :: xs =>
      f <- body x ;;
      match f with
      | Next => forRange body xs
      | Return => ret tt
      end
  end.

(** ** Deferred calls *)

Definition set_defers (ds : list (option Conn)) (s : State) : State :=
  mkState (st_trace s) (st_instance s) (st_entities s) ds.

(** The deferred [Close] calls of a frame run last-in first-out when the
    function returns or panics.  A call whose receiver is nil panics; the
    calls deferred before it still run. *)
Fixpoint runDeferred {A} (ds : list (option Conn)) (r : Outcome A) (s : State)
  : Outcome A * State :=
  match ds with
  | [] => (r, s)
  | Some c :: ds' =>
      runDeferred ds' r
        (mkState (st_trace s ++ [EClose c]) (st_instance s) (st_entities s) (st_defers s))
  | None :: ds' => runDeferred ds' (Panic nilDeref) s
  end.

(** A function body that contains [defer] statements: a fresh frame of
    deferred calls, run at exit, the caller's frame restored. *)
Definition withDefers {A} (body : Go A) : Go A := fun s =>
  match body (set_defers [] s) with
  | (r, s1) =>
      match runDeferred (st_defers s1) r (set_defers [] s1) with
      | (r', s2) => (r', set_defers (st_defers s) s2)
      end
  end.

(** ** The integration SDK *)

Definition entityAt (r : EntityRef) (s : State) : option Entity :=
  match r with
  | InstanceRef => Some (st_instance s)
  | EntRef i => st_entities s !! i
  end.

Definition updEntity (r : EntityRef) (f : Entity -> Entity) (s : State) : State :=
  match r with
  | InstanceRef => mkState (st_trace s) (f (st_instance s)) (st_entities s) (st_defers s)
  | EntRef i => mkState (st_trace s) (st_instance s) (alter f i (st_entities s)) (st_defers s)
  end.

Definition attr_eqb (a b : Attribute) : bool :=
  String.eqb (fst a) (fst b) && String.eqb (snd a) (snd b).

Fixpoint attrs_eqb (l1 l2 : list Attribute) : bool :=
  match l1, l2 with
  | [], [] => true
  | a :: l1', b :: l2' => attr_eqb a b && attrs_eqb l1' l2'
  | _, _ => false
  end.

Definition sameIdentity (name ns : string) (ids : list Attribute) (e : Entity) : bool :=
  String.eqb (Metadata_Name e) name && String.eqb (Metadata_Namespace e) ns
  && attrs_eqb (idAttributes e) ids.

Fixpoint findEntity (p : Entity -> bool) (l : list Entity) (i : nat) : option nat :=
  match l with
  | [] => None
  | e :: l' => if p e then Some i else findEntity p l' (S i)
  end.

(** The entity of that identity: its position and the entities afterwards.
    An entity that does not exist yet is created, without samples, at the
    end. *)
Definition resolveEntity (name ns : string) (ids : list Attribute) (entities : list Entity)
  : nat * list Entity :=
  match findEntity (sameIdentity name ns ids) entities 0 with
  | Some i => (i, entities)
  | None => (length entities, entities ++ [mkEntity name ns ids []])
  end.

(** Modelled from the spec: [integration.Integration.Entity] belongs to the
    SDK.  "Resolves or creates the entity by that identity" (type plus the
    ordered identifying attributes), "lookups create-if-absent".  When the
    SDK reports an error the returned pointer is nil. *)
Definition Integration_Entity (w : World) (name ns : string) (ids : list Attribute)
  : Go (option EntityRef * option Err) := fun s =>
  match w_entityErr w name ns with
  | Some e => (Done (None, Some e), s)
  | None =>
      let (i, entities) := resolveEntity name ns ids (st_entities s) in
      (Done (Some (EntRef i), None),
       mkState (st_trace s) (st_instance s) entities (st_defers s))
  end.

(** [e.Metadata.Name] through a pointer that may be nil. *)
Definition entity_Name (e : option EntityRef) : Go string := fun s =>
  match e with
  | None => (Panic nilDeref, s)
  | Some r =>
      match entityAt r s with
      | Some ent => (Done (Metadata_Name ent), s)
      | None => (Panic nilDeref, s)
      end
  end.

Definition entity_Namespace (e : option EntityRef) : Go string := fun s =>
  match e with
  | None => (Panic nilDeref, s)
  | Some r =>
      match entityAt r s with
      | Some ent => (Done (Metadata_Namespace ent), s)
      | None => (Panic nilDeref, s)
      end
  end.

Definition addMetricSet (m : MetricSet) (e : Entity) : Entity :=
  mkEntity (Metadata_Name e) (Metadata_Namespace e) (idAttributes e) (Metrics e ++ [m]).

(** Modelled from the spec: [Entity.NewMetricSet] belongs to the SDK; it
    appends a new named sample set, seeded with the given attributes, to the
    entity and returns it. *)
Definition NewMetricSet (e : option EntityRef) (eventType : string) (attrs : list Attribute)
  : Go MetricRef := fun s =>
  match e with
  | None => (Panic nilDeref, s)
  | Some r =>
      match entityAt r s with
      | Some ent =>
          (Done (r, length (Metrics ent)),
           updEntity r (addMetricSet (mkMetricSet eventType attrs [])) s)
      | None => (Panic nilDeref, s)
      end
  end.

Definition addFields (fs : list (string * string)) (m : MetricSet) : MetricSet :=
  mkMetricSet (ms_eventType m) (ms_attributes m) (ms_metrics m ++ fs).

Definition marshalInto (k : nat) (fs : list (string * string)) (e : Entity) : Entity :=
  mkEntity (Metadata_Name e) (Metadata_Namespace e) (idAttributes e)
    (alter (addFields fs) k (Metrics e)).

(** Modelled from the spec: [Set.MarshalMetrics] belongs to the SDK; it
    "copies every metric-annotated field from the record onto the sample"
    and reports a field copy failure as an error. *)
Definition MarshalMetrics (ms : MetricRef) (row : Row) : Go (option Err) := fun s =>
  (Done (row_marshalErr row), updEntity (fst ms) (marshalInto (snd ms) (row_fields row)) s).

(** ** Identity fields of a record *)

(** Modelled from the spec: [GetDatabaseName], [GetSchemaName],
    [GetTableName] and [GetIndexName] are defined outside the given sources;
    they look the identity field up on the record, and "a missing/absent
    identity field is a non-fatal error" with "an empty identity value
    substituted". *)
Definition getField (what : string) (f : option string) : string * option Err :=
  match f with
  | Some n => (n, None)
  | None => ("", Some ("did not find " +:+ what))
  end.

Definition GetDatabaseName (row : Row) := getField "database name" (row_database row).
Definition GetSchemaName (row : Row) := getField "schema name" (row_schema row).
Definition GetTableName (row : Row) := getField "table name" (row_table row).
Definition GetIndexName (row : Row) := getField "index name" (row_index row).

Definition versionQuery : string := "SHOW server_version".

(** A call with two results, [a, b := f(...)]. *)
Notation "'do' ( a , b ) <- m ;; k" := (bind m (fun ab => let (a, b) := ab in k))
  (at level 100, a name, b name, m at next level, right associativity) : go_scope.

(** ** Package [metrics] *)

Section Metrics.

(** The functions that generate the query definitions of each domain are
    defined in this package but outside the given sources; the code is
    verified for every catalog.  The types follow the call sites. *)
Variable generateInstanceDefinitions : Version -> list QueryDefinition.
Variable generateDatabaseDefinitions : DatabaseList -> Version -> list QueryDefinition.
Variable generateLockDefinitions : DatabaseList -> Version -> list QueryDefinition.
Variable generateTableDefinitions : SchemaList -> list QueryDefinition.
Variable generateIndexDefinitions : SchemaList -> list QueryDefinition.
Variable generatePgBouncerDefinitions : list QueryDefinition.

(** [semver.ParseTolerant], an external library. *)
Variable ParseTolerant : string -> Err + Version.

(** Whether [PGSQLConnection.Close] is declared with a value receiver.
    With a value receiver [defer con.Close()] dereferences [con] when the
    [defer] statement executes; with a pointer receiver the nil receiver is
    dereferenced when the deferred call runs. *)
Variable closeByValue : bool.

Variable w : World.

(** *** The connection collaborator *)

Definition NewConnection (database : string) : Go (option Conn * option Err) := fun s =>
  match w_connect w (st_trace s) database with
  | Some e =>
      (Done (None, Some e),
       mkState (st_trace s ++ [EOpen database false])
         (st_instance s) (st_entities s) (st_defers s))
  | None =>
      (Done (Some (mkConn database (length (st_trace s))), None),
       mkState (st_trace s ++ [EOpen database true])
         (st_instance s) (st_entities s) (st_defers s))
  end.

(** [connection.Query(&versionRows, sql)] *)
Definition Query_version (con : option Conn) (sql : string) : Go (Err + list string) := fun s =>
  match con with
  | None => (Panic nilDeref, s)
  | Some c =>
      (Done (w_versionRows w (st_trace s) c sql),
       mkState (st_trace s ++ [EQuery c sql])
         (st_instance s) (st_entities s) (st_defers s))
  end.

(** [connection.Query(dataModels, sql)] *)
Definition Query (con : option Conn) (sql : string) : Go (Err + list Row) := fun s =>
  match con with
  | None => (Panic nilDeref, s)
  | Some c =>
      (Done (w_rows w (st_trace s) c sql),
       mkState (st_trace s ++ [EQuery c sql])
         (st_instance s) (st_entities s) (st_defers s))
  end.

Definition HaveExtensionInSchema (con : option Conn) (extension schema : string) : Go bool := fun s =>
  match con with
  | None => (Panic nilDeref, s)
  | Some c =>
      (Done (w_haveExtension w (st_trace s) c extension schema),
       mkState (st_trace s ++ [EExtension c extension schema])
         (st_instance s) (st_entities s) (st_defers s))
  end.

(** [defer con.Close()] *)
Definition deferClose (con : option Conn) : Go unit := fun s =>
  match con with
  | None =>
      if closeByValue then (Panic nilDeref, s)
      else (Done tt, set_defers (None :: st_defers s) s)
  | Some c => (Done tt, set_defers (Some c :: st_defers s) s)
  end.

(** *** Version resolution *)

Definition parseSpecialVersion (version : string) (specialIndex : Z) : Go (Err + Version) :=
  match slice_to version specialIndex with
  | Panic msg => panic msg
  | Done partialVersion =>
      match ParseTolerant partialVersion with
      | inl err => ret (inl err)
      | inr v => ret (inr v)
      end
  end.

Definition collectVersion (connection : option Conn) : Go (Err + Version) :=
  r <- Query_version connection versionQuery ;;
  match r with
  | inl err => ret (inl err)
  | inr versionRows =>
      match versionRows !! 0%nat with
      | None => panic indexRange
      | Some version =>
          if strings_Contains version "Ubuntu" then
            parseSpecialVersion version (strings_Index version " (Ubuntu")
          else if strings_Contains version "Debian" then
            parseSpecialVersion version (strings_Index version " (Debian")
          else
            match ParseTolerant version with
            | inl err => ret (inl err)
            | inr v => ret (inr v)
            end
      end
  end.

(** *** Instance domain *)

Definition instanceDefinition (metricSet : MetricRef) (connection : option Conn)
    (queryDef : QueryDefinition) : Go Flow :=
  r <- Query connection (GetQuery queryDef) ;;
  match r with
  | inl err =>
      log_Error ("Could not execute instance query: " +:+ err) ;;;
      ret Next
  | inr dataModels =>
      if (length dataModels =? 0)%nat then
        log_Debug ("No data returned from instance query '" +:+ GetQuery queryDef +:+ "'") ;;;
        ret Next
      else
        match dataModels !! 0%nat with
        | None => panic indexRange
        | Some vpInterface =>
            err <- MarshalMetrics metricSet vpInterface ;;
            match err with
            | Some e =>
                log_Error ("Could not parse metrics from instance query result: " +:+ e) ;;;
                ret Next
            | None => ret Next
            end
        end
  end.

Definition PopulateInstanceMetrics (instanceEntity : option EntityRef) (version : Version)
    (connection : option Conn) : Go unit :=
  name <- entity_Name instanceEntity ;;
  namespace <- entity_Namespace instanceEntity ;;
  metricSet <- NewMetricSet instanceEntity "PostgresqlInstanceSample"
                 [("displayName", name); ("entityName", namespace +:+ ":" +:+ name)] ;;
  forRange (instanceDefinition metricSet connection) (generateInstanceDefinitions version).

(** *** Database and lock domains *)

Definition logIf (prefix : string) (err : option Err) : Go unit :=
  match err with
  | Some e => log_Error (prefix +:+ e)
  | None => ret tt
  end.

Definition databaseRow (db : Row) : Go Flow :=
  let (name, err) := GetDatabaseName db in
  logIf "Unable to get database name: " err ;;;
  let (host, port) := ci_HostPort w in
  do (databaseEntity, err) <- Integration_Entity w name "pg-database"
                               [("host", host); ("port", port)] ;;
  logIf ("Failed to get database entity for name " +:+ name +:+ ": ") err ;;;
  entityName <- entity_Name databaseEntity ;;
  metricSet <- NewMetricSet databaseEntity "PostgresqlDatabaseSample"
                 [("displayName", entityName); ("entityName", "database:" +:+ entityName)] ;;
  err <- MarshalMetrics metricSet db ;;
  logIf "Failed to database entity with metrics: " err ;;;
  ret Next.

Definition databaseDefinition (connection : option Conn) (queryDef : QueryDefinition) : Go Flow :=
  r <- Query connection (GetQuery queryDef) ;;
  match r with
  | inl err =>
      log_Error ("Could not execute database query: " +:+ err) ;;;
      ret Next
  | inr dataModels =>
      forRange databaseRow dataModels ;;;
      ret Next
  end.

Definition processDatabaseDefinitions (definitions : list QueryDefinition)
    (connection : option Conn) : Go unit :=
  forRange (databaseDefinition connection) definitions.

Definition PopulateDatabaseMetrics (databases : DatabaseList) (version : Version)
    (connection : option Conn) : Go unit :=
  processDatabaseDefinitions (generateDatabaseDefinitions databases version) connection.

Definition PopulateDatabaseLockMetrics (databases : DatabaseList) (version : Version)
    (connection : option Conn) : Go unit :=
  have <- HaveExtensionInSchema connection "tablefunc" "public" ;;
  if negb have then
    log_Warn "Crosstab function not available; database lock metric gathering not possible." ;;;
    log_Warn "To enable database lock metrics, enable the 'tablefunc' extension on the public" ;;;
    log_Warn "schema of your database. You can do so by:" ;;;
    log_Warn "  1. Installing the postgresql contribs package for your OS; and" ;;;
    log_Warn "  2. Run the query 'CREATE EXTENSION tablefunc;' against your database's public schema"
  else
    processDatabaseDefinitions (generateLockDefinitions databases version) connection.

(** *** Table domain *)

Definition tableRow (row : Row) : Go Flow :=
  let (dbName, err) := GetDatabaseName row in
  logIf "Unable to get database name: " err ;;;
  let (schemaName, err) := GetSchemaName row in
  logIf "Unable to get schema name: " err ;;;
  let (tableName, err) := GetTableName row in
  logIf "Unable to get table name: " err ;;;
  let (host, port) := ci_HostPort w in
  do (tableEntity, err) <- Integration_Entity w tableName "pg-table"
                            [("host", host); ("port", port);
                             ("pg-database", dbName); ("pg-schema", schemaName)] ;;
  logIf ("Failed to get table entity for table " +:+ tableName +:+ ": ") err ;;;
  entityName <- entity_Name tableEntity ;;
  metricSet <- NewMetricSet tableEntity "PostgresqlTableSample"
                 [("displayName", entityName); ("entityName", "table:" +:+ entityName);
                  ("database", dbName); ("schema", schemaName)] ;;
  err <- MarshalMetrics metricSet row ;;
  logIf "Failed to populate table entity with metrics: " err ;;;
  ret Next.

Definition tableDefinition (con : option Conn) (definition : QueryDefinition) : Go Flow :=
  r <- Query con (GetQuery definition) ;;
  match r with
  | inl err =>
      log_Error ("Could not execute table query: " +:+ err) ;;;
      ret Return
  | inr dataModels =>
      forRange tableRow dataModels ;;;
      ret Next
  end.

Definition populateTableMetricsForDatabase (schemaList : SchemaList) (con : option Conn) : Go unit :=
  forRange (tableDefinition con) (generateTableDefinitions schemaList).

Definition tableDatabase (entry : string * SchemaList) : Go Flow :=
  let (database, schemaList) := entry in
  if (length schemaList =? 0)%nat then ret Return
  else
    do (con, err) <- NewConnection database ;;
    deferClose con ;;;
    match err with
    | Some e =>
        log_Error ("Failed to connect to database " +:+ database +:+ ": " +:+ e) ;;;
        ret Next
    | None =>
        populateTableMetricsForDatabase schemaList con ;;;
        ret Next
    end.

Definition PopulateTableMetrics (databases : DatabaseList) : Go unit :=
  withDefers (forRange tableDatabase databases).

(** *** Index domain *)

Definition indexRow (row : Row) : Go Flow :=
  let (dbName, err) := GetDatabaseName row in
  logIf "Unable to get database name: " err ;;;
  let (schemaName, err) := GetSchemaName row in
  logIf "Unable to get schema name: " err ;;;
  let (tableName, err) := GetTableName row in
  logIf "Unable to get table name: " err ;;;
  let (indexName, err) := GetIndexName row in
  logIf "Unable to get index name: " err ;;;
  let (host, port) := ci_HostPort w in
  do (indexEntity, err) <- Integration_Entity w indexName "pg-index"
                            [("host", host); ("port", port); ("pg-database", dbName);
                             ("pg-schema", schemaName); ("pg-table", tableName)] ;;
  logIf ("Failed to get table entity for index " +:+ indexName +:+ ": ") err ;;;
  entityName <- entity_Name indexEntity ;;
  metricSet <- NewMetricSet indexEntity "PostgresqlIndexSample"
                 [("displayName", entityName); ("entityName", "index:" +:+ entityName);
                  ("database", dbName); ("schema", schemaName); ("table", tableName)] ;;
  err <- MarshalMetrics metricSet row ;;
  logIf "Failed to populate index entity with metrics: " err ;;;
  ret Next.

Definition indexDefinition (con : option Conn) (definition : QueryDefinition) : Go Flow :=
  r <- Query con (GetQuery definition) ;;
  match r with
  | inl err =>
      log_Error ("Could not execute index query: " +:+ err) ;;;
      ret Return
  | inr dataModels =>
      forRange indexRow dataModels ;;;
      ret Next
  end.

Definition populateIndexMetricsForDatabase (schemaList : SchemaList) (con : option Conn) : Go unit :=
  forRange (indexDefinition con) (generateIndexDefinitions schemaList).

Definition indexDatabase (entry : string * SchemaList) : Go Flow :=
  let (database, schemaList) := entry in
  do (con, err) <- NewConnection database ;;
  match err with
  | Some e =>
      log_Error ("Failed to create new connection to database " +:+ database +:+ ": " +:+ e) ;;;
      ret Next
  | None =>
      deferClose con ;;;
      populateIndexMetricsForDatabase schemaList con ;;;
      ret Next
  end.

Definition PopulateIndexMetrics (databases : DatabaseList) : Go unit :=
  withDefers (forRange indexDatabase databases).

(** *** Pooling-proxy domain *)

Definition pgBouncerRow (db : Row) : Go Flow :=
  let (name, err) := GetDatabaseName db in
  match err with
  | Some e =>
      log_Error ("Unable to get database name: " +:+ e) ;;;
      ret Next
  | None =>
      let (host, port) := ci_HostPort w in
      do (pgEntity, err) <- Integration_Entity w name "pgbouncer"
                             [("host", host); ("port", port)] ;;
      logIf ("Failed to get database entity for name " +:+ name +:+ ": ") err ;;;
      metricSet <- NewMetricSet pgEntity "PgBouncerSample"
                     [("displayName", name); ("entityName", "pgbouncer:" +:+ name);
                      ("host", host)] ;;
      err <- MarshalMetrics metricSet db ;;
      logIf "Failed to populate pgbouncer entity with metrics: " err ;;;
      ret Next
  end.

Definition pgBouncerDefinition (con : option Conn) (definition : QueryDefinition) : Go Flow :=
  r <- Query con (GetQuery definition) ;;
  match r with
  | inl err =>
      log_Error ("Could not execute index query: " +:+ err) ;;;
      ret Return
  | inr dataModels =>
      forRange pgBouncerRow dataModels ;;;
      ret Next
  end.

Definition PopulatePgBouncerMetrics (con : option Conn) : Go unit :=
  forRange (pgBouncerDefinition con) generatePgBouncerDefinitions.

(** *** The run *)

(** The map [databaseList] is ranged over twice in a run, by
    [PopulateTableMetrics] and by [PopulateIndexMetrics].  Go does not
    specify the order of a [range] over a map, and one [range] need not
    repeat the order of another: [tableRange] and [indexRange] are the
    entries of [databaseList] in the order in which the first and the second
    [range] visit them. *)
Definition populateDomains (databaseList tableRange indexRange : DatabaseList)
    (instance : option EntityRef)
    (collectPgBouncer collectDbLocks : bool) (version : Version) (con : option Conn) : Go unit :=
  PopulateInstanceMetrics instance version con ;;;
  PopulateDatabaseMetrics databaseList version con ;;;
  (if collectDbLocks then PopulateDatabaseLockMetrics databaseList version con else ret tt) ;;;
  PopulateTableMetrics tableRange ;;;
  PopulateIndexMetrics indexRange ;;;
  if collectPgBouncer then
    do (con, err) <- NewConnection "pgbouncer" ;;
    match err with
    | Some e => log_Error ("Error creating connection to pgbouncer database: " +:+ e)
    | None =>
        deferClose con ;;;
        PopulatePgBouncerMetrics con
    end
  else ret tt.

Definition PopulateMetrics (databaseList tableRange indexRange : DatabaseList)
    (instance : option EntityRef)
    (collectPgBouncer collectDbLocks : bool) : Go unit :=
  withDefers (
    do (con, err) <- NewConnection (ci_DatabaseName w) ;;
    match err with
    | Some e =>
        log_Error ("Metrics collection failed: error creating connection to SQL Server: " +:+ e)
    | None =>
        deferClose con ;;;
        r <- collectVersion con ;;
        match r with
        | inl e =>
            log_Error ("Metrics collection failed: error collecting version number: " +:+ e)
        | inr version =>
            populateDomains databaseList tableRange indexRange instance
              collectPgBouncer collectDbLocks version con
        end
    end).

End Metrics.

(** ** A concrete environment for the examples *)

Definition digitOf (a : Ascii.ascii) : option N :=
  let n := Ascii.N_of_ascii a in
  if ((48 <=? n) && (n <=? 57))%N then Some (n - 48)%N else None.

Fixpoint parseNumber (s : string) (acc : option N) : option N :=
  match s with
  | EmptyString => acc
  | String a s' =>
      match digitOf a with
      | Some d => parseNumber s' (Some (default 0%N acc * 10 + d)%N)
      | None => None
      end
  end.

Fixpoint splitDots (s : string) (cur : string) : list string :=
  match s with
  | EmptyString => [cur]
  | String a s' =>
      if (Ascii.N_of_ascii a =? 46)%N then cur :: splitDots s' EmptyString
      else splitDots s' (cur +:+ String a EmptyString)
  end.

(** Modelled from the spec: "tolerant semantic-version parsing (accepts
    versions lacking a patch component)".  One to three dot-separated
    decimal numbers; the missing ones are zero.  The theorems below hold for
    every parser; this one instantiates the examples. *)
Definition parseTolerantModel (s : string) : Err + Version :=
  match map (fun p => parseNumber p None) (splitDots s EmptyString) with
  | [Some a] => inr (mkVersion a 0 0)
  | [Some a; Some b] => inr (mkVersion a b 0)
  | [Some a; Some b; Some c] => inr (mkVersion a b c)
  | _ => inl ("Invalid character(s) found in version " +:+ s)
  end.

Definition inList (x : string) (l : list string) : bool :=
  existsb (String.eqb x) l.

(** An environment that does not look at the history: the databases in
    [unreachable] refuse connections, the version query returns
    [versionRows], a data query returns [rows sql], the extension is present
    and the SDK accepts every entity. *)
Definition exWorld (unreachable : list string) (versionRows : Err + list string)
    (rows : string -> Err + list Row) : World :=
  mkWorld "postgres" ("localhost", "5432")
    (fun _ db => if inList db unreachable then Some "connection refused" else None)
    (fun _ _ _ => versionRows)
    (fun _ _ sql => rows sql)
    (fun _ _ _ _ => true)
    (fun _ _ => None).

Definition exInstance : Entity := mkEntity "localhost:5432" "pg-instance" [] [].

Definition s0 : State := mkState [] exInstance [] [].

Definition exRow (db : string) (n : string) : Row :=
  mkRow (Some db) (Some "public") (Some "accounts") (Some "accounts_pkey")
    [("value", n)] None.

Definition qInstance1 : QueryDefinition := mkQueryDefinition "SELECT bgwriter" None None.
Definition qInstance2 : QueryDefinition := mkQueryDefinition "SELECT archiver" None None.
Definition qDatabase : QueryDefinition := mkQueryDefinition "SELECT database" None None.
Definition qLock : QueryDefinition := mkQueryDefinition "SELECT locks" None None.
(** A table definition gated to servers older than 10.0.0. *)
Definition qTablePre10 : QueryDefinition :=
  mkQueryDefinition "SELECT tables" None (Some (mkVersion 10 0 0)).
Definition qTableBloat : QueryDefinition := mkQueryDefinition "SELECT bloat" None None.
Definition qIndex : QueryDefinition := mkQueryDefinition "SELECT indexes" None None.
Definition qPgBouncer : QueryDefinition := mkQueryDefinition "SHOW STATS" None None.

Definition exRows (sql : string) : Err + list Row :=
  inr [exRow "app" "1"; exRow "app" "2"].

(** [PopulateMetrics] with the example catalog, in a run in which the
    table domain visits the databases in the order [tableRange] and the
    index domain in the order [indexRange]. *)
Definition exPopulateMetricsRanges (tableDefs : list QueryDefinition) (closeByValue : bool)
    (w : World) (databaseList tableRange indexRange : DatabaseList)
    (collectPgBouncer collectDbLocks : bool) : Go unit :=
  PopulateMetrics
    (fun _ => [qInstance1; qInstance2]) (fun _ _ => [qDatabase]) (fun _ _ => [qLock])
    (fun _ => tableDefs) (fun _ => [qIndex]) [qPgBouncer]
    parseTolerantModel closeByValue w databaseList tableRange indexRange (Some InstanceRef)
    collectPgBouncer collectDbLocks.

(** The same, in a run in which both domains visit the databases in the
    order of the list. *)
Definition exPopulateMetrics (tableDefs : list QueryDefinition) (closeByValue : bool)
    (w : World) (databaseList : DatabaseList) (collectPgBouncer collectDbLocks : bool) : Go unit :=
  exPopulateMetricsRanges tableDefs closeByValue w databaseList databaseList databaseList
    collectPgBouncer collectDbLocks.

(** The SQL texts of the queries in a trace, and the databases to which a
    connection was attempted. *)
Definition queriesOf (tr : list Event) : list string :=
  flat_map (fun e => match e with EQuery _ sql => [sql] | _ => [] end) tr.

Definition opensOf (tr : list Event) : list string :=
  flat_map (fun e => match e with EOpen db _ => [db] | _ => [] end) tr.

Definition closesOf (tr : list Event) : list Conn :=
  flat_map (fun e => match e with EClose c => [c] | _ => [] end) tr.

(** ** Vocabulary of the statements *)

(** [stable R m]: whatever [m] does, and whether it returns or panics, the
    state after it is [R]-related to the state before it. *)
Definition stable (R : relation State) {A} (m : Go A) : Prop :=
  forall s, R s (snd (m s)).

(** Deferred calls are only added to the current frame. *)
Definition defersGrow : relation State := fun s s' =>
  exists ds, st_defers s' = ds ++ st_defers s.

(** The trace only grows. *)
Definition traceGrows : relation State := fun s s' =>
  exists evs, st_trace s' = st_trace s ++ evs.

(** The log entry written for an error, if there is one. *)
Definition errLog (prefix : string) (err : option Err) : list Event :=
  match err with
  | Some e => [ELog LError (prefix +:+ e)]
  | None => []
  end.

(** A state with other entities and more events. *)
Definition withEntities (evs : list Event) (entities : list Entity) (s : State) : State :=
  mkState (st_trace s ++ evs) (st_instance s) entities (st_defers s).

Definition withEvents (evs : list Event) (s : State) : State :=
  mkState (st_trace s ++ evs) (st_instance s) (st_entities s) (st_defers s).

(** The sample that a row leaves on an entity. *)
Definition sampleOf (eventType : string) (attrs : list Attribute) (row : Row) : MetricSet :=
  mkMetricSet eventType attrs (row_fields row).

(** The entities after a row has been attached, as a sample, to the entity
    of the given identity. *)
Definition attachRow (name ns : string) (ids : list Attribute) (eventType : string)
    (attrs : list Attribute) (row : Row) (entities : list Entity) : list Entity :=
  alter (addMetricSet (sampleOf eventType attrs row))
    (fst (resolveEntity name ns ids entities))
    (snd (resolveEntity name ns ids entities)).

(** The identity component that stands for an identity field. *)
Definition identity (f : option string) : string := default "" f.

(** Some entity of the given identity carries [m] as its latest sample. *)
Definition carriesSample (name ns : string) (ids : list Attribute) (m : MetricSet)
    (entities : list Entity) : Prop :=
  exists i e,
    entities !! i = Some e
    /\ Metadata_Name e = name /\ Metadata_Namespace e = ns /\ idAttributes e = ids
    /\ last (Metrics e) = Some m.

(** Between two states, an error with that message was logged. *)
Definition reported (msg : string) (s s' : State) : Prop :=
  exists evs, st_trace s' = st_trace s ++ evs /\ In (ELog LError msg) evs.

(** A pooling-proxy row whose record has no database name. *)
Definition rowNoDatabase : Row := mkRow None None None None [("cl_active", "3")] None.

Definition isLog (e : Event) : Prop :=
  match e with ELog _ _ => True | _ => False end.

(** A loop body that always falls through to the next iteration, writes
    nothing but log entries and touches only the entities. *)
Definition quietBody {A} (body : A -> Go Flow) : Prop :=
  forall x s, exists evs ents,
    body x s = (Done Next, withEntities evs ents s) /\ Forall isLog evs.

(** The shape shared by the loop bodies over query definitions: run the
    query; on an error log it and leave with [onErr]; otherwise process the
    rows. *)
Definition definitionBody (w : World) (prefix : string) (onErr : Flow)
    (rowBody : Row -> Go Flow) (con : option Conn) (definition : QueryDefinition) : Go Flow :=
  r <- Query w con (GetQuery definition) ;;
  match r with
  | inl err => log_Error (prefix +:+ err) ;;; ret onErr
  | inr dataModels => forRange rowBody dataModels ;;; ret Next
  end.

(** On connection [c] every data query returns rows, whatever happened
    before. *)
Definition queriesSucceed (w : World) (c : Conn) : Prop :=
  forall tr sql, exists rows, w_rows w tr c sql = inr rows.

(** A world in which the query with text [bad] fails. *)
Definition exRowsFailing (bad : string) (sql : string) : Err + list Row :=
  if String.eqb sql bad then inl "canceling statement due to statement timeout"
  else exRows sql.

Definition v12_3 : Version := mkVersion 12 3 0.

(** The events written when the deferred calls of a frame run. *)
Definition closeEvents (ds : list (option Conn)) : list Event :=
  flat_map (fun d => match d with Some c => [EClose c] | None => [] end) ds.

(** ** The connection protocol *)

Definition conn_eqb (a b : Conn) : bool :=
  String.eqb (conn_database a) (conn_database b)
  && Nat.eqb (conn_serial a) (conn_serial b).

Definition isLive (c : Conn) (live : list Conn) : bool := existsb (conn_eqb c) live.

(** The open connections after [c] has been closed. *)
Fixpoint release (c : Conn) (live : list Conn) : list Conn :=
  match live with
  | [] => []
  | x :: l => if conn_eqb c x then l else x :: release c l
  end.

(** A checker of the connection protocol over a piece of trace that
    starts at position [n] with the connections [live] open: an opened
    connection becomes live, a query, an extension check and a close need a
    live connection, a close ends it.  The result is the connections still
    open at the end, or [None] when the protocol is broken. *)
Fixpoint protocol (live : list Conn) (n : nat) (evs : list Event) : option (list Conn) :=
  match evs with
  | [] => Some live
  | e :: evs' =>
      match e with
      | EOpen database true => protocol (mkConn database n :: live) (S n) evs'
      | EOpen _ false => protocol live (S n) evs'
      | EQuery c _ => if isLive c live then protocol live (S n) evs' else None
      | EExtension c _ _ => if isLive c live then protocol live (S n) evs' else None
      | EClose c => if isLive c live then protocol (release c live) (S n) evs' else None
      | ELog _ _ => protocol live (S n) evs'
      end
  end.

(** The connections whose [Close] is deferred. *)
Definition somes (ds : list (option Conn)) : list Conn :=
  flat_map (fun d => match d with Some c => [c] | None => [] end) ds.

(** [uses req s s']: from [s] to [s'] the trace grew by events that respect
    the protocol whenever the connections [req] are open, and every
    connection opened on the way and still open has its [Close] deferred in
    the current frame. *)
Definition uses (req : list Conn) : relation State := fun s s' =>
  exists evs new,
    st_trace s' = st_trace s ++ evs
    /\ st_defers s' = new ++ st_defers s
    /\ forall live,
         (forall c, In c req -> isLive c live = true) ->
         protocol live (length (st_trace s)) evs = Some (somes new ++ live).

(** [appends P s s']: the trace grew by events that all satisfy [P]. *)
Definition appends (P : Event -> Prop) : relation State := fun s s' =>
  exists evs, st_trace s' = st_trace s ++ evs /\ Forall P evs.

(** The state with one more event. *)
Definition snoc (e : Event) (s : State) : State :=
  mkState (st_trace s ++ [e]) (st_instance s) (st_entities s) (st_defers s).

(** The warnings of the lock domain when the extension is missing. *)
Definition lockWarnings : list Event :=
  [ELog LWarn "Crosstab function not available; database lock metric gathering not possible.";
   ELog LWarn "To enable database lock metrics, enable the 'tablefunc' extension on the public";
   ELog LWarn "schema of your database. You can do so by:";
   ELog LWarn "  1. Installing the postgresql contribs package for your OS; and";
   ELog LWarn "  2. Run the query 'CREATE EXTENSION tablefunc;' against your database's public schema"].

(** What a run is allowed to reach: the primary database, the databases
    of the topology and, when enabled, the pooling proxy; the extension
    check belongs to the lock domain. *)
Definition reachable (w : World) (databaseList : DatabaseList)
    (collectPgBouncer collectDbLocks : bool) (e : Event) : Prop :=
  match e with
  | EOpen database _ =>
      database = ci_DatabaseName w
      \/ In database (map fst databaseList)
      \/ (collectPgBouncer = true /\ database = "pgbouncer")
  | EExtension _ _ _ => collectDbLocks = true
  | _ => True
  end.

(** All the events that an inner function may write when it is handed the
    connection [c]: log entries, and queries and extension checks on [c]. *)
Definition onlyOn (c : Conn) (e : Event) : Prop :=
  match e with
  | ELog _ _ => True
  | EQuery c' _ => c' = c
  | EExtension c' _ _ => c' = c
  | _ => False
  end.

(** The databases that [range] visits before the first one without
    schemas. *)
Fixpoint beforeEmpty (databases : DatabaseList) : DatabaseList :=
  match databases with
  | [] => []
  | (database, schemaList) :: rest =>
      if (length schemaList =? 0)%nat then []
      else (database, schemaList) :: beforeEmpty rest
  end.

(** ** The entry point (package [main]) *)

(** What the collaborators of [main] answer: [integration.New],
    [args.Verbose], the text that [%s] prints for [args],
    [args.Validate()] and [i.Publish()]. *)
Record Startup := mkStartup {
  su_new : option Err;
  su_verbose : bool;
  su_args : string;
  su_validate : option Err;
  su_publish : option Err
}.

Inductive MainEvent :=
| MError (msg : string)
| MSetupLogging (verbose : bool)
| MPublish.

(** [main]: what it does, in order, and the exit status of the process
    ([os.Exit(1)] ends it at once; returning from [main] exits with 0). *)
Definition main (su : Startup) : list MainEvent * Z :=
  match su_new su with
  | Some err => ([MError err], 1%Z)
  | None =>
      match su_validate su with
      | Some _ =>
          ([MSetupLogging (su_verbose su);
            MError ("Configuration error: " +:+ su_args su)], 1%Z)
      | None =>
          match su_publish su with
          | Some err => ([MSetupLogging (su_verbose su); MPublish; MError err], 0%Z)
          | None => ([MSetupLogging (su_verbose su); MPublish], 0%Z)
          end
      end
  end.

Definition withValidate (err : option Err) (su : Startup) : Startup :=
  mkStartup (su_new su) (su_verbose su) (su_args su) err (su_publish su).



(** ** The instance domain when every definition returns rows *)

(** On connection [c] the query of every definition of [defs] returns
    rows, the first of which is [firstRow] of its SQL text, whatever
    happened before. *)
Definition returnsFirst (w : World) (c : Conn) (firstRow : string -> Row)
    (defs : list QueryDefinition) : Prop :=
  forall tr d, In d defs ->
    exists others, w_rows w tr c (GetQuery d) = inr (firstRow (GetQuery d) :: others).

(** What the instance domain writes to the trace then: every query, in
    order, each followed by the report of the marshalling error of its
    first row, if there is one. *)
Definition instanceEvents (c : Conn) (firstRow : string -> Row)
    (defs : list QueryDefinition) : list Event :=
  flat_map (fun d =>
              EQuery c (GetQuery d)
              :: errLog "Could not parse metrics from instance query result: "
                   (row_marshalErr (firstRow (GetQuery d)))) defs.

(** The metric fields of the first rows, in the order of the definitions. *)
Definition firstFields (firstRow : string -> Row) (defs : list QueryDefinition)
  : list (string * string) :=
  flat_map (fun d => row_fields (firstRow (GetQuery d))) defs.

(** Two instance queries with different results; the first returns two
    rows. *)
Definition exBgwriterRow (n : string) : Row :=
  mkRow None None None None [("buffers_clean", n)] None.
Definition exArchiverRow : Row :=
  mkRow None None None None [("archived_count", "3")] None.

Definition exInstanceFirst (sql : string) : Row :=
  if String.eqb sql "SELECT bgwriter" then exBgwriterRow "7" else exArchiverRow.

Definition exInstanceRows (sql : string) : Err + list Row :=
  if String.eqb sql "SELECT bgwriter" then inr [exBgwriterRow "7"; exBgwriterRow "9"]
  else inr [exArchiverRow].

(** ** Records with a missing identity field *)

(** The record that has the empty string in place of every identity field
    it lacks. *)
Definition filled (row : Row) : Row :=
  mkRow (Some (identity (row_database row))) (Some (identity (row_schema row)))
    (Some (identity (row_table row))) (Some (identity (row_index row)))
    (row_fields row) (row_marshalErr row).

(** The report of an identity field, when it is missing. *)
Definition missingReport (what : string) (f : option string) : list Event :=
  errLog ("Unable to get " +:+ what +:+ ": ") (snd (getField what f)).

(** An environment whose SDK refuses an entity without a name and accepts
    every other one; every connection can be opened and a data query
    returns [rows sql]. *)
Definition sdkWorld (rows : string -> Err + list Row) : World :=
  mkWorld "postgres" ("localhost", "5432")
    (fun _ _ => None)
    (fun _ _ _ => inr ["12.3"])
    (fun _ _ sql => rows sql)
    (fun _ _ _ _ => true)
    (fun name _ =>
       if String.eqb name "" then Some "entity name and type are required when defining one"
       else None).

(** A table record without schema name, and one without table name. *)
Definition rowNoSchema : Row :=
  mkRow (Some "app") None (Some "accounts") None [("n_live_tup", "12")] None.
Definition rowNoTable : Row :=
  mkRow (Some "app") (Some "public") None None [("n_live_tup", "12")] None.

(** * Properties *)

(** ** The monad and the loops *)

Lemma bind_Done {A B} (m : Go A) (k : A -> Go B) s a s' :
  m s = (Done a, s') -> bind m k s = k a s'.
Proof. intros H. unfold bind. now rewrite H. Qed.

Lemma bind_Panic {A B} (m : Go A) (k : A -> Go B) s msg s' :
  m s = (Panic msg, s') -> bind m k s = (Panic msg, s').
Proof. intros H. unfold bind. now rewrite H. Qed.

Lemma set_defers_same s : set_defers (st_defers s) s = s.
Proof. now destruct s. Qed.

Lemma forRange_cons {A} (body : A -> Go Flow) x xs s :
  forRange body (x :: xs) s =
  match body x s with
  | (Done Next, s') => forRange body xs s'
  | (Done Return, s') => (Done tt, s')
  | (Panic msg, s') => (Panic msg, s')
  end.
Proof.
  cbn [forRange]. unfold bind.
  destruct (body x s) as [[[|]|msg] s']; reflexivity.
Qed.

(** ** Version resolution *)

Section VersionProperties.

Variable ParseTolerant : string -> Err + Version.
Variable w : World.

(** What [collectVersion] does once the query has returned its rows. *)
Lemma collectVersion_query c s :
  collectVersion ParseTolerant w (Some c) s =
  (let s1 := mkState (st_trace s ++ [EQuery c versionQuery])
               (st_instance s) (st_entities s) (st_defers s) in
   match w_versionRows w (st_trace s) c versionQuery with
   | inl err => (Done (inl err), s1)
   | inr versionRows =>
       match versionRows !! 0%nat with
       | None => (Panic indexRange, s1)
       | Some version =>
           (if strings_Contains version "Ubuntu" then
              parseSpecialVersion ParseTolerant version (strings_Index version " (Ubuntu")
            else if strings_Contains version "Debian" then
              parseSpecialVersion ParseTolerant version (strings_Index version " (Debian")
            else
              match ParseTolerant version with
              | inl err => ret (inl err)
              | inr v => ret (inr v)
              end) s1
       end
   end).
Proof.
  unfold collectVersion, bind, Query_version. cbn.
  destruct (w_versionRows w (st_trace s) c versionQuery) as [err|rows]; [reflexivity|].
  destruct (rows !! 0%nat); reflexivity.
Qed.

Lemma parseSpecialVersion_negative version specialIndex s :
  (specialIndex < 0)%Z ->
  parseSpecialVersion ParseTolerant version specialIndex s = (Panic sliceRange, s).
Proof.
  intros H. unfold parseSpecialVersion, slice_to.
  destruct (specialIndex <? 0)%Z eqn:E; [reflexivity | lia].
Qed.

Lemma parseSpecialVersion_in_bounds version specialIndex s :
  (0 <= specialIndex <= Z.of_nat (String.length version))%Z ->
  parseSpecialVersion ParseTolerant version specialIndex s =
  (Done (ParseTolerant (String.substring 0 (Z.to_nat specialIndex) version)), s).
Proof.
  intros H. unfold parseSpecialVersion, slice_to.
  destruct (specialIndex <? 0)%Z eqn:E1; [lia|].
  destruct (Z.of_nat (String.length version) <? specialIndex)%Z eqn:E2; [lia|].
  cbn. destruct (ParseTolerant _); reflexivity.
Qed.

(** C7: when the version query succeeds with zero rows, [versionRows[0]]
    is out of range: version resolution panics; it yields neither a
    version nor an error value. *)
Theorem collectVersion_zero_rows_panics c s :
  w_versionRows w (st_trace s) c versionQuery = inr [] ->
  fst (collectVersion ParseTolerant w (Some c) s) = Panic indexRange.
Proof.
  intros H. rewrite collectVersion_query, H. reflexivity.
Qed.

(** C6: a version string that contains the token "Ubuntu" (or, failing
    that, "Debian") but not the parenthetical " (Ubuntu" (" (Debian") is
    sliced at index -1: version resolution panics instead of parsing a
    truncated prefix. *)
Theorem collectVersion_marker_without_parenthetical_panics c s version rest :
  w_versionRows w (st_trace s) c versionQuery = inr (version :: rest) ->
  (strings_Contains version "Ubuntu" = true /\
   strings_Index version " (Ubuntu" = (-1)%Z)
  \/ (strings_Contains version "Ubuntu" = false /\
      strings_Contains version "Debian" = true /\
      strings_Index version " (Debian" = (-1)%Z) ->
  fst (collectVersion ParseTolerant w (Some c) s) = Panic sliceRange.
Proof.
  intros Hrows Hmark. rewrite collectVersion_query, Hrows. cbn.
  destruct Hmark as [[HU HI] | (HU & HD & HI)].
  - rewrite HU, HI, parseSpecialVersion_negative by lia. reflexivity.
  - rewrite HU, HD, HI, parseSpecialVersion_negative by lia. reflexivity.
Qed.

End VersionProperties.

Lemma collectVersion_zero_rows_panics_witness :
  fst (collectVersion parseTolerantModel (exWorld [] (inr []) exRows)
         (Some (mkConn "postgres" 0)) s0) = Panic indexRange.
Proof.
  apply (collectVersion_zero_rows_panics parseTolerantModel
           (exWorld [] (inr []) exRows) (mkConn "postgres" 0) s0).
  reflexivity.
Defined.

Lemma collectVersion_marker_without_parenthetical_panics_witness :
  fst (collectVersion parseTolerantModel (exWorld [] (inr ["9.6.1 Ubuntu"]) exRows)
         (Some (mkConn "postgres" 0)) s0) = Panic sliceRange.
Proof.
  apply (collectVersion_marker_without_parenthetical_panics parseTolerantModel
           (exWorld [] (inr ["9.6.1 Ubuntu"]) exRows) (mkConn "postgres" 0) s0
           "9.6.1 Ubuntu" []).
  - reflexivity.
  - left. split; reflexivity.
Defined.

(** ** Relations between the state before and after a call *)


Section Stable.

Context (R : relation State) `{!PreOrder R}.

Lemma stable_ret {A} (a : A) : stable R (ret a).
Proof. intros s. cbn. reflexivity. Qed.

Lemma stable_panic {A} msg : stable R (@panic A msg).
Proof. intros s. cbn. reflexivity. Qed.

Lemma stable_bind {A B} (m : Go A) (k : A -> Go B) :
  stable R m -> (forall a, stable R (k a)) -> stable R (bind m k).
Proof.
  intros Hm Hk s. unfold bind. specialize (Hm s).
  destruct (m s) as [[a|msg] s']; cbn in *; [|assumption].
  etransitivity; [eassumption | apply Hk].
Qed.

Lemma stable_forRange {A} (body : A -> Go Flow) l :
  (forall x, stable R (body x)) -> stable R (forRange body l).
Proof.
  intros Hb. induction l as [|x xs IH]; cbn [forRange].
  - apply stable_ret.
  - apply stable_bind; [apply Hb|]. intros [|]; [apply IH | apply stable_ret].
Qed.

End Stable.


#[local] Instance defersGrow_preorder : PreOrder defersGrow.
Proof.
  split.
  - intros s. now exists [].
  - intros a b c [d1 H1] [d2 H2]. exists (d2 ++ d1).
    now rewrite H2, H1, app_assoc.
Qed.

#[local] Instance traceGrows_preorder : PreOrder traceGrows.
Proof.
  split.
  - intros s. exists []. now rewrite app_nil_r.
  - intros a b c [e1 H1] [e2 H2]. exists (e1 ++ e2).
    now rewrite H2, H1, <- app_assoc.
Qed.


Lemma queriesOf_app t1 t2 : queriesOf (t1 ++ t2) = queriesOf t1 ++ queriesOf t2.
Proof. unfold queriesOf. apply flat_map_app. Qed.

Lemma opensOf_app t1 t2 : opensOf (t1 ++ t2) = opensOf t1 ++ opensOf t2.
Proof. unfold opensOf. apply flat_map_app. Qed.

Lemma closesOf_app t1 t2 : closesOf (t1 ++ t2) = closesOf t1 ++ closesOf t2.
Proof. unfold closesOf. apply flat_map_app. Qed.

(** ** The entity table *)

Lemma attrs_eqb_eq l1 l2 : attrs_eqb l1 l2 = true -> l1 = l2.
Proof.
  revert l2. induction l1 as [|[a1 a2] l1 IH]; intros [|[b1 b2] l2] H; cbn in H;
    try reflexivity; try discriminate.
  apply andb_true_iff in H as [Ha Hl]. unfold attr_eqb in Ha. cbn in Ha.
  apply andb_true_iff in Ha as [H1 H2].
  apply String.eqb_eq in H1, H2. subst. f_equal. now apply IH.
Qed.

Lemma sameIdentity_eq name ns ids e :
  sameIdentity name ns ids e = true ->
  Metadata_Name e = name /\ Metadata_Namespace e = ns /\ idAttributes e = ids.
Proof.
  unfold sameIdentity. intros H.
  apply andb_true_iff in H as [H H3]. apply andb_true_iff in H as [H1 H2].
  apply String.eqb_eq in H1, H2. apply attrs_eqb_eq in H3. auto.
Qed.

Lemma findEntity_Some p l k i :
  findEntity p l k = Some i ->
  exists e, k <= i /\ l !! (i - k) = Some e /\ p e = true.
Proof.
  revert k. induction l as [|x l IH]; intros k H; cbn in H; [discriminate|].
  destruct (p x) eqn:Hp.
  - injection H as <-. exists x. rewrite Nat.sub_diag. auto.
  - apply IH in H as (e & Hle & Hl & He). exists e. split; [lia|]. split; [|assumption].
    replace (i - k) with (S (i - S k)) by lia. exact Hl.
Qed.

(** The resolved position holds an entity of the requested identity. *)
Lemma resolveEntity_lookup name ns ids entities :
  exists e,
    snd (resolveEntity name ns ids entities) !! fst (resolveEntity name ns ids entities) = Some e
    /\ Metadata_Name e = name /\ Metadata_Namespace e = ns /\ idAttributes e = ids.
Proof.
  unfold resolveEntity.
  destruct (findEntity _ entities 0) as [i|] eqn:Hf; cbn.
  - apply findEntity_Some in Hf as (e & _ & Hl & He).
    rewrite Nat.sub_0_r in Hl. exists e. split; [assumption|].
    now apply sameIdentity_eq.
  - exists (mkEntity name ns ids []). split; [|auto].
    rewrite lookup_app_r by lia. now rewrite Nat.sub_diag.
Qed.

Lemma logIf_run prefix err s :
  logIf prefix err s = (Done tt, withEvents (errLog prefix err) s).
Proof.
  destruct err; cbn; [reflexivity|].
  unfold ret, withEvents. cbn. rewrite app_nil_r. now destruct s.
Qed.

Lemma Integration_Entity_run w name ns ids s :
  w_entityErr w name ns = None ->
  Integration_Entity w name ns ids s =
  (Done (Some (EntRef (fst (resolveEntity name ns ids (st_entities s)))), None),
   withEntities [] (snd (resolveEntity name ns ids (st_entities s))) s).
Proof.
  intros H. unfold Integration_Entity, withEntities. rewrite H.
  destruct (resolveEntity name ns ids (st_entities s)). cbn. now rewrite app_nil_r.
Qed.

Lemma entity_Name_run i e s :
  st_entities s !! i = Some e ->
  entity_Name (Some (EntRef i)) s = (Done (Metadata_Name e), s).
Proof. intros H. unfold entity_Name. cbn. now rewrite H. Qed.

(** Creating a sample set on an entity and marshalling a row into it
    appends one sample, holding the fields of the row, to that entity. *)
Lemma attach_sample i e eventType attrs row s :
  st_entities s !! i = Some e ->
  bind (NewMetricSet (Some (EntRef i)) eventType attrs)
       (fun metricSet => MarshalMetrics metricSet row) s =
  (Done (row_marshalErr row),
   withEntities [] (alter (addMetricSet (sampleOf eventType attrs row)) i (st_entities s)) s).
Proof.
  intros H. unfold bind, NewMetricSet. cbn. rewrite H. cbn.
  unfold MarshalMetrics, withEntities. cbn. rewrite app_nil_r. do 2 f_equal.
  rewrite list_alter_alter_eq. apply list_alter_ext; [|reflexivity].
  intros x Hx. rewrite H in Hx. injection Hx as <-.
  unfold marshalInto, addMetricSet, sampleOf. cbn. f_equal.
  replace (length (Metrics e)) with (length (Metrics e) + 0) at 1 by lia.
  now rewrite alter_app_r.
Qed.

Lemma withEntities_withEvents evs1 evs2 ents s :
  withEvents evs2 (withEntities evs1 ents s) = withEntities (evs1 ++ evs2) ents s.
Proof. unfold withEvents, withEntities. cbn. now rewrite app_assoc. Qed.

Lemma withEntities_withEntities evs1 evs2 ents1 ents2 s :
  withEntities evs2 ents2 (withEntities evs1 ents1 s) = withEntities (evs1 ++ evs2) ents2 s.
Proof. unfold withEntities. cbn. now rewrite app_assoc. Qed.

Lemma withEvents_withEntities evs1 evs2 ents s :
  withEntities evs2 ents (withEvents evs1 s) = withEntities (evs1 ++ evs2) ents s.
Proof. unfold withEvents, withEntities. cbn. now rewrite app_assoc. Qed.

Lemma withEvents_withEvents evs1 evs2 s :
  withEvents evs2 (withEvents evs1 s) = withEvents (evs1 ++ evs2) s.
Proof. unfold withEvents. cbn. now rewrite app_assoc. Qed.

Lemma attach_sample_k {B} i e eventType attrs row (k : option Err -> Go B) s :
  st_entities s !! i = Some e ->
  bind (NewMetricSet (Some (EntRef i)) eventType attrs)
       (fun metricSet => bind (MarshalMetrics metricSet row) k) s =
  k (row_marshalErr row)
    (withEntities [] (alter (addMetricSet (sampleOf eventType attrs row)) i (st_entities s)) s).
Proof.
  intros H. pose proof (attach_sample i e eventType attrs row s H) as Ha.
  unfold bind in *.
  destruct (NewMetricSet (Some (EntRef i)) eventType attrs s) as [[ms|msg] s1]; [|discriminate].
  destruct (MarshalMetrics ms row s1) as [[err|msg] s2]; [|discriminate].
  now injection Ha as -> ->.
Qed.

Ltac norm_state :=
  repeat first
    [ rewrite withEntities_withEvents | rewrite withEntities_withEntities
    | rewrite withEvents_withEntities | rewrite withEvents_withEvents ];
  rewrite ?app_nil_r; cbn [app].

(** The common tail of the row loops: resolve the entity, name the sample
    after it, marshal the row. *)
Lemma resolve_attach_run w name ns ids eventType (attrsOf : string -> list Attribute)
    row p1 p2 s :
  w_entityErr w name ns = None ->
  bind (Integration_Entity w name ns ids) (fun ab => let (ent, err) := ab in
    bind (logIf p1 err) (fun _ =>
    bind (entity_Name ent) (fun entityName =>
    bind (NewMetricSet ent eventType (attrsOf entityName)) (fun metricSet =>
    bind (MarshalMetrics metricSet row) (fun err =>
    bind (logIf p2 err) (fun _ => ret Next)))))) s =
  (Done Next,
   withEntities (errLog p2 (row_marshalErr row))
     (attachRow name ns ids eventType (attrsOf name) row (st_entities s)) s).
Proof.
  intros H.
  rewrite (bind_Done _ _ _ _ _ (Integration_Entity_run w name ns ids s H)).
  rewrite (bind_Done _ _ _ _ _ (logIf_run _ _ _)).
  destruct (resolveEntity_lookup name ns ids (st_entities s)) as (e & Hl & Hn & _).
  erewrite bind_Done by (apply (entity_Name_run _ e); exact Hl).
  erewrite attach_sample_k by exact Hl.
  rewrite (bind_Done _ _ _ _ _ (logIf_run _ _ _)).
  unfold ret, attachRow. rewrite Hn. norm_state. reflexivity.
Qed.

(** ** What one row does in each domain *)

Section Rows.

Variable w : World.

Lemma databaseRow_run db s :
  w_entityErr w (fst (GetDatabaseName db)) "pg-database" = None ->
  databaseRow w db s =
  (Done Next,
   withEntities
     (errLog "Unable to get database name: " (snd (GetDatabaseName db))
      ++ errLog "Failed to database entity with metrics: " (row_marshalErr db))
     (attachRow (fst (GetDatabaseName db)) "pg-database"
        [("host", fst (ci_HostPort w)); ("port", snd (ci_HostPort w))]
        "PostgresqlDatabaseSample"
        [("displayName", fst (GetDatabaseName db));
         ("entityName", "database:" +:+ fst (GetDatabaseName db))]
        db (st_entities s))
     s).
Proof.
  unfold databaseRow.
  destruct (GetDatabaseName db) as [name e1]. destruct (ci_HostPort w) as [host port].
  cbn [fst snd]. intros H.
  rewrite (bind_Done _ _ _ _ _ (logIf_run _ _ _)).
  rewrite (resolve_attach_run w name "pg-database" _ "PostgresqlDatabaseSample"
             (fun entityName => [("displayName", entityName);
                                 ("entityName", "database:" +:+ entityName)])
             db _ _ _ H).
  norm_state. reflexivity.
Qed.

Lemma tableRow_run row s :
  w_entityErr w (fst (GetTableName row)) "pg-table" = None ->
  tableRow w row s =
  (Done Next,
   withEntities
     (errLog "Unable to get database name: " (snd (GetDatabaseName row))
      ++ errLog "Unable to get schema name: " (snd (GetSchemaName row))
      ++ errLog "Unable to get table name: " (snd (GetTableName row))
      ++ errLog "Failed to populate table entity with metrics: " (row_marshalErr row))
     (attachRow (fst (GetTableName row)) "pg-table"
        [("host", fst (ci_HostPort w)); ("port", snd (ci_HostPort w));
         ("pg-database", fst (GetDatabaseName row));
         ("pg-schema", fst (GetSchemaName row))]
        "PostgresqlTableSample"
        [("displayName", fst (GetTableName row));
         ("entityName", "table:" +:+ fst (GetTableName row));
         ("database", fst (GetDatabaseName row));
         ("schema", fst (GetSchemaName row))]
        row (st_entities s))
     s).
Proof.
  unfold tableRow.
  destruct (GetDatabaseName row) as [dbName e1].
  destruct (GetSchemaName row) as [schemaName e2].
  destruct (GetTableName row) as [tableName e3].
  destruct (ci_HostPort w) as [host port].
  cbn [fst snd]. intros H.
  do 3 rewrite (bind_Done _ _ _ _ _ (logIf_run _ _ _)).
  rewrite (resolve_attach_run w tableName "pg-table" _ "PostgresqlTableSample"
             (fun entityName => [("displayName", entityName);
                                 ("entityName", "table:" +:+ entityName);
                                 ("database", dbName); ("schema", schemaName)])
             row _ _ _ H).
  norm_state. rewrite <- ?app_assoc. reflexivity.
Qed.

Lemma indexRow_run row s :
  w_entityErr w (fst (GetIndexName row)) "pg-index" = None ->
  indexRow w row s =
  (Done Next,
   withEntities
     (errLog "Unable to get database name: " (snd (GetDatabaseName row))
      ++ errLog "Unable to get schema name: " (snd (GetSchemaName row))
      ++ errLog "Unable to get table name: " (snd (GetTableName row))
      ++ errLog "Unable to get index name: " (snd (GetIndexName row))
      ++ errLog "Failed to populate index entity with metrics: " (row_marshalErr row))
     (attachRow (fst (GetIndexName row)) "pg-index"
        [("host", fst (ci_HostPort w)); ("port", snd (ci_HostPort w));
         ("pg-database", fst (GetDatabaseName row));
         ("pg-schema", fst (GetSchemaName row));
         ("pg-table", fst (GetTableName row))]
        "PostgresqlIndexSample"
        [("displayName", fst (GetIndexName row));
         ("entityName", "index:" +:+ fst (GetIndexName row));
         ("database", fst (GetDatabaseName row));
         ("schema", fst (GetSchemaName row));
         ("table", fst (GetTableName row))]
        row (st_entities s))
     s).
Proof.
  unfold indexRow.
  destruct (GetDatabaseName row) as [dbName e1].
  destruct (GetSchemaName row) as [schemaName e2].
  destruct (GetTableName row) as [tableName e3].
  destruct (GetIndexName row) as [indexName e4].
  destruct (ci_HostPort w) as [host port].
  cbn [fst snd]. intros H.
  do 4 rewrite (bind_Done _ _ _ _ _ (logIf_run _ _ _)).
  rewrite (resolve_attach_run w indexName "pg-index" _ "PostgresqlIndexSample"
             (fun entityName => [("displayName", entityName);
                                 ("entityName", "index:" +:+ entityName);
                                 ("database", dbName); ("schema", schemaName);
                                 ("table", tableName)])
             row _ _ _ H).
  norm_state. rewrite <- ?app_assoc. reflexivity.
Qed.

(** In the pooling-proxy domain a row without a database name is logged
    and skipped. *)
Lemma pgBouncerRow_missing db s :
  row_database db = None ->
  pgBouncerRow w db s =
  (Done Next,
   withEvents [ELog LError "Unable to get database name: did not find database name"] s).
Proof.
  intros H. unfold pgBouncerRow, GetDatabaseName. rewrite H. reflexivity.
Qed.

Lemma pgBouncerRow_run db name s :
  row_database db = Some name ->
  w_entityErr w name "pgbouncer" = None ->
  pgBouncerRow w db s =
  (Done Next,
   withEntities
     (errLog "Failed to populate pgbouncer entity with metrics: " (row_marshalErr db))
     (attachRow name "pgbouncer"
        [("host", fst (ci_HostPort w)); ("port", snd (ci_HostPort w))]
        "PgBouncerSample"
        [("displayName", name); ("entityName", "pgbouncer:" +:+ name);
         ("host", fst (ci_HostPort w))]
        db (st_entities s))
     s).
Proof.
  intros Hdb H. unfold pgBouncerRow, GetDatabaseName. rewrite Hdb. cbn [getField].
  destruct (ci_HostPort w) as [host port]. cbn [fst snd].
  rewrite (bind_Done _ _ _ _ _ (Integration_Entity_run w name "pgbouncer" _ s H)).
  rewrite (bind_Done _ _ _ _ _ (logIf_run _ _ _)).
  destruct (resolveEntity_lookup name "pgbouncer" [("host", host); ("port", port)]
              (st_entities s)) as (e & Hl & _).
  erewrite attach_sample_k by exact Hl.
  rewrite (bind_Done _ _ _ _ _ (logIf_run _ _ _)).
  unfold ret, attachRow. norm_state. reflexivity.
Qed.

End Rows.

Lemma attachRow_carries name ns ids eventType attrs row entities :
  carriesSample name ns ids (sampleOf eventType attrs row)
    (attachRow name ns ids eventType attrs row entities).
Proof.
  destruct (resolveEntity_lookup name ns ids entities) as (e & Hl & Hn & Hns & Hids).
  exists (fst (resolveEntity name ns ids entities)),
         (addMetricSet (sampleOf eventType attrs row) e).
  unfold attachRow. rewrite list_lookup_alter_eq, Hl. cbn.
  repeat split; try assumption. apply last_snoc.
Qed.

Lemma identity_getField what f : fst (getField what f) = identity f.
Proof. now destruct f. Qed.

Ltac find_in :=
  cbn [getField snd errLog];
  repeat first
    [ left; reflexivity
    | apply in_or_app; first [ left; solve [find_in] | right ]
    | right ].

(** ** Loops over rows and definitions *)

Lemma isLog_errLog prefix err : Forall isLog (errLog prefix err).
Proof. destruct err; cbn; repeat constructor. Qed.

Lemma queriesOf_logs evs : Forall isLog evs -> queriesOf evs = [].
Proof.
  induction 1 as [|e evs He _ IH]; [reflexivity|].
  destruct e; cbn in He; try contradiction. exact IH.
Qed.

Lemma opensOf_logs evs : Forall isLog evs -> opensOf evs = [].
Proof.
  induction 1 as [|e evs He _ IH]; [reflexivity|].
  destruct e; cbn in He; try contradiction. exact IH.
Qed.

Lemma closesOf_logs evs : Forall isLog evs -> closesOf evs = [].
Proof.
  induction 1 as [|e evs He _ IH]; [reflexivity|].
  destruct e; cbn in He; try contradiction. exact IH.
Qed.

Lemma forRange_quiet {A} (body : A -> Go Flow) (l : list A) s :
  quietBody body ->
  exists evs ents,
    forRange body l s = (Done tt, withEntities evs ents s) /\ Forall isLog evs.
Proof.
  intros Hb. revert s. induction l as [|x xs IH]; intros s.
  - exists [], (st_entities s). split; [|constructor].
    unfold withEntities. rewrite app_nil_r. now destruct s.
  - destruct (Hb x s) as (evs1 & ents1 & Hx & Hl1).
    destruct (IH (withEntities evs1 ents1 s)) as (evs2 & ents2 & Hxs & Hl2).
    exists (evs1 ++ evs2), ents2. split.
    + rewrite forRange_cons, Hx, Hxs. now rewrite withEntities_withEntities.
    + now apply Forall_app.
Qed.

Section QuietRows.

Variable w : World.
Hypothesis sdk_accepts : forall name ns, w_entityErr w name ns = None.

Lemma databaseRow_quiet : quietBody (databaseRow w).
Proof.
  intros row s. eexists _, _. split; [apply databaseRow_run, sdk_accepts|].
  repeat (apply Forall_app; split); apply isLog_errLog.
Qed.

Lemma tableRow_quiet : quietBody (tableRow w).
Proof.
  intros row s. eexists _, _. split; [apply tableRow_run, sdk_accepts|].
  repeat (apply Forall_app; split); apply isLog_errLog.
Qed.

Lemma indexRow_quiet : quietBody (indexRow w).
Proof.
  intros row s. eexists _, _. split; [apply indexRow_run, sdk_accepts|].
  repeat (apply Forall_app; split); apply isLog_errLog.
Qed.

Lemma pgBouncerRow_quiet : quietBody (pgBouncerRow w).
Proof.
  intros row s. destruct (row_database row) as [name|] eqn:Hdb.
  - eexists _, _. split; [apply (pgBouncerRow_run w row name); auto|].
    apply isLog_errLog.
  - exists [ELog LError "Unable to get database name: did not find database name"],
           (st_entities s).
    split; [now apply pgBouncerRow_missing | repeat constructor].
Qed.

End QuietRows.

Section DefinitionLoops.

Variable w : World.

Lemma databaseDefinition_shape con :
  databaseDefinition w con =
  definitionBody w "Could not execute database query: " Next (databaseRow w) con.
Proof. reflexivity. Qed.

Lemma tableDefinition_shape con :
  tableDefinition w con =
  definitionBody w "Could not execute table query: " Return (tableRow w) con.
Proof. reflexivity. Qed.

Lemma indexDefinition_shape con :
  indexDefinition w con =
  definitionBody w "Could not execute index query: " Return (indexRow w) con.
Proof. reflexivity. Qed.

Lemma pgBouncerDefinition_shape con :
  pgBouncerDefinition w con =
  definitionBody w "Could not execute index query: " Return (pgBouncerRow w) con.
Proof. reflexivity. Qed.

Variables (prefix : string) (onErr : Flow) (rowBody : Row -> Go Flow).

Lemma definitionBody_error c d s err :
  w_rows w (st_trace s) c (GetQuery d) = inl err ->
  definitionBody w prefix onErr rowBody (Some c) d s =
  (Done onErr,
   withEvents [EQuery c (GetQuery d); ELog LError (prefix +:+ err)] s).
Proof.
  intros H. unfold definitionBody, bind, Query. cbn. rewrite H. cbn.
  unfold withEvents. now rewrite <- app_assoc.
Qed.

Lemma definitionBody_rows c d s rows :
  quietBody rowBody ->
  w_rows w (st_trace s) c (GetQuery d) = inr rows ->
  exists evs ents,
    definitionBody w prefix onErr rowBody (Some c) d s =
    (Done Next, withEntities (EQuery c (GetQuery d) :: evs) ents s)
    /\ Forall isLog evs.
Proof.
  intros Hq H. unfold definitionBody, bind, Query. cbn. rewrite H.
  destruct (forRange_quiet rowBody rows
              (mkState (st_trace s ++ [EQuery c (GetQuery d)])
                 (st_instance s) (st_entities s) (st_defers s)) Hq)
    as (evs & ents & Hrun & Hlogs).
  exists evs, ents. rewrite Hrun. split; [|assumption].
  unfold ret, withEntities. cbn. now rewrite <- app_assoc.
Qed.

(** When no query fails and no row panics, the loop runs the query of
    every definition, in order, and nothing else. *)
Lemma definitions_all_run c defs s :
  quietBody rowBody ->
  queriesSucceed w c ->
  exists evs ents,
    forRange (definitionBody w prefix onErr rowBody (Some c)) defs s =
    (Done tt, withEntities evs ents s)
    /\ queriesOf evs = map GetQuery defs
    /\ opensOf evs = [] /\ closesOf evs = [].
Proof.
  intros Hq Hs. revert s. induction defs as [|d defs IH]; intros s.
  - exists [], (st_entities s). split; [|auto].
    unfold withEntities. rewrite app_nil_r. now destruct s.
  - destruct (Hs (st_trace s) (GetQuery d)) as [rows Hrows].
    destruct (definitionBody_rows c d s rows Hq Hrows) as (evs1 & ents1 & Hd & Hl1).
    destruct (IH (withEntities (EQuery c (GetQuery d) :: evs1) ents1 s))
      as (evs2 & ents2 & Hrest & Hq2 & Ho2 & Hc2).
    exists ((EQuery c (GetQuery d) :: evs1) ++ evs2), ents2.
    rewrite forRange_cons, Hd, Hrest, withEntities_withEntities.
    split; [reflexivity|].
    rewrite queriesOf_app, opensOf_app, closesOf_app, Hq2, Ho2, Hc2.
    change (queriesOf (EQuery c (GetQuery d) :: evs1))
      with (GetQuery d :: queriesOf evs1).
    change (opensOf (EQuery c (GetQuery d) :: evs1)) with (opensOf evs1).
    change (closesOf (EQuery c (GetQuery d) :: evs1)) with (closesOf evs1).
    rewrite (queriesOf_logs _ Hl1), (opensOf_logs _ Hl1), (closesOf_logs _ Hl1).
    auto.
Qed.

End DefinitionLoops.

(** ** A failed query *)

(** C4: in the table, index and pooling-proxy domains a query execution
    error on one definition returns from the function: the definitions after
    it are not run. *)
Theorem query_error_abandons_remaining_definitions
    (generateTableDefinitions generateIndexDefinitions : SchemaList -> list QueryDefinition)
    (generatePgBouncerDefinitions : list QueryDefinition)
    (w : World) (schemaList : SchemaList) (c : Conn) (s : State)
    (d : QueryDefinition) (rest : list QueryDefinition) (err : Err) :
  w_rows w (st_trace s) c (GetQuery d) = inl err ->
  (generateTableDefinitions schemaList = d :: rest ->
   populateTableMetricsForDatabase generateTableDefinitions w schemaList (Some c) s =
   (Done tt,
    withEvents [EQuery c (GetQuery d);
                ELog LError ("Could not execute table query: " +:+ err)] s))
  /\ (generateIndexDefinitions schemaList = d :: rest ->
      populateIndexMetricsForDatabase generateIndexDefinitions w schemaList (Some c) s =
      (Done tt,
       withEvents [EQuery c (GetQuery d);
                   ELog LError ("Could not execute index query: " +:+ err)] s))
  /\ (generatePgBouncerDefinitions = d :: rest ->
      PopulatePgBouncerMetrics generatePgBouncerDefinitions w (Some c) s =
      (Done tt,
       withEvents [EQuery c (GetQuery d);
                   ELog LError ("Could not execute index query: " +:+ err)] s)).
Proof.
  intros Herr. repeat split; intros Hgen.
  - unfold populateTableMetricsForDatabase.
    now rewrite Hgen, forRange_cons, tableDefinition_shape, (definitionBody_error _ _ _ _ _ _ _ err).
  - unfold populateIndexMetricsForDatabase.
    now rewrite Hgen, forRange_cons, indexDefinition_shape, (definitionBody_error _ _ _ _ _ _ _ err).
  - unfold PopulatePgBouncerMetrics.
    now rewrite Hgen, forRange_cons, pgBouncerDefinition_shape,
      (definitionBody_error _ _ _ _ _ _ _ err).
Qed.

Lemma query_error_abandons_remaining_definitions_witness :
  queriesOf (st_trace (snd (populateTableMetricsForDatabase
                              (fun _ => [qTablePre10; qTableBloat])
                              (exWorld [] (inr ["9.6.1"]) (exRowsFailing "SELECT tables"))
                              ["public"] (Some (mkConn "app" 0)) s0)))
  = ["SELECT tables"].
Proof.
  rewrite (proj1 (query_error_abandons_remaining_definitions
                    (fun _ => [qTablePre10; qTableBloat]) (fun _ => []) []
                    (exWorld [] (inr ["9.6.1"]) (exRowsFailing "SELECT tables"))
                    ["public"] (mkConn "app" 0) s0 qTablePre10 [qTableBloat]
                    "canceling statement due to statement timeout" eq_refl) eq_refl).
  reflexivity.
Defined.

(** In the database and lock domains the loop goes on with the next
    definition. *)
Lemma database_query_error_continues w c s d rest err :
  w_rows w (st_trace s) c (GetQuery d) = inl err ->
  processDatabaseDefinitions w (d :: rest) (Some c) s =
  processDatabaseDefinitions w rest (Some c)
    (withEvents [EQuery c (GetQuery d);
                 ELog LError ("Could not execute database query: " +:+ err)] s).
Proof.
  intros Herr. unfold processDatabaseDefinitions.
  now rewrite forRange_cons, databaseDefinition_shape, (definitionBody_error _ _ _ _ _ _ _ err).
Qed.

(** ** Deferred calls *)

Lemma runDeferred_state {A} ds (r : Outcome A) s :
  snd (runDeferred ds r s) = withEvents (closeEvents ds) s.
Proof.
  revert r s. induction ds as [|[c|] ds IH]; intros r s; cbn [runDeferred].
  - unfold withEvents. cbn. rewrite app_nil_r. now destruct s.
  - rewrite IH. unfold withEvents. cbn. now rewrite <- app_assoc.
  - apply IH.
Qed.

Lemma runDeferred_all_valid {A} ds (r : Outcome A) s :
  Forall (fun d => d <> None) ds -> fst (runDeferred ds r s) = r.
Proof.
  intros H. revert r s. induction H as [|[c|] ds Hd _ IH]; intros r s; cbn [runDeferred].
  - reflexivity.
  - apply IH.
  - congruence.
Qed.

Lemma runDeferred_Panic {A} ds s :
  fst (runDeferred ds (@Panic A nilDeref) s) = Panic nilDeref.
Proof.
  revert s. induction ds as [|[c|] ds IH]; intros s; cbn [runDeferred]; auto.
Qed.

(** A nil receiver among the deferred calls makes the function panic,
    whatever its body did. *)
Lemma runDeferred_nil {A} ds (r : Outcome A) s :
  In None ds -> fst (runDeferred ds r s) = Panic nilDeref.
Proof.
  revert r s. induction ds as [|[c|] ds IH]; intros r s Hin; cbn [runDeferred].
  - destruct Hin.
  - destruct Hin as [Hin|Hin]; [discriminate|]. now apply IH.
  - apply runDeferred_Panic.
Qed.

Lemma withDefers_run {A} (body : Go A) s :
  withDefers body s =
  (fst (runDeferred (st_defers (snd (body (set_defers [] s)))) (fst (body (set_defers [] s)))
          (set_defers [] (snd (body (set_defers [] s))))),
   set_defers (st_defers s)
     (withEvents (closeEvents (st_defers (snd (body (set_defers [] s)))))
        (set_defers [] (snd (body (set_defers [] s)))))).
Proof.
  unfold withDefers. destruct (body (set_defers [] s)) as [r s1]. cbn [fst snd].
  rewrite <- (runDeferred_state (st_defers s1) r).
  now destruct (runDeferred (st_defers s1) r (set_defers [] s1)).
Qed.

Lemma st_trace_frame ds1 ds2 evs s :
  st_trace (set_defers ds1 (withEvents evs (set_defers ds2 s))) = st_trace s ++ evs.
Proof. reflexivity. Qed.

(** ** Stability of the primitives *)

Create HintDb stable.

Section EventStable.

Context (R : relation State) `{!PreOrder R}.
Hypothesis R_data : forall s inst ents,
  R s (mkState (st_trace s) inst ents (st_defers s)).
Hypothesis R_event : forall s e,
  R s (mkState (st_trace s ++ [e]) (st_instance s) (st_entities s) (st_defers s)).

Variable w : World.

Lemma emit_stable e : stable R (emit e).
Proof. intros s. apply R_event. Qed.

Lemma logIf_stable prefix err : stable R (logIf prefix err).
Proof. destruct err; [apply emit_stable | apply stable_ret; assumption]. Qed.

Lemma NewConnection_stable database : stable R (NewConnection w database).
Proof.
  intros s. unfold NewConnection.
  destruct (w_connect w (st_trace s) database); apply R_event.
Qed.

Lemma Query_stable con sql : stable R (Query w con sql).
Proof. intros s. destruct con as [c|]; cbn; [apply R_event | reflexivity]. Qed.

Lemma Query_version_stable con sql : stable R (Query_version w con sql).
Proof. intros s. destruct con as [c|]; cbn; [apply R_event | reflexivity]. Qed.

Lemma HaveExtensionInSchema_stable con ext schema :
  stable R (HaveExtensionInSchema w con ext schema).
Proof. intros s. destruct con as [c|]; cbn; [apply R_event | reflexivity]. Qed.

Lemma Integration_Entity_stable name ns ids : stable R (Integration_Entity w name ns ids).
Proof.
  intros s. unfold Integration_Entity.
  destruct (w_entityErr w name ns); [reflexivity|].
  destruct (resolveEntity name ns ids (st_entities s)). apply R_data.
Qed.

Lemma entity_Name_stable e : stable R (entity_Name e).
Proof.
  intros s. unfold entity_Name. destruct e as [r|]; [|reflexivity].
  destruct (entityAt r s); reflexivity.
Qed.

Lemma entity_Namespace_stable e : stable R (entity_Namespace e).
Proof.
  intros s. unfold entity_Namespace. destruct e as [r|]; [|reflexivity].
  destruct (entityAt r s); reflexivity.
Qed.

Lemma updEntity_R r f s : R s (updEntity r f s).
Proof. destruct r; apply R_data. Qed.

Lemma NewMetricSet_stable e eventType attrs : stable R (NewMetricSet e eventType attrs).
Proof.
  intros s. unfold NewMetricSet. destruct e as [r|]; [|reflexivity].
  destruct (entityAt r s); [apply updEntity_R | reflexivity].
Qed.

Lemma MarshalMetrics_stable ms row : stable R (MarshalMetrics ms row).
Proof. intros s. apply updEntity_R. Qed.

Hint Resolve emit_stable logIf_stable NewConnection_stable Query_stable
  Query_version_stable HaveExtensionInSchema_stable Integration_Entity_stable
  entity_Name_stable entity_Namespace_stable NewMetricSet_stable
  MarshalMetrics_stable : stable.

Ltac stable_auto :=
  repeat first
    [ apply stable_ret; assumption
    | apply stable_panic; assumption
    | apply stable_forRange; [assumption | intro]
    | apply stable_bind; [assumption | | intro]
    | match goal with
      | |- stable _ (match ?x with _ => _ end) => destruct x
      end
    | solve [auto with stable]
    | solve [unfold log_Error, log_Warn, log_Debug; auto with stable] ].

Lemma databaseRow_stable row : stable R (databaseRow w row).
Proof. unfold databaseRow. stable_auto. Qed.

Lemma tableRow_stable row : stable R (tableRow w row).
Proof. unfold tableRow. stable_auto. Qed.

Lemma indexRow_stable row : stable R (indexRow w row).
Proof. unfold indexRow. stable_auto. Qed.

Lemma pgBouncerRow_stable row : stable R (pgBouncerRow w row).
Proof. unfold pgBouncerRow. stable_auto. Qed.

Hint Resolve databaseRow_stable tableRow_stable indexRow_stable pgBouncerRow_stable : stable.

Lemma processDatabaseDefinitions_stable defs con :
  stable R (processDatabaseDefinitions w defs con).
Proof. unfold processDatabaseDefinitions, databaseDefinition. stable_auto. Qed.

Lemma populateTableMetricsForDatabase_stable gen schemaList con :
  stable R (populateTableMetricsForDatabase gen w schemaList con).
Proof. unfold populateTableMetricsForDatabase, tableDefinition. stable_auto. Qed.

Lemma populateIndexMetricsForDatabase_stable gen schemaList con :
  stable R (populateIndexMetricsForDatabase gen w schemaList con).
Proof. unfold populateIndexMetricsForDatabase, indexDefinition. stable_auto. Qed.

Lemma PopulatePgBouncerMetrics_stable defs con :
  stable R (PopulatePgBouncerMetrics defs w con).
Proof. unfold PopulatePgBouncerMetrics, pgBouncerDefinition. stable_auto. Qed.

Lemma PopulateInstanceMetrics_stable gen instance version con :
  stable R (PopulateInstanceMetrics gen w instance version con).
Proof. unfold PopulateInstanceMetrics, instanceDefinition. stable_auto. Qed.

End EventStable.

Lemma bind_assoc {A B C} (m : Go A) (k : A -> Go B) (h : B -> Go C) s :
  bind (bind m k) h s = bind m (fun a => bind (k a) h) s.
Proof. unfold bind. destruct (m s) as [[a|msg] s1]; reflexivity. Qed.

Lemma bind_snd_stable (R : relation State) `{!PreOrder R} {A B}
    (m : Go A) (k : A -> Go B) s r s1 :
  m s = (r, s1) -> (forall a, stable R (k a)) -> R s1 (snd (bind m k s)).
Proof.
  intros Hm Hk. unfold bind. rewrite Hm.
  destruct r as [a|msg]; [apply Hk | reflexivity].
Qed.

(** ** The per-database loops of the table and index domains *)

Section DatabaseLoops.

Context (R : relation State) `{!PreOrder R}.
Hypothesis R_data : forall s inst ents,
  R s (mkState (st_trace s) inst ents (st_defers s)).
Hypothesis R_event : forall s e,
  R s (mkState (st_trace s ++ [e]) (st_instance s) (st_entities s) (st_defers s)).
Hypothesis R_defer : forall s d, R s (set_defers (d :: st_defers s) s).

Variables generateTableDefinitions generateIndexDefinitions : SchemaList -> list QueryDefinition.
Variable closeByValue : bool.
Variable w : World.

Lemma deferClose_stable con : stable R (deferClose closeByValue con).
Proof.
  intros s. unfold deferClose. destruct con as [c|]; [apply R_defer|].
  destruct closeByValue; [reflexivity | apply R_defer].
Qed.

Lemma tableDatabase_rest database schemaList ab :
  stable R
    (let (con, err) := ab : option Conn * option Err in
     deferClose closeByValue con ;;;
     match err with
     | Some e =>
         log_Error ("Failed to connect to database " +:+ database +:+ ": " +:+ e) ;;;
         ret Next
     | None =>
         populateTableMetricsForDatabase generateTableDefinitions w schemaList con ;;;
         ret Next
     end).
Proof.
  destruct ab as [con err].
  apply stable_bind; [assumption | apply deferClose_stable | intros _].
  destruct err.
  - apply stable_bind; [assumption | now apply emit_stable | intros _].
    now apply stable_ret.
  - apply stable_bind; [assumption | | intros _; now apply stable_ret].
    now apply populateTableMetricsForDatabase_stable.
Qed.

Lemma tableDatabase_stable entry :
  stable R (tableDatabase generateTableDefinitions closeByValue w entry).
Proof.
  destruct entry as [database schemaList]. unfold tableDatabase.
  destruct (length schemaList =? 0)%nat; [now apply stable_ret|].
  apply stable_bind; [assumption | now apply NewConnection_stable | intros ab].
  apply tableDatabase_rest.
Qed.

Lemma indexDatabase_rest database schemaList ab :
  stable R
    (let (con, err) := ab : option Conn * option Err in
     match err with
     | Some e =>
         log_Error ("Failed to create new connection to database "
                    +:+ database +:+ ": " +:+ e) ;;;
         ret Next
     | None =>
         deferClose closeByValue con ;;;
         populateIndexMetricsForDatabase generateIndexDefinitions w schemaList con ;;;
         ret Next
     end).
Proof.
  destruct ab as [con err]. destruct err.
  - apply stable_bind; [assumption | now apply emit_stable | intros _].
    now apply stable_ret.
  - apply stable_bind; [assumption | apply deferClose_stable | intros _].
    apply stable_bind; [assumption | | intros _; now apply stable_ret].
    now apply populateIndexMetricsForDatabase_stable.
Qed.

Lemma indexDatabase_stable entry :
  stable R (indexDatabase generateIndexDefinitions closeByValue w entry).
Proof.
  destruct entry as [database schemaList]. unfold indexDatabase.
  apply stable_bind; [assumption | now apply NewConnection_stable | intros ab].
  apply indexDatabase_rest.
Qed.

End DatabaseLoops.

Lemma defersGrow_data s inst ents :
  defersGrow s (mkState (st_trace s) inst ents (st_defers s)).
Proof. now exists []. Qed.

Lemma defersGrow_event s e :
  defersGrow s (mkState (st_trace s ++ [e]) (st_instance s) (st_entities s) (st_defers s)).
Proof. now exists []. Qed.

Lemma defersGrow_defer s d : defersGrow s (set_defers (d :: st_defers s) s).
Proof. now exists [d]. Qed.

Lemma traceGrows_data s inst ents :
  traceGrows s (mkState (st_trace s) inst ents (st_defers s)).
Proof. exists []. cbn. now rewrite app_nil_r. Qed.

Lemma traceGrows_event s e :
  traceGrows s (mkState (st_trace s ++ [e]) (st_instance s) (st_entities s) (st_defers s)).
Proof. now exists [e]. Qed.

Lemma traceGrows_defer s d : traceGrows s (set_defers (d :: st_defers s) s).
Proof. exists []. cbn. now rewrite app_nil_r. Qed.

(** ** A per-database connection that cannot be opened *)

Lemma tableDatabase_connect_fails
    (generateTableDefinitions : SchemaList -> list QueryDefinition) (closeByValue : bool)
    (w : World) database schemaList s err :
  schemaList <> [] ->
  w_connect w (st_trace s) database = Some err ->
  tableDatabase generateTableDefinitions closeByValue w (database, schemaList) s =
  if closeByValue then (Panic nilDeref, withEvents [EOpen database false] s)
  else (Done Next,
        set_defers (None :: st_defers s)
          (withEvents [EOpen database false;
                       ELog LError ("Failed to connect to database "
                                    +:+ database +:+ ": " +:+ err)] s)).
Proof.
  intros Hne Hconn. unfold tableDatabase.
  destruct schemaList as [|sch sl]; [congruence|]. cbn [length Nat.eqb].
  unfold bind, NewConnection, deferClose. rewrite Hconn.
  destruct closeByValue; cbn; unfold withEvents, set_defers; cbn;
    rewrite <- ?app_assoc; reflexivity.
Qed.

(** The index domain checks the error first: nothing is deferred for the
    failed connection and the loop goes on with the next database. *)
Lemma indexDatabase_connect_fails
    (generateIndexDefinitions : SchemaList -> list QueryDefinition) (closeByValue : bool)
    (w : World) database schemaList s err :
  w_connect w (st_trace s) database = Some err ->
  indexDatabase generateIndexDefinitions closeByValue w (database, schemaList) s =
  (Done Next,
   withEvents [EOpen database false;
               ELog LError ("Failed to create new connection to database "
                            +:+ database +:+ ": " +:+ err)] s).
Proof.
  intros Hconn. unfold indexDatabase, bind, NewConnection. rewrite Hconn. cbn.
  unfold withEvents. now rewrite <- app_assoc.
Qed.

(** C9: in the table domain [defer con.Close()] comes before the error
    check.  When the connection to a database that has schemas cannot be
    opened, [con] is nil and the function panics, with a value receiver as
    soon as the [defer] statement executes, with a pointer receiver when the
    deferred call runs: the release path of the failed connection is not
    safe, and the run does not complete. *)
Theorem table_connection_failure_panics
    (generateTableDefinitions : SchemaList -> list QueryDefinition) (closeByValue : bool)
    (w : World) (database : string) (schemaList : SchemaList) (rest : DatabaseList)
    (s : State) (err : Err) :
  schemaList <> [] ->
  w_connect w (st_trace s) database = Some err ->
  fst (PopulateTableMetrics generateTableDefinitions closeByValue w
         ((database, schemaList) :: rest) s) = Panic nilDeref.
Proof.
  intros Hne Hconn. unfold PopulateTableMetrics. rewrite withDefers_run. cbn [fst].
  rewrite forRange_cons.
  rewrite (tableDatabase_connect_fails _ _ _ _ _ (set_defers [] s) err Hne Hconn).
  destruct closeByValue.
  - cbn [fst snd]. apply runDeferred_Panic.
  - apply runDeferred_nil.
    match goal with
    | |- In None (st_defers (snd (forRange ?b rest ?s1))) =>
        destruct (stable_forRange defersGrow b rest
                    (tableDatabase_stable defersGrow defersGrow_data defersGrow_event
                       defersGrow_defer generateTableDefinitions false w) s1) as [ds Hds]
    end.
    rewrite Hds. apply in_or_app. right. now left.
Qed.

Lemma table_connection_failure_panics_witness :
  fst (PopulateTableMetrics (fun _ => [qTablePre10]) true
         (exWorld ["app"] (inr ["9.6.1"]) exRows) [("app", ["public"])] s0)
  = Panic nilDeref.
Proof.
  apply (table_connection_failure_panics (fun _ => [qTablePre10]) true
           (exWorld ["app"] (inr ["9.6.1"]) exRows) "app" ["public"] [] s0
           "connection refused").
  - discriminate.
  - reflexivity.
Defined.

(** ** Databases without schemas *)

(** C2: in the table domain a database with an empty schema list makes
    [PopulateTableMetrics] return: the databases that [range] visits after
    it get no connection and no queries, although they have schemas. *)
Theorem empty_schema_list_abandons_remaining_databases
    (generateTableDefinitions : SchemaList -> list QueryDefinition) (closeByValue : bool)
    (w : World) (database : string) (rest : DatabaseList) (s : State) :
  PopulateTableMetrics generateTableDefinitions closeByValue w ((database, []) :: rest) s
  = (Done tt, s).
Proof.
  unfold PopulateTableMetrics, withDefers. cbn. now destruct s.
Qed.

(** The same topology, visited in two orders. *)
Lemma table_collection_depends_on_visit_order :
  opensOf (st_trace (snd (PopulateTableMetrics (fun _ => [qTableBloat]) true
                            (exWorld [] (inr ["9.6.1"]) exRows)
                            [("empty", []); ("app", ["public"])] s0))) = []
  /\ opensOf (st_trace (snd (PopulateTableMetrics (fun _ => [qTableBloat]) true
                               (exWorld [] (inr ["9.6.1"]) exRows)
                               [("app", ["public"]); ("empty", [])] s0))) = ["app"].
Proof. split; reflexivity. Qed.

(** C3: the index domain has no check for an empty schema list: it
    attempts a connection to every database of the topology, also to one
    without schemas. *)
Theorem index_collection_connects_to_database_without_schemas
    (generateIndexDefinitions : SchemaList -> list QueryDefinition) (closeByValue : bool)
    (w : World) (database : string) (rest : DatabaseList) (s : State) :
  exists evs,
    st_trace (snd (PopulateIndexMetrics generateIndexDefinitions closeByValue w
                     ((database, []) :: rest) s))
    = st_trace s
      ++ EOpen database (match w_connect w (st_trace s) database with
                         | None => true
                         | Some _ => false
                         end) :: evs.
Proof.
  unfold PopulateIndexMetrics. rewrite withDefers_run. cbn [snd].
  set (body := forRange (indexDatabase generateIndexDefinitions closeByValue w)).
  set (ok := match w_connect w (st_trace s) database with None => true | Some _ => false end).
  assert (Hopen : exists r,
             NewConnection w database (set_defers [] s) =
             (r, mkState (st_trace s ++ [EOpen database ok]) (st_instance s)
                   (st_entities s) [])).
  { unfold NewConnection, ok. cbn.
    destruct (w_connect w (st_trace s) database); eexists; reflexivity. }
  destruct Hopen as [r Hopen].
  assert (Hgrow : traceGrows
            (mkState (st_trace s ++ [EOpen database ok]) (st_instance s) (st_entities s) [])
            (snd (body ((database, []) :: rest) (set_defers [] s)))).
  { subst body. cbn [forRange]. unfold indexDatabase at 1. rewrite bind_assoc.
    apply (bind_snd_stable traceGrows _ _ _ r); [exact Hopen|].
    intros ab. apply stable_bind; [typeclasses eauto | | ].
    - apply (indexDatabase_rest traceGrows traceGrows_data traceGrows_event
               traceGrows_defer generateIndexDefinitions closeByValue w database [] ab).
    - intros [|]; [|apply stable_ret; typeclasses eauto].
      apply stable_forRange; [typeclasses eauto|]. intros x.
      apply (indexDatabase_stable traceGrows traceGrows_data traceGrows_event
               traceGrows_defer). }
  destruct Hgrow as [evs Hevs]. cbn [st_trace] in Hevs.
  exists (evs ++ closeEvents (st_defers (snd (body ((database, []) :: rest) (set_defers [] s))))).
  rewrite st_trace_frame, Hevs, <- !app_assoc. reflexivity.
Qed.

(** With the example catalog: one database, no schemas, and the index
    domain still opens (and later closes) a connection to it. *)
Lemma index_collection_without_schemas_example :
  st_trace (snd (PopulateIndexMetrics (fun _ => []) true
                   (exWorld [] (inr ["9.6.1"]) exRows) [("empty", [])] s0))
  = [EOpen "empty" true; EClose (mkConn "empty" 0)]
  /\ st_trace (snd (PopulateTableMetrics (fun _ => []) true
                      (exWorld [] (inr ["9.6.1"]) exRows) [("empty", [])] s0))
     = [].
Proof. split; reflexivity. Qed.

(** ** Fatal errors *)

Section Fatal.

Variable generateInstanceDefinitions : Version -> list QueryDefinition.
Variable generateDatabaseDefinitions : DatabaseList -> Version -> list QueryDefinition.
Variable generateLockDefinitions : DatabaseList -> Version -> list QueryDefinition.
Variable generateTableDefinitions : SchemaList -> list QueryDefinition.
Variable generateIndexDefinitions : SchemaList -> list QueryDefinition.
Variable generatePgBouncerDefinitions : list QueryDefinition.
Variable ParseTolerant : string -> Err + Version.
Variable closeByValue : bool.
Variable w : World.

Lemma parseSpecialVersion_pure version specialIndex :
  exists r, forall s, parseSpecialVersion ParseTolerant version specialIndex s = (r, s).
Proof.
  unfold parseSpecialVersion. destruct (slice_to version specialIndex) as [p|msg].
  - destruct (ParseTolerant p); eexists; intros s; reflexivity.
  - eexists. intros s. reflexivity.
Qed.

(** Version resolution adds the version query to the trace and reads
    nothing but the trace. *)
Lemma collectVersion_frame c s :
  exists r, forall ds,
    collectVersion ParseTolerant w (Some c) (set_defers ds s) =
    (r, set_defers ds (withEvents [EQuery c versionQuery] s)).
Proof.
  destruct (w_versionRows w (st_trace s) c versionQuery) as [err|rows] eqn:Hrows.
  - exists (Done (inl err)). intros ds. rewrite collectVersion_query. cbn. now rewrite Hrows.
  - destruct (rows !! 0%nat) as [version|] eqn:Hv.
    + destruct (parseSpecialVersion_pure version (strings_Index version " (Ubuntu")) as [r1 H1].
      destruct (parseSpecialVersion_pure version (strings_Index version " (Debian")) as [r2 H2].
      exists (if strings_Contains version "Ubuntu" then r1
              else if strings_Contains version "Debian" then r2
              else match ParseTolerant version with
                   | inl err => Done (inl err)
                   | inr v => Done (inr v)
                   end).
      intros ds. rewrite collectVersion_query. cbn. rewrite Hrows, Hv.
      destruct (strings_Contains version "Ubuntu"); [apply H1|].
      destruct (strings_Contains version "Debian"); [apply H2|].
      destruct (ParseTolerant version); reflexivity.
    + exists (Panic indexRange). intros ds. rewrite collectVersion_query. cbn.
      now rewrite Hrows, Hv.
Qed.

(** C8: when the primary connection cannot be opened, or version
    resolution returns an error, the run logs the failure and returns: the
    only connection attempted is the primary one, the only query is the
    version query, the primary connection (if opened) is closed, and the
    instance and the entities of the integration are untouched. *)
Theorem fatal_errors_abort_before_any_domain
    (databaseList tableRange indexRange : DatabaseList) (instance : option EntityRef)
    (collectPgBouncer collectDbLocks : bool) (s : State) (err : Err) :
  let database := ci_DatabaseName w in
  let con := mkConn database (length (st_trace s)) in
  (w_connect w (st_trace s) database = Some err ->
   PopulateMetrics generateInstanceDefinitions generateDatabaseDefinitions
     generateLockDefinitions generateTableDefinitions generateIndexDefinitions
     generatePgBouncerDefinitions ParseTolerant closeByValue w
     databaseList tableRange indexRange instance collectPgBouncer collectDbLocks s =
   (Done tt,
    withEvents
      [EOpen database false;
       ELog LError ("Metrics collection failed: error creating connection to SQL Server: "
                    +:+ err)] s))
  /\ (w_connect w (st_trace s) database = None ->
      fst (collectVersion ParseTolerant w (Some con) (withEvents [EOpen database true] s))
      = Done (inl err) ->
      PopulateMetrics generateInstanceDefinitions generateDatabaseDefinitions
        generateLockDefinitions generateTableDefinitions generateIndexDefinitions
        generatePgBouncerDefinitions ParseTolerant closeByValue w
        databaseList tableRange indexRange instance collectPgBouncer collectDbLocks s =
      (Done tt,
       withEvents
         [EOpen database true;
          EQuery con versionQuery;
          ELog LError ("Metrics collection failed: error collecting version number: "
                       +:+ err);
          EClose con] s)).
Proof.
  intros database con. split.
  - intros Hconn. unfold PopulateMetrics, withDefers, bind, NewConnection.
    cbn [st_trace set_defers]. fold database. rewrite Hconn. cbn.
    unfold withEvents. rewrite <- app_assoc. now destruct s.
  - intros Hconn Hver.
    destruct (collectVersion_frame con (withEvents [EOpen database true] s)) as [r Hr].
    pose proof (Hr (st_defers s)) as H0.
    change (set_defers (st_defers s) (withEvents [EOpen database true] s))
      with (withEvents [EOpen database true] s) in H0 at 1.
    rewrite H0 in Hver. cbn in Hver. subst r.
    unfold PopulateMetrics, withDefers.
    unfold bind at 1. unfold NewConnection. cbn [st_trace set_defers].
    fold database. rewrite Hconn. fold con.
    unfold bind at 1. unfold deferClose. cbn [set_defers st_trace st_instance st_entities st_defers].
    unfold bind at 1.
    change (collectVersion ParseTolerant w (Some con) _)
      with (collectVersion ParseTolerant w (Some con)
              (set_defers [Some con] (withEvents [EOpen database true] s))).
    rewrite (Hr [Some con]). cbn.
    unfold withEvents. cbn. rewrite <- !app_assoc. reflexivity.
Qed.

End Fatal.

Lemma fatal_errors_abort_before_any_domain_witness :
  exPopulateMetrics [qTableBloat] true (exWorld ["postgres"] (inr ["12.3"]) exRows)
    [("app", ["public"])] true true s0 =
  (Done tt,
   mkState
     [EOpen "postgres" false;
      ELog LError
        "Metrics collection failed: error creating connection to SQL Server: connection refused"]
     exInstance [] [])
  /\ exPopulateMetrics [qTableBloat] true (exWorld [] (inr ["twelve"]) exRows)
       [("app", ["public"])] true true s0 =
     (Done tt,
      mkState
        [EOpen "postgres" true;
         EQuery (mkConn "postgres" 0) versionQuery;
         ELog LError
           "Metrics collection failed: error collecting version number: Invalid character(s) found in version twelve";
         EClose (mkConn "postgres" 0)]
        exInstance [] []).
Proof.
  split.
  - exact (proj1 (fatal_errors_abort_before_any_domain
                    (fun _ => [qInstance1; qInstance2]) (fun _ _ => [qDatabase])
                    (fun _ _ => [qLock]) (fun _ => [qTableBloat]) (fun _ => [qIndex])
                    [qPgBouncer] parseTolerantModel true
                    (exWorld ["postgres"] (inr ["12.3"]) exRows)
                    [("app", ["public"])] [("app", ["public"])] [("app", ["public"])]
                    (Some InstanceRef) true true s0
                    "connection refused") eq_refl).
  - exact (proj2 (fatal_errors_abort_before_any_domain
                    (fun _ => [qInstance1; qInstance2]) (fun _ _ => [qDatabase])
                    (fun _ _ => [qLock]) (fun _ => [qTableBloat]) (fun _ => [qIndex])
                    [qPgBouncer] parseTolerantModel true
                    (exWorld [] (inr ["twelve"]) exRows)
                    [("app", ["public"])] [("app", ["public"])] [("app", ["public"])]
                    (Some InstanceRef) true true s0
                    "Invalid character(s) found in version twelve") eq_refl eq_refl).
Defined.

(** ** The instance domain *)

Section Instance.

Variable generateInstanceDefinitions : Version -> list QueryDefinition.
Variable w : World.

(** One definition of the instance domain: only the first row of the
    result is marshalled, into the sample set handed in. *)
Lemma instanceDefinition_first_row metricSet c d s row others :
  w_rows w (st_trace s) c (GetQuery d) = inr (row :: others) ->
  instanceDefinition w metricSet (Some c) d s =
  (Done Next,
   withEvents
     (errLog "Could not parse metrics from instance query result: " (row_marshalErr row))
     (updEntity (fst metricSet) (marshalInto (snd metricSet) (row_fields row))
        (withEvents [EQuery c (GetQuery d)] s))).
Proof.
  intros H. unfold instanceDefinition, bind, Query. rewrite H. cbn.
  unfold MarshalMetrics. cbn.
  destruct (row_marshalErr row); cbn; unfold withEvents, ret; cbn.
  - reflexivity.
  - destruct metricSet as [[|i] k]; cbn; now rewrite app_nil_r.
Qed.

Lemma instanceDefinition_keeps_sample c M0 d s m :
  Metrics (st_instance s) = M0 ++ [m] ->
  exists m' s',
    instanceDefinition w (InstanceRef, length M0) (Some c) d s = (Done Next, s')
    /\ Metrics (st_instance s') = M0 ++ [m']
    /\ ms_eventType m' = ms_eventType m
    /\ st_entities s' = st_entities s.
Proof.
  intros HM.
  destruct (w_rows w (st_trace s) c (GetQuery d)) as [err|[|row others]] eqn:Hrows.
  - exists m. eexists. unfold instanceDefinition, bind, Query. rewrite Hrows. cbn.
    split; [reflexivity|]. cbn. auto.
  - exists m. eexists. unfold instanceDefinition, bind, Query. rewrite Hrows. cbn.
    split; [reflexivity|]. cbn. auto.
  - exists (addFields (row_fields row) m). eexists.
    rewrite (instanceDefinition_first_row _ c d s row others Hrows).
    split; [reflexivity|]. cbn. rewrite HM.
    replace (length M0) with (length M0 + 0) by lia. rewrite alter_app_r. cbn. auto.
Qed.

Lemma instanceDefinitions_keep_sample c M0 defs s m :
  Metrics (st_instance s) = M0 ++ [m] ->
  exists m' s',
    forRange (instanceDefinition w (InstanceRef, length M0) (Some c)) defs s = (Done tt, s')
    /\ Metrics (st_instance s') = M0 ++ [m']
    /\ ms_eventType m' = ms_eventType m
    /\ st_entities s' = st_entities s.
Proof.
  revert s m. induction defs as [|d defs IH]; intros s m HM.
  - exists m, s. cbn. auto.
  - destruct (instanceDefinition_keeps_sample c M0 d s m HM) as (m1 & s1 & H1 & HM1 & He1 & Hs1).
    destruct (IH s1 m1 HM1) as (m2 & s2 & H2 & HM2 & He2 & Hs2).
    exists m2, s2. rewrite forRange_cons, H1, H2.
    repeat split; [assumption | congruence | congruence].
Qed.

Lemma addFields_addFields f1 f2 m :
  addFields f2 (addFields f1 m) = addFields (f1 ++ f2) m.
Proof. unfold addFields. cbn. now rewrite app_assoc. Qed.

(** With definitions that all return rows, the loop leaves in the sample
    set the fields of the first row of every result, in order. *)
Lemma instanceDefinitions_accumulate c firstRow M0 defs : forall s m,
  Metrics (st_instance s) = M0 ++ [m] ->
  returnsFirst w c firstRow defs ->
  forRange (instanceDefinition w (InstanceRef, length M0) (Some c)) defs s =
  (Done tt,
   mkState (st_trace s ++ instanceEvents c firstRow defs)
     (mkEntity (Metadata_Name (st_instance s)) (Metadata_Namespace (st_instance s))
        (idAttributes (st_instance s))
        (M0 ++ [addFields (firstFields firstRow defs) m]))
     (st_entities s) (st_defers s)).
Proof.
  induction defs as [|d defs IH]; intros s m HM Hrows.
  - destruct s as [tr [name ns ids metrics] ents ds]. cbn in *. subst metrics.
    unfold ret, addFields. cbn. rewrite !app_nil_r. now destruct m.
  - destruct (Hrows (st_trace s) d (or_introl eq_refl)) as [others Hd].
    rewrite forRange_cons, (instanceDefinition_first_row _ c d s _ others Hd).
    assert (HM1 : alter (addFields (row_fields (firstRow (GetQuery d)))) (length M0)
                    (Metrics (st_instance s))
                  = M0 ++ [addFields (row_fields (firstRow (GetQuery d))) m]).
    { rewrite HM. replace (length M0) with (length M0 + 0) at 1 by lia.
      now rewrite alter_app_r. }
    rewrite (IH _ (addFields (row_fields (firstRow (GetQuery d))) m)).
    + cbn [fst snd withEvents updEntity st_trace st_instance st_entities st_defers
             marshalInto Metadata_Name Metadata_Namespace idAttributes Metrics].
      rewrite addFields_addFields. unfold instanceEvents, firstFields.
      cbn [flat_map]. rewrite <- !app_assoc. reflexivity.
    + cbn [fst snd withEvents updEntity st_trace st_instance st_entities st_defers
             marshalInto Metadata_Name Metadata_Namespace idAttributes Metrics].
      exact HM1.
    + intros tr d' Hin. apply Hrows. now right.
Qed.

(** C10 (amended): the instance domain creates one sample set,
    "PostgresqlInstanceSample", before it loops over the definitions, and
    every definition marshals the first row of its result, and only that
    row, into this one set.  Whatever the number of definitions that
    return rows, the instance entity gains exactly one sample and the
    function returns normally; when all the definitions return rows, that
    sample holds the fields of the first row of every result, in the order
    of the definitions, and nothing else. *)
Theorem instance_domain_fills_one_sample (version : Version) (c : Conn) (s : State)
    (firstRow : string -> Row) :
  (exists m,
     fst (PopulateInstanceMetrics generateInstanceDefinitions w
            (Some InstanceRef) version (Some c) s) = Done tt
     /\ Metrics (st_instance (snd (PopulateInstanceMetrics generateInstanceDefinitions w
                                     (Some InstanceRef) version (Some c) s)))
        = Metrics (st_instance s) ++ [m]
     /\ ms_eventType m = "PostgresqlInstanceSample")
  /\ (forall metricSet d s1 row others,
        w_rows w (st_trace s1) c (GetQuery d) = inr (row :: others) ->
        instanceDefinition w metricSet (Some c) d s1 =
        (Done Next,
         withEvents
           (errLog "Could not parse metrics from instance query result: "
              (row_marshalErr row))
           (updEntity (fst metricSet) (marshalInto (snd metricSet) (row_fields row))
              (withEvents [EQuery c (GetQuery d)] s1))))
  /\ (returnsFirst w c firstRow (generateInstanceDefinitions version) ->
      PopulateInstanceMetrics generateInstanceDefinitions w
        (Some InstanceRef) version (Some c) s =
      (Done tt,
       mkState
         (st_trace s ++ instanceEvents c firstRow (generateInstanceDefinitions version))
         (addMetricSet
            (mkMetricSet "PostgresqlInstanceSample"
               [("displayName", Metadata_Name (st_instance s));
                ("entityName",
                 Metadata_Namespace (st_instance s) +:+ ":"
                 +:+ Metadata_Name (st_instance s))]
               (firstFields firstRow (generateInstanceDefinitions version)))
            (st_instance s))
         (st_entities s) (st_defers s))).
Proof.
  split; [|split].
  - unfold PopulateInstanceMetrics, bind. cbn.
    match goal with
    | |- context [forRange ?b ?l ?s1] =>
        destruct (instanceDefinitions_keep_sample c (Metrics (st_instance s))
                    (generateInstanceDefinitions version) s1
                    (mkMetricSet "PostgresqlInstanceSample"
                       [("displayName", Metadata_Name (st_instance s));
                        ("entityName",
                         Metadata_Namespace (st_instance s) +:+ ":"
                         +:+ Metadata_Name (st_instance s))] [])
                    eq_refl)
          as (m' & s' & Hrun & HM & Hev & _)
    end.
    exists m'. rewrite Hrun. cbn. auto.
  - intros ms d s1 row others H.
    now apply (instanceDefinition_first_row ms c d s1 row others).
  - intros Hrows. unfold PopulateInstanceMetrics, bind. cbn.
    match goal with
    | |- context [forRange ?b ?l ?s1] =>
        rewrite (instanceDefinitions_accumulate c firstRow (Metrics (st_instance s))
                   (generateInstanceDefinitions version) s1
                   (mkMetricSet "PostgresqlInstanceSample"
                      [("displayName", Metadata_Name (st_instance s));
                       ("entityName",
                        Metadata_Namespace (st_instance s) +:+ ":"
                        +:+ Metadata_Name (st_instance s))] [])
                   eq_refl Hrows)
    end.
    reflexivity.
Qed.

End Instance.

(** C10, as stated, fails: two instance definitions both return rows and
    the instance entity carries one sample, not two; the first rows of both
    results are in it. *)
Lemma instance_two_definitions_one_sample :
  Metrics (st_instance
             (snd (PopulateInstanceMetrics (fun _ => [qInstance1; qInstance2])
                     (exWorld [] (inr ["12.3"]) exRows) (Some InstanceRef) v12_3
                     (Some (mkConn "postgres" 0)) s0)))
  = [mkMetricSet "PostgresqlInstanceSample"
       [("displayName", "localhost:5432"); ("entityName", "pg-instance:localhost:5432")]
       [("value", "1"); ("value", "1")]]
  /\ length (Metrics (st_instance
                        (snd (PopulateInstanceMetrics (fun _ => [qInstance1; qInstance2])
                                (exWorld [] (inr ["12.3"]) exRows) (Some InstanceRef) v12_3
                                (Some (mkConn "postgres" 0)) s0)))) <> 2.
Proof. split; [reflexivity | cbn; lia]. Qed.

Lemma instance_domain_fills_one_sample_witness :
  PopulateInstanceMetrics (fun _ => [qInstance1; qInstance2])
    (exWorld [] (inr ["12.3"]) exInstanceRows) (Some InstanceRef) v12_3
    (Some (mkConn "postgres" 0)) s0
  = (Done tt,
     mkState
       [EQuery (mkConn "postgres" 0) "SELECT bgwriter";
        EQuery (mkConn "postgres" 0) "SELECT archiver"]
       (mkEntity "localhost:5432" "pg-instance" []
          [mkMetricSet "PostgresqlInstanceSample"
             [("displayName", "localhost:5432");
              ("entityName", "pg-instance:localhost:5432")]
             [("buffers_clean", "7"); ("archived_count", "3")]])
       [] []).
Proof.
  refine (proj2 (proj2 (instance_domain_fills_one_sample
                          (fun _ => [qInstance1; qInstance2])
                          (exWorld [] (inr ["12.3"]) exInstanceRows) v12_3
                          (mkConn "postgres" 0) s0 exInstanceFirst)) _).
  intros tr d [<-|[<-|[]]]; eexists; reflexivity.
Defined.

(** ** Version strings with a vendor parenthetical *)

Lemma index_le_length s1 s2 :
  forall n m, String.index n s1 s2 = Some m -> m <= String.length s2.
Proof.
  induction s2 as [|b s2 IH]; intros n m H.
  - destruct n, s1; simpl in H; try discriminate.
    injection H as <-. simpl. lia.
  - destruct n.
    + change (String.index 0 s1 (String b s2))
        with (if String.prefix s1 (String b s2) then Some 0
              else match String.index 0 s1 s2 with
                   | Some n => Some (S n)
                   | None => None
                   end) in H.
      destruct (String.prefix s1 (String b s2)).
      * injection H as <-. simpl. lia.
      * destruct (String.index 0 s1 s2) as [k|] eqn:E; [|discriminate].
        injection H as <-. apply IH in E. simpl. lia.
    + simpl in H. destruct (String.index n s1 s2) as [k|] eqn:E; [|discriminate].
      injection H as <-. apply IH in E. simpl. lia.
Qed.

(** When the parenthetical of the marker is present, version resolution
    parses the version string truncated where the parenthetical starts. *)
Lemma collectVersion_truncates_at_parenthetical
    (ParseTolerant : string -> Err + Version) (w : World) c s version rest i :
  w_versionRows w (st_trace s) c versionQuery = inr (version :: rest) ->
  (strings_Contains version "Ubuntu" = true
   /\ String.index 0 " (Ubuntu" version = Some i)
  \/ (strings_Contains version "Ubuntu" = false
      /\ strings_Contains version "Debian" = true
      /\ String.index 0 " (Debian" version = Some i) ->
  fst (collectVersion ParseTolerant w (Some c) s) =
  Done (ParseTolerant (String.substring 0 i version)).
Proof.
  intros Hrows Hmark. rewrite collectVersion_query, Hrows. cbn [lookup list_lookup].
  assert (Hin : forall marker, String.index 0 marker version = Some i ->
            forall s1, parseSpecialVersion ParseTolerant version (strings_Index version marker) s1
                       = (Done (ParseTolerant (String.substring 0 i version)), s1)).
  { intros marker Hi s1. unfold strings_Index. rewrite Hi.
    rewrite parseSpecialVersion_in_bounds.
    - now rewrite Nat2Z.id.
    - apply index_le_length in Hi. lia. }
  destruct Hmark as [[HU Hi] | (HU & HD & Hi)].
  - rewrite HU. cbv zeta. now rewrite (Hin _ Hi).
  - rewrite HU, HD. cbv zeta. now rewrite (Hin _ Hi).
Qed.

(** The example of the specification, for every tolerant parser:
    "9.6.1 (Ubuntu 9.6.1-1)" is parsed as "9.6.1" is. *)
Lemma collectVersion_ubuntu_example (ParseTolerant : string -> Err + Version) :
  fst (collectVersion ParseTolerant (exWorld [] (inr ["9.6.1 (Ubuntu 9.6.1-1)"]) exRows)
         (Some (mkConn "postgres" 0)) s0)
  = Done (ParseTolerant "9.6.1").
Proof.
  apply (collectVersion_truncates_at_parenthetical ParseTolerant _ _ _
           "9.6.1 (Ubuntu 9.6.1-1)" [] 5); [reflexivity|].
  left. split; reflexivity.
Qed.

(** ** Table collection when every database has schemas *)

Lemma closesOf_closeEvents ds :
  Forall (fun d => d <> None) ds -> length (closesOf (closeEvents ds)) = length ds.
Proof.
  induction 1 as [|[c|] ds Hd _ IH]; [reflexivity | | congruence].
  change (closesOf (closeEvents (Some c :: ds))) with (c :: closesOf (closeEvents ds)).
  cbn [length]. now rewrite IH.
Qed.

Lemma opensOf_closeEvents ds : opensOf (closeEvents ds) = [].
Proof. induction ds as [|[c|] ds IH]; cbn; auto. Qed.

Section AllReachable.

Variable generateTableDefinitions : SchemaList -> list QueryDefinition.
Variable closeByValue : bool.
Variable w : World.

Hypothesis connects : forall tr database, w_connect w tr database = None.
Hypothesis sdk_accepts : forall name ns, w_entityErr w name ns = None.
Hypothesis queries : forall c, queriesSucceed w c.

Lemma tableDatabase_reachable database schemaList s :
  schemaList <> [] ->
  exists evs ents,
    tableDatabase generateTableDefinitions closeByValue w (database, schemaList) s =
    (Done Next,
     mkState (st_trace s ++ EOpen database true :: evs) (st_instance s) ents
       (Some (mkConn database (length (st_trace s))) :: st_defers s))
    /\ opensOf evs = [] /\ closesOf evs = [].
Proof.
  intros Hne. unfold tableDatabase.
  destruct schemaList as [|sch sl]; [congruence|]. cbn [length Nat.eqb].
  unfold bind at 1. unfold NewConnection. rewrite connects.
  unfold bind at 1. unfold deferClose. cbn [set_defers st_trace st_instance st_entities st_defers].
  unfold populateTableMetricsForDatabase. rewrite tableDefinition_shape.
  match goal with
  | |- context [bind (forRange ?b ?defs) _ ?s1] =>
      destruct (definitions_all_run w "Could not execute table query: " Return (tableRow w)
                  (mkConn database (length (st_trace s))) defs s1
                  (tableRow_quiet w sdk_accepts) (queries _))
        as (evs & ents & Hrun & _ & Ho & Hc)
  end.
  exists evs, ents. unfold bind. rewrite Hrun. unfold ret, withEntities. cbn.
  rewrite <- app_assoc. auto.
Qed.

Lemma tableDatabases_reachable databases s :
  Forall (fun entry => snd entry <> []) databases ->
  exists evs ents ds,
    forRange (tableDatabase generateTableDefinitions closeByValue w) databases s =
    (Done tt, mkState (st_trace s ++ evs) (st_instance s) ents (ds ++ st_defers s))
    /\ opensOf evs = map fst databases /\ closesOf evs = []
    /\ length ds = length databases /\ Forall (fun d => d <> None) ds.
Proof.
  intros Hall. revert s. induction Hall as [|[database schemaList] dbs Hne _ IH]; intros s.
  - exists [], (st_entities s), []. cbn. rewrite app_nil_r. destruct s. cbn. auto.
  - destruct (tableDatabase_reachable database schemaList s Hne)
      as (evs1 & ents1 & H1 & Ho1 & Hc1).
    match type of H1 with
    | _ = (_, ?s1) =>
        destruct (IH s1) as (evs2 & ents2 & ds2 & H2 & Ho2 & Hc2 & Hlen & Hsome)
    end.
    exists ((EOpen database true :: evs1) ++ evs2), ents2,
           (ds2 ++ [Some (mkConn database (length (st_trace s)))]).
    rewrite forRange_cons, H1, H2. cbn [st_trace st_instance st_defers].
    split; [now rewrite <- !app_assoc|].
    rewrite opensOf_app, closesOf_app, Ho2, Hc2, length_app.
    change (opensOf (EOpen database true :: evs1)) with (database :: opensOf evs1).
    change (closesOf (EOpen database true :: evs1)) with (closesOf evs1).
    rewrite Ho1, Hc1. cbn. repeat split; try reflexivity; [lia|].
    apply Forall_app. split; [assumption|]. repeat constructor. discriminate.
Qed.

(** The part of C2 that holds: when every database of the topology has at
    least one schema (and no connection, query or entity fails), the table
    domain opens exactly one connection per database, in the order of the
    visit, and closes as many when it returns. *)
Lemma table_collection_one_connection_per_database databases s :
  Forall (fun entry => snd entry <> []) databases ->
  exists closes,
    fst (PopulateTableMetrics generateTableDefinitions closeByValue w databases s) = Done tt
    /\ opensOf (st_trace (snd (PopulateTableMetrics generateTableDefinitions
                                 closeByValue w databases s)))
       = opensOf (st_trace s) ++ map fst databases
    /\ closesOf (st_trace (snd (PopulateTableMetrics generateTableDefinitions
                                  closeByValue w databases s)))
       = closesOf (st_trace s) ++ closes
    /\ length closes = length databases.
Proof.
  intros Hall. unfold PopulateTableMetrics. rewrite withDefers_run.
  destruct (tableDatabases_reachable databases (set_defers [] s) Hall)
    as (evs & ents & ds & Hrun & Ho & Hc & Hlen & Hsome).
  rewrite Hrun. cbn [fst snd st_defers set_defers]. rewrite app_nil_r.
  exists (closesOf (closeEvents ds)).
  split; [now apply runDeferred_all_valid|].
  rewrite !st_trace_frame. unfold set_defers. cbn [st_trace].
  rewrite !opensOf_app, !closesOf_app, Ho, Hc, opensOf_closeEvents, !app_nil_r.
  repeat split; try reflexivity. rewrite closesOf_closeEvents; assumption.
Qed.

End AllReachable.

(** ** End-to-end runs with the example catalog *)

(** Two databases with schemas, everything reachable: two table
    connections, two index connections, all of them closed. *)
Lemma run_two_databases_example :
  fst (exPopulateMetrics [qTableBloat] true (exWorld [] (inr ["12.3"]) exRows)
         [("app", ["public"]); ("crm", ["public"; "sales"])] false false s0) = Done tt
  /\ opensOf (st_trace (snd (exPopulateMetrics [qTableBloat] true
                               (exWorld [] (inr ["12.3"]) exRows)
                               [("app", ["public"]); ("crm", ["public"; "sales"])]
                               false false s0)))
     = ["postgres"; "app"; "crm"; "app"; "crm"]
  /\ length (closesOf (st_trace (snd (exPopulateMetrics [qTableBloat] true
                                        (exWorld [] (inr ["12.3"]) exRows)
                                        [("app", ["public"]); ("crm", ["public"; "sales"])]
                                        false false s0)))) = 5.
Proof. repeat split; reflexivity. Qed.

(** The connection to "app" is refused: the table domain panics, the
    primary connection is still closed while the panic unwinds, and neither
    the index domain nor the pooling-proxy domain runs, whichever receiver
    [Close] has. *)
Lemma run_aborted_by_table_connection_failure (closeByValue : bool) :
  fst (exPopulateMetrics [qTableBloat] closeByValue
         (exWorld ["app"] (inr ["12.3"]) exRows) [("app", ["public"])] true true s0)
  = Panic nilDeref
  /\ opensOf (st_trace (snd (exPopulateMetrics [qTableBloat] closeByValue
                               (exWorld ["app"] (inr ["12.3"]) exRows)
                               [("app", ["public"])] true true s0)))
     = ["postgres"; "app"]
  /\ closesOf (st_trace (snd (exPopulateMetrics [qTableBloat] closeByValue
                                (exWorld ["app"] (inr ["12.3"]) exRows)
                                [("app", ["public"])] true true s0)))
     = [mkConn "postgres" 0].
Proof. destruct closeByValue; repeat split; reflexivity. Qed.

(** The pre-10 server of the specification: "9.6.1 (Ubuntu 9.6.1-1)"
    resolves to 9.6.1, for which the gated table definition is eligible. *)
Lemma run_ubuntu_9_6_example :
  fst (collectVersion parseTolerantModel
         (exWorld [] (inr ["9.6.1 (Ubuntu 9.6.1-1)"]) exRows)
         (Some (mkConn "postgres" 0)) s0) = Done (inr (mkVersion 9 6 1))
  /\ eligible (mkVersion 9 6 1) qTablePre10 = true.
Proof. split; reflexivity. Qed.

(** * Further properties of the code *)

(** ** Version resolution *)

Lemma substring_empty n m : String.substring n m EmptyString = EmptyString.
Proof. destruct n, m; reflexivity. Qed.

Lemma substring_prefix_idem s : forall k m,
  String.substring k m (String.substring 0 (k + m) s) = String.substring k m s.
Proof.
  induction s as [|a s IH]; intros k m.
  - now rewrite !substring_empty.
  - destruct k as [|k].
    + destruct m as [|m]; [reflexivity|]. cbn [Nat.add String.substring].
      f_equal. apply (IH 0 m).
    + cbn [Nat.add String.substring]. apply IH.
Qed.

Lemma substring_substring s : forall n k m,
  String.substring k m (String.substring n (k + m) s) = String.substring (n + k) m s.
Proof.
  induction s as [|a s IH]; intros n k m.
  - now rewrite !substring_empty.
  - destruct n as [|n].
    + apply substring_prefix_idem.
    + cbn [Nat.add]. change (String.substring (S n) (k + m) (String a s))
        with (String.substring n (k + m) s).
      change (String.substring (S (n + k)) m (String a s))
        with (String.substring (n + k) m s).
      apply IH.
Qed.

(** A string in which " (Ubuntu" occurs contains "Ubuntu"; likewise for
    Debian. *)
Lemma parenthetical_contains_token version marker token i :
  String.index 0 marker version = Some i ->
  String.substring 2 (String.length token) marker = token ->
  String.length marker = 2 + String.length token ->
  token <> EmptyString ->
  strings_Contains version token = true.
Proof.
  intros Hi Htok Hlen Hne. unfold strings_Contains, strings_Index.
  destruct (String.index 0 token version) as [j|] eqn:Hj; [apply Z.leb_le; lia|].
  exfalso. apply (String.index_correct3 0 (i + 2) token version Hj Hne); [lia|].
  apply String.index_correct1 in Hi. rewrite Hlen in Hi.
  rewrite <- substring_substring. rewrite Hi. exact Htok.
Qed.

Section VersionFacts.

Variable ParseTolerant : string -> Err + Version.
Variable w : World.

Lemma eta_result (r : Err + Version) :
  match r with inl err => Done (inl err) | inr v => Done (inr v) end = Done r.
Proof. now destruct r. Qed.

(** X1: a version string without the tokens "Ubuntu" and "Debian" is
    handed to the tolerant parser as it is; its result, a version or an
    error, is the result of version resolution, and exactly the version
    query has been run. *)
Theorem collectVersion_plain_version c s version rest :
  w_versionRows w (st_trace s) c versionQuery = inr (version :: rest) ->
  strings_Contains version "Ubuntu" = false ->
  strings_Contains version "Debian" = false ->
  collectVersion ParseTolerant w (Some c) s =
  (Done (ParseTolerant version), withEvents [EQuery c versionQuery] s).
Proof.
  intros Hrows HU HD. rewrite collectVersion_query, Hrows. cbn [lookup list_lookup].
  rewrite HU, HD. cbv zeta. unfold withEvents.
  destruct (ParseTolerant version); reflexivity.
Qed.

(** X2: when " (Ubuntu" occurs in the version string, or " (Debian" does
    and "Ubuntu" does not, version resolution returns what the tolerant
    parser makes of the part of the string before the first such
    occurrence; the rest of the string has no influence. *)
Theorem collectVersion_vendor_parenthetical c s version rest i :
  w_versionRows w (st_trace s) c versionQuery = inr (version :: rest) ->
  String.index 0 " (Ubuntu" version = Some i
  \/ (strings_Contains version "Ubuntu" = false
      /\ String.index 0 " (Debian" version = Some i) ->
  collectVersion ParseTolerant w (Some c) s =
  (Done (ParseTolerant (String.substring 0 i version)),
   withEvents [EQuery c versionQuery] s).
Proof.
  intros Hrows Hmark. rewrite collectVersion_query, Hrows. cbn [lookup list_lookup].
  assert (Hin : forall marker, String.index 0 marker version = Some i ->
            forall s1, parseSpecialVersion ParseTolerant version (strings_Index version marker) s1
                       = (Done (ParseTolerant (String.substring 0 i version)), s1)).
  { intros marker Hi s1. unfold strings_Index. rewrite Hi.
    rewrite parseSpecialVersion_in_bounds.
    - now rewrite Nat2Z.id.
    - apply index_le_length in Hi. lia. }
  destruct Hmark as [Hi | [HU Hi]].
  - rewrite (parenthetical_contains_token version " (Ubuntu" "Ubuntu" i Hi)
      by (reflexivity || discriminate).
    cbv zeta. now rewrite (Hin _ Hi).
  - rewrite HU.
    rewrite (parenthetical_contains_token version " (Debian" "Debian" i Hi)
      by (reflexivity || discriminate).
    cbv zeta. now rewrite (Hin _ Hi).
Qed.

(** X3: version resolution panics on exactly two kinds of answers of the
    server: a result without rows, and a first row that contains the token
    "Ubuntu" (or, without "Ubuntu", the token "Debian") but not the
    parenthetical " (Ubuntu" (" (Debian").  On every other answer it returns
    a version or an error. *)
Theorem collectVersion_panics_iff c s :
  (exists msg, fst (collectVersion ParseTolerant w (Some c) s) = Panic msg)
  <->
  (exists rows,
     w_versionRows w (st_trace s) c versionQuery = inr rows
     /\ (rows = []
         \/ exists version rest,
              rows = version :: rest
              /\ ((strings_Contains version "Ubuntu" = true
                   /\ strings_Index version " (Ubuntu" = (-1)%Z)
                  \/ (strings_Contains version "Ubuntu" = false
                      /\ strings_Contains version "Debian" = true
                      /\ strings_Index version " (Debian" = (-1)%Z)))).
Proof.
  rewrite collectVersion_query. cbv zeta.
  destruct (w_versionRows w (st_trace s) c versionQuery) as [err|[|version rest]] eqn:Hrows.
  - split; [intros [msg H]; discriminate | intros (rows & H & _); discriminate].
  - split; [|intros _; now exists indexRange].
    intros _. exists []. auto.
  - cbn [lookup list_lookup].
    assert (Hsafe : forall marker s1,
              strings_Index version marker <> (-1)%Z ->
              exists r, parseSpecialVersion ParseTolerant version
                          (strings_Index version marker) s1 = (Done r, s1)).
    { intros marker s1 Hne. unfold strings_Index in *.
      destruct (String.index 0 marker version) as [i|] eqn:Hi; [|congruence].
      eexists. apply parseSpecialVersion_in_bounds.
      apply index_le_length in Hi. lia. }
    split.
    + intros [msg H]. exists (version :: rest). split; [reflexivity|]. right.
      exists version, rest. split; [reflexivity|].
      destruct (strings_Contains version "Ubuntu") eqn:HU.
      * left. split; [reflexivity|].
        destruct (Z.eq_dec (strings_Index version " (Ubuntu") (-1)%Z) as [E|E]; [exact E|].
        destruct (Hsafe " (Ubuntu" (mkState (st_trace s ++ [EQuery c versionQuery])
                    (st_instance s) (st_entities s) (st_defers s)) E) as [r Hr].
        rewrite Hr in H. discriminate.
      * right. split; [reflexivity|].
        destruct (strings_Contains version "Debian") eqn:HD.
        -- split; [reflexivity|].
           destruct (Z.eq_dec (strings_Index version " (Debian") (-1)%Z) as [E|E]; [exact E|].
           destruct (Hsafe " (Debian" (mkState (st_trace s ++ [EQuery c versionQuery])
                       (st_instance s) (st_entities s) (st_defers s)) E) as [r Hr].
           rewrite Hr in H. discriminate.
        -- destruct (ParseTolerant version); discriminate.
    + intros (rows & Heq & [Hnil | (v & r & Hcons & Hmark)]).
      * injection Heq as <-. discriminate.
      * injection Heq as <-. injection Hcons as <- <-. exists sliceRange.
        destruct Hmark as [[HU HI] | (HU & HD & HI)].
        -- rewrite HU, HI, parseSpecialVersion_negative by lia. reflexivity.
        -- rewrite HU, HD, HI, parseSpecialVersion_negative by lia. reflexivity.
Qed.

End VersionFacts.

Lemma collectVersion_plain_version_witness :
  collectVersion parseTolerantModel (exWorld [] (inr ["12.3"]) exRows)
    (Some (mkConn "postgres" 0)) s0
  = (Done (inr v12_3), mkState [EQuery (mkConn "postgres" 0) versionQuery] exInstance [] []).
Proof.
  exact (collectVersion_plain_version parseTolerantModel (exWorld [] (inr ["12.3"]) exRows)
           (mkConn "postgres" 0) s0 "12.3" [] eq_refl eq_refl eq_refl).
Defined.

Lemma collectVersion_vendor_parenthetical_witness :
  collectVersion parseTolerantModel
    (exWorld [] (inr ["10.4 (Debian 10.4-2.pgdg90+1)"]) exRows)
    (Some (mkConn "postgres" 0)) s0
  = (Done (inr (mkVersion 10 4 0)),
     mkState [EQuery (mkConn "postgres" 0) versionQuery] exInstance [] []).
Proof.
  exact (collectVersion_vendor_parenthetical parseTolerantModel
           (exWorld [] (inr ["10.4 (Debian 10.4-2.pgdg90+1)"]) exRows)
           (mkConn "postgres" 0) s0 "10.4 (Debian 10.4-2.pgdg90+1)" [] 4 eq_refl
           (or_intror (conj eq_refl eq_refl))).
Defined.

(** ** The lock domain *)

(** X4: the lock domain first asks for the "tablefunc" extension in
    schema "public".  Without it the function writes its five warnings and
    returns: no lock definition is generated or run and no entity is
    touched.  With it the lock definitions are processed exactly as the
    database definitions are. *)
Theorem lock_domain_needs_extension
    (generateLockDefinitions : DatabaseList -> Version -> list QueryDefinition)
    (w : World) (databases : DatabaseList) (version : Version) (c : Conn) (s : State) :
  (w_haveExtension w (st_trace s) c "tablefunc" "public" = false ->
   PopulateDatabaseLockMetrics generateLockDefinitions w databases version (Some c) s =
   (Done tt, withEvents (EExtension c "tablefunc" "public" :: lockWarnings) s))
  /\ (w_haveExtension w (st_trace s) c "tablefunc" "public" = true ->
      PopulateDatabaseLockMetrics generateLockDefinitions w databases version (Some c) s =
      processDatabaseDefinitions w (generateLockDefinitions databases version) (Some c)
        (snoc (EExtension c "tablefunc" "public") s)).
Proof.
  split; intros H; unfold PopulateDatabaseLockMetrics, bind, HaveExtensionInSchema;
    rewrite H; cbn.
  - unfold withEvents, log_Warn, emit. cbn. rewrite <- !app_assoc. reflexivity.
  - reflexivity.
Qed.

Lemma lock_domain_needs_extension_witness :
  PopulateDatabaseLockMetrics (fun _ _ => [qLock])
    (mkWorld "postgres" ("localhost", "5432") (fun _ _ => None) (fun _ _ _ => inr ["12.3"])
       (fun _ _ sql => exRows sql) (fun _ _ _ _ => false) (fun _ _ => None))
    [("app", ["public"])] v12_3 (Some (mkConn "postgres" 0)) s0
  = (Done tt,
     mkState (EExtension (mkConn "postgres" 0) "tablefunc" "public" :: lockWarnings)
       exInstance [] []).
Proof.
  exact (proj1 (lock_domain_needs_extension (fun _ _ => [qLock])
                  (mkWorld "postgres" ("localhost", "5432") (fun _ _ => None)
                     (fun _ _ _ => inr ["12.3"]) (fun _ _ sql => exRows sql)
                     (fun _ _ _ _ => false) (fun _ _ => None))
                  [("app", ["public"])] v12_3 (mkConn "postgres" 0) s0) eq_refl).
Defined.

(** ** Domains whose loops go on after a failed query *)

(** A loop body that continues after an error runs the query of every
    definition. *)
Lemma definitions_continue_all w prefix (rowBody : Row -> Go Flow) c defs s :
  quietBody rowBody ->
  exists evs ents,
    forRange (definitionBody w prefix Next rowBody (Some c)) defs s =
    (Done tt, withEntities evs ents s)
    /\ queriesOf evs = map GetQuery defs
    /\ opensOf evs = [] /\ closesOf evs = [].
Proof.
  intros Hq. revert s. induction defs as [|d defs IH]; intros s.
  - exists [], (st_entities s). split; [|auto].
    unfold withEntities. rewrite app_nil_r. now destruct s.
  - destruct (w_rows w (st_trace s) c (GetQuery d)) as [err|rows] eqn:Hrows.
    + pose proof (definitionBody_error w prefix Next rowBody c d s err Hrows) as Hd.
      destruct (IH (withEvents [EQuery c (GetQuery d); ELog LError (prefix +:+ err)] s))
        as (evs2 & ents2 & Hrest & Hq2 & Ho2 & Hc2).
      exists ([EQuery c (GetQuery d); ELog LError (prefix +:+ err)] ++ evs2), ents2.
      rewrite forRange_cons, Hd, Hrest, withEvents_withEntities.
      split; [reflexivity|].
      rewrite queriesOf_app, opensOf_app, closesOf_app, Hq2, Ho2, Hc2. auto.
    + destruct (definitionBody_rows w prefix Next rowBody c d s rows Hq Hrows)
        as (evs1 & ents1 & Hd & Hl1).
      destruct (IH (withEntities (EQuery c (GetQuery d) :: evs1) ents1 s))
        as (evs2 & ents2 & Hrest & Hq2 & Ho2 & Hc2).
      exists ((EQuery c (GetQuery d) :: evs1) ++ evs2), ents2.
      rewrite forRange_cons, Hd, Hrest, withEntities_withEntities.
      split; [reflexivity|].
      rewrite queriesOf_app, opensOf_app, closesOf_app, Hq2, Ho2, Hc2.
      change (queriesOf (EQuery c (GetQuery d) :: evs1))
        with (GetQuery d :: queriesOf evs1).
      change (opensOf (EQuery c (GetQuery d) :: evs1)) with (opensOf evs1).
      change (closesOf (EQuery c (GetQuery d) :: evs1)) with (closesOf evs1).
      rewrite (queriesOf_logs _ Hl1), (opensOf_logs _ Hl1), (closesOf_logs _ Hl1).
      auto.
Qed.

(** X5: in the database domain (and in the lock domain, which shares the
    loop) a failed query does not stop the loop: as long as the SDK resolves
    the entities, the query of every definition is run, once and in the
    order of the catalog, whichever of them fail, and the function returns
    normally. *)
Theorem database_domain_runs_every_definition
    (w : World) (definitions : list QueryDefinition) (c : Conn) (s : State) :
  (forall name ns, w_entityErr w name ns = None) ->
  fst (processDatabaseDefinitions w definitions (Some c) s) = Done tt
  /\ queriesOf (st_trace (snd (processDatabaseDefinitions w definitions (Some c) s)))
     = queriesOf (st_trace s) ++ map GetQuery definitions
  /\ opensOf (st_trace (snd (processDatabaseDefinitions w definitions (Some c) s)))
     = opensOf (st_trace s).
Proof.
  intros Hsdk. unfold processDatabaseDefinitions. rewrite databaseDefinition_shape.
  destruct (definitions_continue_all w "Could not execute database query: " (databaseRow w)
              c definitions s (databaseRow_quiet w Hsdk))
    as (evs & ents & Hrun & Hqs & Hos & _).
  rewrite Hrun. cbn. rewrite queriesOf_app, opensOf_app, Hqs, Hos, app_nil_r. auto.
Qed.

Lemma database_domain_runs_every_definition_witness :
  queriesOf (st_trace (snd (processDatabaseDefinitions
                              (exWorld [] (inr ["12.3"]) (exRowsFailing "SELECT database"))
                              [qDatabase; qLock] (Some (mkConn "postgres" 0)) s0)))
  = ["SELECT database"; "SELECT locks"].
Proof.
  exact (proj1 (proj2 (database_domain_runs_every_definition
                         (exWorld [] (inr ["12.3"]) (exRowsFailing "SELECT database"))
                         [qDatabase; qLock] (mkConn "postgres" 0) s0
                         (fun _ _ => eq_refl)))).
Defined.




(** ** Inner functions under a relation that admits only some events *)

Create HintDb scoped.

Ltac scoped_auto :=
  repeat first
    [ apply stable_ret; assumption
    | apply stable_panic; assumption
    | apply stable_forRange; [assumption | intro]
    | apply stable_bind; [assumption | | intro]
    | match goal with
      | |- stable _ (match ?x with _ => _ end) => destruct x
      end
    | solve [auto with scoped]
    | solve [unfold log_Error, log_Warn, log_Debug; auto with scoped] ].

Section Scoped.

Context (R : relation State) `{!PreOrder R}.
Hypothesis R_data : forall s inst ents,
  R s (mkState (st_trace s) inst ents (st_defers s)).
Hypothesis R_log : forall s l msg, R s (snoc (ELog l msg) s).

Variable con : option Conn.
Hypothesis R_query : forall s c sql, con = Some c -> R s (snoc (EQuery c sql) s).
Hypothesis R_ext : forall s c extension schema,
  con = Some c -> R s (snoc (EExtension c extension schema) s).

Variable w : World.

Lemma log_scoped l msg : stable R (emit (ELog l msg)).
Proof. intros s. apply R_log. Qed.

Lemma logIf_scoped prefix err : stable R (logIf prefix err).
Proof. destruct err; [apply log_scoped | apply stable_ret; assumption]. Qed.

Lemma Query_scoped sql : stable R (Query w con sql).
Proof.
  intros s.
  assert (H : forall o, con = o -> R s (snd (Query w o sql s))).
  { intros [c|] Ho; cbn; [now apply R_query | reflexivity]. }
  now apply H.
Qed.

Lemma Query_version_scoped sql : stable R (Query_version w con sql).
Proof.
  intros s.
  assert (H : forall o, con = o -> R s (snd (Query_version w o sql s))).
  { intros [c|] Ho; cbn; [now apply R_query | reflexivity]. }
  now apply H.
Qed.

Lemma HaveExtensionInSchema_scoped extension schema :
  stable R (HaveExtensionInSchema w con extension schema).
Proof.
  intros s.
  assert (H : forall o, con = o -> R s (snd (HaveExtensionInSchema w o extension schema s))).
  { intros [c|] Ho; cbn; [now apply R_ext | reflexivity]. }
  now apply H.
Qed.

Lemma Integration_Entity_scoped name ns ids : stable R (Integration_Entity w name ns ids).
Proof. now apply Integration_Entity_stable. Qed.

Lemma entity_Name_scoped e : stable R (entity_Name e).
Proof. now apply entity_Name_stable. Qed.

Lemma entity_Namespace_scoped e : stable R (entity_Namespace e).
Proof. now apply entity_Namespace_stable. Qed.

Lemma NewMetricSet_scoped e eventType attrs : stable R (NewMetricSet e eventType attrs).
Proof. now apply NewMetricSet_stable. Qed.

Lemma MarshalMetrics_scoped ms row : stable R (MarshalMetrics ms row).
Proof. now apply MarshalMetrics_stable. Qed.

Hint Resolve log_scoped logIf_scoped Query_scoped Query_version_scoped
  HaveExtensionInSchema_scoped Integration_Entity_scoped entity_Name_scoped
  entity_Namespace_scoped NewMetricSet_scoped MarshalMetrics_scoped : scoped.

Lemma databaseRow_scoped row : stable R (databaseRow w row).
Proof. unfold databaseRow. scoped_auto. Qed.

Lemma tableRow_scoped row : stable R (tableRow w row).
Proof. unfold tableRow. scoped_auto. Qed.

Lemma indexRow_scoped row : stable R (indexRow w row).
Proof. unfold indexRow. scoped_auto. Qed.

Lemma pgBouncerRow_scoped row : stable R (pgBouncerRow w row).
Proof. unfold pgBouncerRow. scoped_auto. Qed.

Hint Resolve databaseRow_scoped tableRow_scoped indexRow_scoped pgBouncerRow_scoped : scoped.

Lemma processDatabaseDefinitions_scoped defs :
  stable R (processDatabaseDefinitions w defs con).
Proof. unfold processDatabaseDefinitions, databaseDefinition. scoped_auto. Qed.

Lemma populateTableMetricsForDatabase_scoped gen schemaList :
  stable R (populateTableMetricsForDatabase gen w schemaList con).
Proof. unfold populateTableMetricsForDatabase, tableDefinition. scoped_auto. Qed.

Lemma populateIndexMetricsForDatabase_scoped gen schemaList :
  stable R (populateIndexMetricsForDatabase gen w schemaList con).
Proof. unfold populateIndexMetricsForDatabase, indexDefinition. scoped_auto. Qed.

Lemma PopulatePgBouncerMetrics_scoped defs :
  stable R (PopulatePgBouncerMetrics defs w con).
Proof. unfold PopulatePgBouncerMetrics, pgBouncerDefinition. scoped_auto. Qed.

Lemma PopulateInstanceMetrics_scoped gen instance version :
  stable R (PopulateInstanceMetrics gen w instance version con).
Proof. unfold PopulateInstanceMetrics, instanceDefinition. scoped_auto. Qed.

Lemma PopulateDatabaseMetrics_scoped gen databases version :
  stable R (PopulateDatabaseMetrics gen w databases version con).
Proof. unfold PopulateDatabaseMetrics. apply processDatabaseDefinitions_scoped. Qed.

Lemma PopulateDatabaseLockMetrics_scoped gen databases version :
  stable R (PopulateDatabaseLockMetrics gen w databases version con).
Proof.
  unfold PopulateDatabaseLockMetrics.
  apply stable_bind; [assumption | apply HaveExtensionInSchema_scoped | intros have].
  destruct (negb have); [|apply processDatabaseDefinitions_scoped].
  scoped_auto.
Qed.

Lemma parseSpecialVersion_scoped ParseTolerant version specialIndex :
  stable R (parseSpecialVersion ParseTolerant version specialIndex).
Proof. unfold parseSpecialVersion. scoped_auto. Qed.

Lemma collectVersion_scoped ParseTolerant :
  stable R (collectVersion ParseTolerant w con).
Proof.
  unfold collectVersion.
  apply stable_bind; [assumption | apply Query_version_scoped | intros r].
  destruct r as [err|rows]; [apply stable_ret; assumption|].
  destruct (rows !! 0%nat) as [version|]; [|apply stable_panic; assumption].
  destruct (strings_Contains version "Ubuntu"); [apply parseSpecialVersion_scoped|].
  destruct (strings_Contains version "Debian"); [apply parseSpecialVersion_scoped|].
  destruct (ParseTolerant version); apply stable_ret; assumption.
Qed.

End Scoped.

(** ** Events that a function may write *)

#[local] Instance appends_preorder P : PreOrder (appends P).
Proof.
  split.
  - intros s. exists []. split; [now rewrite app_nil_r | constructor].
  - intros a b c (e1 & H1 & F1) (e2 & H2 & F2). exists (e1 ++ e2).
    split; [now rewrite H2, H1, <- app_assoc | now apply Forall_app].
Qed.

Lemma appends_data P s inst ents :
  appends P s (mkState (st_trace s) inst ents (st_defers s)).
Proof. exists []. cbn. split; [now rewrite app_nil_r | constructor]. Qed.

Lemma appends_event (P : Event -> Prop) s e : P e -> appends P s (snoc e s).
Proof. intros H. exists [e]. split; [reflexivity | now repeat constructor]. Qed.

Lemma appends_defers P s ds : appends P s (set_defers ds s).
Proof. exists []. cbn. split; [now rewrite app_nil_r | constructor]. Qed.

Lemma onlyOn_query c s c' sql :
  Some c = Some c' -> appends (onlyOn c) s (snoc (EQuery c' sql) s).
Proof. intros [= <-]. now apply appends_event. Qed.

Lemma onlyOn_ext c s c' extension schema :
  Some c = Some c' -> appends (onlyOn c) s (snoc (EExtension c' extension schema) s).
Proof. intros [= <-]. now apply appends_event. Qed.

Lemma onlyOn_log c s l msg : appends (onlyOn c) s (snoc (ELog l msg) s).
Proof. now apply appends_event. Qed.

Ltac solve_onlyOn :=
  first [ typeclasses eauto
        | intros; first [ apply appends_data | apply onlyOn_log
                        | now apply onlyOn_query | now apply onlyOn_ext ] ].

(** X7: the functions that work on a connection they were handed write
    nothing but log entries and queries (or the extension check) on that
    very connection: version resolution, the database and lock domains, and
    the per-database part of the table, index and pooling-proxy domains
    never open a connection, never close one and never touch another
    connection, in every environment and also when they panic. *)
Theorem inner_functions_stay_on_their_connection
    (generateLockDefinitions : DatabaseList -> Version -> list QueryDefinition)
    (generateTableDefinitions generateIndexDefinitions : SchemaList -> list QueryDefinition)
    (generatePgBouncerDefinitions definitions : list QueryDefinition)
    (ParseTolerant : string -> Err + Version) (w : World)
    (databases : DatabaseList) (schemaList : SchemaList) (version : Version)
    (c : Conn) (s : State) :
  appends (onlyOn c) s (snd (collectVersion ParseTolerant w (Some c) s))
  /\ appends (onlyOn c) s (snd (processDatabaseDefinitions w definitions (Some c) s))
  /\ appends (onlyOn c) s
       (snd (PopulateDatabaseLockMetrics generateLockDefinitions w databases version
               (Some c) s))
  /\ appends (onlyOn c) s
       (snd (populateTableMetricsForDatabase generateTableDefinitions w schemaList
               (Some c) s))
  /\ appends (onlyOn c) s
       (snd (populateIndexMetricsForDatabase generateIndexDefinitions w schemaList
               (Some c) s))
  /\ appends (onlyOn c) s
       (snd (PopulatePgBouncerMetrics generatePgBouncerDefinitions w (Some c) s)).
Proof.
  repeat split.
  - apply collectVersion_scoped; solve_onlyOn.
  - apply processDatabaseDefinitions_scoped; solve_onlyOn.
  - apply PopulateDatabaseLockMetrics_scoped; solve_onlyOn.
  - apply populateTableMetricsForDatabase_scoped; solve_onlyOn.
  - apply populateIndexMetricsForDatabase_scoped; solve_onlyOn.
  - apply PopulatePgBouncerMetrics_scoped; solve_onlyOn.
Qed.

(** ** Queries follow the catalog *)

Lemma isLog_log s l msg : appends isLog s (snoc (ELog l msg) s).
Proof. now apply appends_event. Qed.

Ltac solve_isLog :=
  first [ typeclasses eauto | intros; first [ apply appends_data | apply isLog_log ] ].

Lemma definitionBody_prefix w prefix onErr (rowBody : Row -> Go Flow) c :
  (forall row, stable (appends isLog) (rowBody row)) ->
  forall defs s,
  exists k evs,
    st_trace (snd (forRange (definitionBody w prefix onErr rowBody (Some c)) defs s))
    = st_trace s ++ evs
    /\ queriesOf evs = take k (map GetQuery defs).
Proof.
  intros Hrow. induction defs as [|d defs IH]; intros s.
  - exists 0, []. cbn. now rewrite app_nil_r.
  - rewrite forRange_cons. unfold definitionBody at 1. unfold bind at 1. unfold Query.
    destruct (w_rows w (st_trace s) c (GetQuery d)) as [err|rows].
    + cbn. destruct onErr.
      * match goal with
        | |- context [forRange _ defs ?s1] => destruct (IH s1) as (k & evs & Ht & Hq)
        end.
        exists (S k), ([EQuery c (GetQuery d); ELog LError (prefix +:+ err)] ++ evs).
        rewrite Ht. cbn [st_trace]. rewrite <- !app_assoc. split; [reflexivity|].
        rewrite queriesOf_app, Hq. reflexivity.
      * exists 1, [EQuery c (GetQuery d); ELog LError (prefix +:+ err)].
        cbn. rewrite <- !app_assoc. split; [reflexivity|]. now rewrite take_0.
    + match goal with
      | |- context [bind (forRange rowBody rows) _ ?s1] =>
          destruct (stable_forRange (appends isLog) rowBody rows Hrow s1)
            as (logs & Hlogs & Flogs);
          unfold bind; destruct (forRange rowBody rows s1) as [[[]|msg] s2]
      end; cbn [snd st_trace] in Hlogs.
      * cbn [ret]. destruct (IH s2) as (k & evs & Ht & Hq).
        exists (S k), ((EQuery c (GetQuery d) :: logs) ++ evs).
        rewrite Ht, Hlogs, <- !app_assoc. split; [reflexivity|].
        rewrite queriesOf_app, Hq.
        change (queriesOf (EQuery c (GetQuery d) :: logs))
          with (GetQuery d :: queriesOf logs).
        now rewrite (queriesOf_logs _ Flogs).
      * exists 1, (EQuery c (GetQuery d) :: logs). cbn [snd].
        rewrite Hlogs, <- !app_assoc. split; [reflexivity|].
        change (queriesOf (EQuery c (GetQuery d) :: logs))
          with (GetQuery d :: queriesOf logs).
        rewrite (queriesOf_logs _ Flogs). cbn. now rewrite take_0.
Qed.

(** X8: in the table, index and pooling-proxy domains the queries run on
    a connection are always an initial segment of the catalog of the
    domain: no query outside the catalog, none twice, none out of order, in
    every environment and also when a row makes the function panic. *)
Theorem queries_are_a_prefix_of_the_catalog
    (generateTableDefinitions generateIndexDefinitions : SchemaList -> list QueryDefinition)
    (generatePgBouncerDefinitions : list QueryDefinition)
    (w : World) (schemaList : SchemaList) (c : Conn) (s : State) :
  (exists k evs,
     st_trace (snd (populateTableMetricsForDatabase generateTableDefinitions w schemaList
                      (Some c) s)) = st_trace s ++ evs
     /\ queriesOf evs = take k (map GetQuery (generateTableDefinitions schemaList)))
  /\ (exists k evs,
        st_trace (snd (populateIndexMetricsForDatabase generateIndexDefinitions w schemaList
                         (Some c) s)) = st_trace s ++ evs
        /\ queriesOf evs = take k (map GetQuery (generateIndexDefinitions schemaList)))
  /\ (exists k evs,
        st_trace (snd (PopulatePgBouncerMetrics generatePgBouncerDefinitions w
                         (Some c) s)) = st_trace s ++ evs
        /\ queriesOf evs = take k (map GetQuery generatePgBouncerDefinitions)).
Proof.
  repeat split.
  - unfold populateTableMetricsForDatabase. rewrite tableDefinition_shape.
    apply definitionBody_prefix. intros row.
    apply tableRow_scoped; solve_isLog.
  - unfold populateIndexMetricsForDatabase. rewrite indexDefinition_shape.
    apply definitionBody_prefix. intros row.
    apply indexRow_scoped; solve_isLog.
  - unfold PopulatePgBouncerMetrics. rewrite pgBouncerDefinition_shape.
    apply definitionBody_prefix. intros row.
    apply pgBouncerRow_scoped; solve_isLog.
Qed.

(** ** Table and index definitions are not gated by the version *)

(** When no query fails, a loop over definitions that returns normally has
    run the query of every definition, in order. *)
Lemma definitions_done_all w prefix onErr (rowBody : Row -> Go Flow) c :
  (forall row, stable (appends isLog) (rowBody row)) ->
  queriesSucceed w c ->
  forall defs s,
    fst (forRange (definitionBody w prefix onErr rowBody (Some c)) defs s) = Done tt ->
    queriesOf (st_trace (snd (forRange (definitionBody w prefix onErr rowBody (Some c))
                                defs s)))
    = queriesOf (st_trace s) ++ map GetQuery defs.
Proof.
  intros Hrow Hq. induction defs as [|d defs IH]; intros s.
  - intros _. cbn. now rewrite app_nil_r.
  - rewrite forRange_cons.
    destruct (Hq (st_trace s) (GetQuery d)) as [rows Hrows].
    set (s1 := mkState (st_trace s ++ [EQuery c (GetQuery d)])
                 (st_instance s) (st_entities s) (st_defers s)).
    assert (Hd : definitionBody w prefix onErr rowBody (Some c) d s =
                 match forRange rowBody rows s1 with
                 | (Done _, s2) => (Done Next, s2)
                 | (Panic msg, s2) => (Panic msg, s2)
                 end).
    { unfold definitionBody, bind, Query. rewrite Hrows. fold s1.
      now destruct (forRange rowBody rows s1) as [[[]|msg] s2]. }
    rewrite Hd.
    destruct (stable_forRange (appends isLog) rowBody rows Hrow s1)
      as (logs & Hlogs & Flogs).
    destruct (forRange rowBody rows s1) as [[[]|msg] s2];
      cbn [snd st_trace] in Hlogs; [|discriminate].
    intros Hdone. rewrite (IH s2 Hdone), Hlogs. subst s1. cbn [st_trace].
    rewrite !queriesOf_app, (queriesOf_logs _ Flogs), app_nil_r, <- app_assoc.
    reflexivity.
Qed.

(** C1 (amended): the table and index domains run the query of every
    definition that their generators return for the schema list, in order;
    the resolved version is not an input of either function, so no
    definition is left out because of its version range.  Stated for the
    runs in which no query fails and no record makes the function panic;
    no record does when the SDK resolves every entity. *)
Theorem table_index_queries_not_version_gated
    (generateTableDefinitions generateIndexDefinitions : SchemaList -> list QueryDefinition)
    (w : World) (schemaList : SchemaList) (c : Conn) (s : State) :
  queriesSucceed w c ->
  (fst (populateTableMetricsForDatabase generateTableDefinitions w schemaList (Some c) s)
   = Done tt ->
   queriesOf (st_trace (snd (populateTableMetricsForDatabase
                               generateTableDefinitions w schemaList (Some c) s)))
   = queriesOf (st_trace s) ++ map GetQuery (generateTableDefinitions schemaList))
  /\ (fst (populateIndexMetricsForDatabase generateIndexDefinitions w schemaList (Some c) s)
      = Done tt ->
      queriesOf (st_trace (snd (populateIndexMetricsForDatabase
                                  generateIndexDefinitions w schemaList (Some c) s)))
      = queriesOf (st_trace s) ++ map GetQuery (generateIndexDefinitions schemaList))
  /\ ((forall name ns, w_entityErr w name ns = None) ->
      fst (populateTableMetricsForDatabase generateTableDefinitions w schemaList (Some c) s)
      = Done tt
      /\ fst (populateIndexMetricsForDatabase generateIndexDefinitions w schemaList
                (Some c) s)
         = Done tt).
Proof.
  intros Hq. split; [|split].
  - unfold populateTableMetricsForDatabase. rewrite tableDefinition_shape.
    apply definitions_done_all; [|assumption].
    intros row. apply tableRow_scoped; solve_isLog.
  - unfold populateIndexMetricsForDatabase. rewrite indexDefinition_shape.
    apply definitions_done_all; [|assumption].
    intros row. apply indexRow_scoped; solve_isLog.
  - intros Hsdk. split.
    + unfold populateTableMetricsForDatabase. rewrite tableDefinition_shape.
      destruct (definitions_all_run w "Could not execute table query: " Return (tableRow w)
                  c (generateTableDefinitions schemaList) s (tableRow_quiet w Hsdk) Hq)
        as (evs & ents & Hrun & _).
      now rewrite Hrun.
    + unfold populateIndexMetricsForDatabase. rewrite indexDefinition_shape.
      destruct (definitions_all_run w "Could not execute index query: " Return (indexRow w)
                  c (generateIndexDefinitions schemaList) s (indexRow_quiet w Hsdk) Hq)
        as (evs & ents & Hrun & _).
      now rewrite Hrun.
Qed.

Lemma table_index_queries_not_version_gated_witness :
  eligible v12_3 qTablePre10 = false
  /\ queriesOf (st_trace (snd (populateTableMetricsForDatabase
                                 (fun _ => [qTablePre10; qTableBloat])
                                 (sdkWorld exRows) ["public"]
                                 (Some (mkConn "app" 0)) s0)))
     = ["SELECT tables"; "SELECT bloat"].
Proof.
  split; [reflexivity|].
  refine (proj1 (table_index_queries_not_version_gated
            (fun _ => [qTablePre10; qTableBloat]) (fun _ => [qIndex])
            (sdkWorld exRows) ["public"] (mkConn "app" 0) s0 _) _).
  - intros tr sql. eexists. reflexivity.
  - reflexivity.
Defined.

(** C1, as stated, fails: the server reports "12.3", the only table
    definition is gated to versions below 10.0.0 and so is not eligible, yet
    its query is issued. *)
Lemma table_query_issued_outside_version_range :
  fst (collectVersion parseTolerantModel (exWorld [] (inr ["12.3"]) exRows)
         (Some (mkConn "postgres" 0)) s0) = Done (inr v12_3)
  /\ filter (fun d => eligible v12_3 d) [qTablePre10] = []
  /\ fst (exPopulateMetrics [qTablePre10] true (exWorld [] (inr ["12.3"]) exRows)
            [("app", ["public"])] false false s0) = Done tt
  /\ In "SELECT tables"
       (queriesOf (st_trace (snd (exPopulateMetrics [qTablePre10] true
                                    (exWorld [] (inr ["12.3"]) exRows)
                                    [("app", ["public"])] false false s0)))).
Proof.
  split; [reflexivity|]. split; [reflexivity|]. split; [reflexivity|].
  vm_compute. tauto.
Qed.

(** ** Records with a missing identity field *)

Lemma bind_logIf {B} prefix err (k : unit -> Go B) s :
  bind (logIf prefix err) k s = k tt (withEvents (errLog prefix err) s).
Proof. apply bind_Done, logIf_run. Qed.

Ltac step_reports :=
  repeat (rewrite bind_logIf; cbv beta); cbn [errLog app];
  repeat first [ rewrite withEvents_withEvents | rewrite app_nil_r ]; cbn [app].

(** A record that lacks identity fields is processed as the record that
    has the empty string in their place, after the missing fields have been
    reported. *)
Lemma databaseRow_filled w row s :
  databaseRow w row s =
  databaseRow w (filled row)
    (withEvents (missingReport "database name" (row_database row)) s).
Proof.
  destruct row as [[db|] sc tb ix fields merr];
    unfold databaseRow, GetDatabaseName, missingReport, filled, identity;
    cbn [row_database getField default fst snd errLog String.append];
    step_reports; reflexivity.
Qed.

Lemma tableRow_filled w row s :
  tableRow w row s =
  tableRow w (filled row)
    (withEvents (missingReport "database name" (row_database row)
                 ++ missingReport "schema name" (row_schema row)
                 ++ missingReport "table name" (row_table row)) s).
Proof.
  destruct row as [[db|] [sc|] [tb|] ix fields merr];
    unfold tableRow, GetDatabaseName, GetSchemaName, GetTableName, missingReport,
      filled, identity;
    cbn [row_database row_schema row_table getField default fst snd errLog String.append];
    step_reports; reflexivity.
Qed.

Lemma indexRow_filled w row s :
  indexRow w row s =
  indexRow w (filled row)
    (withEvents (missingReport "database name" (row_database row)
                 ++ missingReport "schema name" (row_schema row)
                 ++ missingReport "table name" (row_table row)
                 ++ missingReport "index name" (row_index row)) s).
Proof.
  destruct row as [[db|] [sc|] [tb|] [ix|] fields merr];
    unfold indexRow, GetDatabaseName, GetSchemaName, GetTableName, GetIndexName,
      missingReport, filled, identity;
    cbn [row_database row_schema row_table row_index getField default fst snd errLog
           String.append];
    step_reports; reflexivity.
Qed.

Lemma reported_after msg evs (m : Go Flow) s :
  stable traceGrows m ->
  In (ELog LError msg) evs ->
  reported msg s (snd (m (withEvents evs s))).
Proof.
  intros Hm Hin. destruct (Hm (withEvents evs s)) as [evs' He].
  exists (evs ++ evs'). split; [|apply in_or_app; now left].
  rewrite He. cbn. now rewrite app_assoc.
Qed.

Ltac report_missing Hm :=
  rewrite Hm; apply reported_after;
  [ first [ apply databaseRow_stable | apply tableRow_stable | apply indexRow_stable ];
    first [ typeclasses eauto | apply traceGrows_data | apply traceGrows_event ]
  | unfold missingReport; solve [find_in] ].

(** C5 (amended): in the database, lock, table and index domains a record
    that lacks identity fields is processed exactly as the record that has
    the empty string in their place, after each missing field has been
    reported; the reports are in the log whatever happens to the record
    afterwards.  The entity is requested under the identity with the empty
    components, and when the SDK returns it the row returns normally and
    that entity carries the record's sample.  In the pooling-proxy domain a
    record without a database name is reported and skipped. *)
Theorem missing_identity_field_nonfatal (w : World) (row : Row) (s : State) :
  (databaseRow w row s
   = databaseRow w (filled row)
       (withEvents (missingReport "database name" (row_database row)) s)
   /\ (row_database row = None ->
       reported "Unable to get database name: did not find database name"
         s (snd (databaseRow w row s)))
   /\ (w_entityErr w (identity (row_database row)) "pg-database" = None ->
       fst (databaseRow w row s) = Done Next
       /\ carriesSample (identity (row_database row)) "pg-database"
            [("host", fst (ci_HostPort w)); ("port", snd (ci_HostPort w))]
            (sampleOf "PostgresqlDatabaseSample"
               [("displayName", identity (row_database row));
                ("entityName", "database:" +:+ identity (row_database row))] row)
            (st_entities (snd (databaseRow w row s)))))
  /\ (tableRow w row s
      = tableRow w (filled row)
          (withEvents (missingReport "database name" (row_database row)
                       ++ missingReport "schema name" (row_schema row)
                       ++ missingReport "table name" (row_table row)) s)
      /\ (row_database row = None ->
          reported "Unable to get database name: did not find database name"
            s (snd (tableRow w row s)))
      /\ (row_schema row = None ->
          reported "Unable to get schema name: did not find schema name"
            s (snd (tableRow w row s)))
      /\ (row_table row = None ->
          reported "Unable to get table name: did not find table name"
            s (snd (tableRow w row s)))
      /\ (w_entityErr w (identity (row_table row)) "pg-table" = None ->
          fst (tableRow w row s) = Done Next
          /\ carriesSample (identity (row_table row)) "pg-table"
               [("host", fst (ci_HostPort w)); ("port", snd (ci_HostPort w));
                ("pg-database", identity (row_database row));
                ("pg-schema", identity (row_schema row))]
               (sampleOf "PostgresqlTableSample"
                  [("displayName", identity (row_table row));
                   ("entityName", "table:" +:+ identity (row_table row));
                   ("database", identity (row_database row));
                   ("schema", identity (row_schema row))] row)
               (st_entities (snd (tableRow w row s)))))
  /\ (indexRow w row s
      = indexRow w (filled row)
          (withEvents (missingReport "database name" (row_database row)
                       ++ missingReport "schema name" (row_schema row)
                       ++ missingReport "table name" (row_table row)
                       ++ missingReport "index name" (row_index row)) s)
      /\ (row_database row = None ->
          reported "Unable to get database name: did not find database name"
            s (snd (indexRow w row s)))
      /\ (row_schema row = None ->
          reported "Unable to get schema name: did not find schema name"
            s (snd (indexRow w row s)))
      /\ (row_table row = None ->
          reported "Unable to get table name: did not find table name"
            s (snd (indexRow w row s)))
      /\ (row_index row = None ->
          reported "Unable to get index name: did not find index name"
            s (snd (indexRow w row s)))
      /\ (w_entityErr w (identity (row_index row)) "pg-index" = None ->
          fst (indexRow w row s) = Done Next
          /\ carriesSample (identity (row_index row)) "pg-index"
               [("host", fst (ci_HostPort w)); ("port", snd (ci_HostPort w));
                ("pg-database", identity (row_database row));
                ("pg-schema", identity (row_schema row));
                ("pg-table", identity (row_table row))]
               (sampleOf "PostgresqlIndexSample"
                  [("displayName", identity (row_index row));
                   ("entityName", "index:" +:+ identity (row_index row));
                   ("database", identity (row_database row));
                   ("schema", identity (row_schema row));
                   ("table", identity (row_table row))] row)
               (st_entities (snd (indexRow w row s)))))
  /\ (row_database row = None ->
      pgBouncerRow w row s =
      (Done Next,
       withEvents [ELog LError "Unable to get database name: did not find database name"] s)).
Proof.
  split; [|split; [|split]].
  - split; [apply databaseRow_filled|]. split.
    + intros Hm. rewrite databaseRow_filled. report_missing Hm.
    + intros H. rewrite <- (identity_getField "database name") in H.
      rewrite (databaseRow_run w row s H). cbn [fst snd withEntities st_entities].
      unfold GetDatabaseName. rewrite !identity_getField.
      split; [reflexivity | apply attachRow_carries].
  - split; [apply tableRow_filled|].
    split; [intros Hm; rewrite tableRow_filled; report_missing Hm|].
    split; [intros Hm; rewrite tableRow_filled; report_missing Hm|].
    split; [intros Hm; rewrite tableRow_filled; report_missing Hm|].
    intros H. rewrite <- (identity_getField "table name") in H.
    rewrite (tableRow_run w row s H). cbn [fst snd withEntities st_entities].
    unfold GetDatabaseName, GetSchemaName, GetTableName. rewrite !identity_getField.
    split; [reflexivity | apply attachRow_carries].
  - split; [apply indexRow_filled|].
    split; [intros Hm; rewrite indexRow_filled; report_missing Hm|].
    split; [intros Hm; rewrite indexRow_filled; report_missing Hm|].
    split; [intros Hm; rewrite indexRow_filled; report_missing Hm|].
    split; [intros Hm; rewrite indexRow_filled; report_missing Hm|].
    intros H. rewrite <- (identity_getField "index name") in H.
    rewrite (indexRow_run w row s H). cbn [fst snd withEntities st_entities].
    unfold GetDatabaseName, GetSchemaName, GetTableName, GetIndexName.
    rewrite !identity_getField.
    split; [reflexivity | apply attachRow_carries].
  - apply pgBouncerRow_missing.
Qed.

Lemma missing_identity_field_nonfatal_witness :
  fst (tableRow (sdkWorld exRows) rowNoSchema s0) = Done Next
  /\ carriesSample "accounts" "pg-table"
       [("host", "localhost"); ("port", "5432"); ("pg-database", "app"); ("pg-schema", "")]
       (sampleOf "PostgresqlTableSample"
          [("displayName", "accounts"); ("entityName", "table:accounts");
           ("database", "app"); ("schema", "")] rowNoSchema)
       (st_entities (snd (tableRow (sdkWorld exRows) rowNoSchema s0)))
  /\ reported "Unable to get schema name: did not find schema name" s0
       (snd (tableRow (sdkWorld exRows) rowNoSchema s0)).
Proof.
  destruct (missing_identity_field_nonfatal (sdkWorld exRows) rowNoSchema s0)
    as (_ & (_ & _ & Hrep & _ & Hproc) & _).
  destruct (Hproc eq_refl) as [Hdone Hcarries].
  split; [exact Hdone|]. split; [exact Hcarries | exact (Hrep eq_refl)].
Defined.

(** C5, as stated, fails twice.  In the pooling-proxy domain a record
    without a database name is reported and then dropped: it reaches no
    entity and leaves no sample.  In the table domain a record without a
    table name asks the SDK for an entity without a name; with an SDK that
    refuses it, the record ends in a panic and leaves neither entity nor
    sample. *)
Lemma record_with_missing_identity_field_lost :
  (row_database rowNoDatabase = None
   /\ pgBouncerRow (sdkWorld exRows) rowNoDatabase s0 =
      (Done Next,
       mkState [ELog LError "Unable to get database name: did not find database name"]
         exInstance [] [])
   /\ ~ (exists m ids,
           carriesSample "" "pgbouncer" ids m
             (st_entities (snd (pgBouncerRow (sdkWorld exRows) rowNoDatabase s0)))))
  /\ (row_table rowNoTable = None
      /\ tableRow (sdkWorld exRows) rowNoTable s0 =
         (Panic nilDeref,
          mkState
            [ELog LError "Unable to get table name: did not find table name";
             ELog LError
               "Failed to get table entity for table : entity name and type are required when defining one"]
            exInstance [] [])).
Proof.
  split.
  - split; [reflexivity|]. split; [reflexivity|].
    intros (m & ids & i & e & Hl & _). cbn in Hl. discriminate.
  - split; reflexivity.
Qed.

(** ** The connection protocol *)

Lemma conn_eqb_refl c : conn_eqb c c = true.
Proof. unfold conn_eqb. now rewrite String.eqb_refl, Nat.eqb_refl. Qed.

Lemma isLive_head c live : isLive c (c :: live) = true.
Proof. unfold isLive. cbn. now rewrite conn_eqb_refl. Qed.

Lemma isLive_app c l live : isLive c live = true -> isLive c (l ++ live) = true.
Proof. unfold isLive. intros H. rewrite existsb_app, H. apply orb_true_r. Qed.

Lemma isLive_cons c x live : isLive c live = true -> isLive c (x :: live) = true.
Proof. apply (isLive_app c [x]). Qed.

Lemma release_head c live : release c (c :: live) = live.
Proof. cbn. now rewrite conn_eqb_refl. Qed.

Lemma somes_app d1 d2 : somes (d1 ++ d2) = somes d1 ++ somes d2.
Proof. unfold somes. apply flat_map_app. Qed.

Lemma protocol_app e1 : forall live n e2,
  protocol live n (e1 ++ e2) =
  match protocol live n e1 with
  | Some l => protocol l (n + length e1) e2
  | None => None
  end.
Proof.
  induction e1 as [|e e1 IH]; intros live n e2.
  - cbn. now rewrite Nat.add_0_r.
  - cbn [app protocol length]. replace (n + S (length e1)) with (S n + length e1) by lia.
    destruct e as [db [|]|c sql|c ext sch|c|l msg]; try apply IH;
      destruct (isLive c live); try reflexivity; apply IH.
Qed.

(** Running the deferred calls closes, last opened first, exactly the
    connections whose [Close] was deferred. *)
Lemma protocol_closeEvents ds : forall live n,
  protocol (somes ds ++ live) n (closeEvents ds) = Some live.
Proof.
  induction ds as [|[c|] ds IH]; intros live n.
  - reflexivity.
  - change (closeEvents (Some c :: ds)) with (EClose c :: closeEvents ds).
    change (somes (Some c :: ds) ++ live) with (c :: (somes ds ++ live)).
    cbn [protocol]. rewrite isLive_head, release_head. apply IH.
  - apply IH.
Qed.

#[local] Instance uses_preorder req : PreOrder (uses req).
Proof.
  split.
  - intros s. exists [], []. cbn. rewrite app_nil_r. auto.
  - intros a b c (e1 & n1 & Ht1 & Hd1 & Hp1) (e2 & n2 & Ht2 & Hd2 & Hp2).
    exists (e1 ++ e2), (n2 ++ n1). split; [now rewrite Ht2, Ht1, <- app_assoc|].
    split; [now rewrite Hd2, Hd1, app_assoc|].
    intros live Hreq. rewrite protocol_app, (Hp1 live Hreq).
    replace (length (st_trace a) + length e1) with (length (st_trace b))
      by (rewrite Ht1, length_app; reflexivity).
    rewrite Hp2.
    + now rewrite somes_app, <- app_assoc.
    + intros x Hx. apply isLive_app. now apply Hreq.
Qed.

Lemma uses_data req s inst ents :
  uses req s (mkState (st_trace s) inst ents (st_defers s)).
Proof. exists [], []. cbn. rewrite app_nil_r. auto. Qed.

Lemma uses_log req s l msg : uses req s (snoc (ELog l msg) s).
Proof. exists [ELog l msg], []. cbn. auto. Qed.

Lemma uses_query req c s c' sql :
  In c req -> Some c = Some c' -> uses req s (snoc (EQuery c' sql) s).
Proof.
  intros Hin [= <-]. exists [EQuery c sql], []. cbn. repeat split.
  intros live Hreq. now rewrite (Hreq c Hin).
Qed.

Lemma uses_ext req c s c' extension schema :
  In c req -> Some c = Some c' -> uses req s (snoc (EExtension c' extension schema) s).
Proof.
  intros Hin [= <-]. exists [EExtension c extension schema], []. cbn. repeat split.
  intros live Hreq. now rewrite (Hreq c Hin).
Qed.

(** A connection that could not be opened leaves nothing to release. *)
Lemma uses_failed_open req s database logs ds :
  Forall isLog logs ->
  somes ds = [] ->
  uses req s (mkState (st_trace s ++ EOpen database false :: logs)
                (st_instance s) (st_entities s) (ds ++ st_defers s)).
Proof.
  intros Hlogs Hds. exists (EOpen database false :: logs), ds. cbn [st_trace st_defers].
  repeat split. intros live _. rewrite Hds. cbn [protocol app].
  generalize (S (length (st_trace s))). induction Hlogs as [|e logs He _ IH]; intros n.
  - reflexivity.
  - destruct e; cbn in He; try contradiction. cbn [protocol]. apply IH.
Qed.

(** A connection that was opened and whose [Close] was deferred may be
    used by what follows. *)
Lemma uses_after_open req database s s2 s3 :
  st_trace s2 = st_trace s ++ [EOpen database true] ->
  st_defers s2 = Some (mkConn database (length (st_trace s))) :: st_defers s ->
  uses (mkConn database (length (st_trace s)) :: req) s2 s3 ->
  uses req s s3.
Proof.
  intros Ht2 Hd2 (evs & new & Ht & Hd & Hp).
  exists (EOpen database true :: evs), (new ++ [Some (mkConn database (length (st_trace s)))]).
  split; [now rewrite Ht, Ht2, <- app_assoc|].
  split; [now rewrite Hd, Hd2, <- app_assoc|].
  intros live Hreq. cbn [protocol].
  replace (S (length (st_trace s))) with (length (st_trace s2))
    by (rewrite Ht2, length_app; cbn; lia).
  rewrite Hp.
  - now rewrite somes_app, <- app_assoc.
  - intros x [<-|Hx]; [apply isLive_head | apply isLive_cons; now apply Hreq].
Qed.

Lemma withDefers_uses req {A} (body : Go A) :
  stable (uses req) body -> stable (uses req) (withDefers body).
Proof.
  intros Hb s. rewrite withDefers_run. cbn [snd].
  destruct (Hb (set_defers [] s)) as (evs & new & Ht & Hd & Hp).
  cbn [st_trace st_defers set_defers] in Ht, Hd, Hp. rewrite app_nil_r in Hd.
  exists (evs ++ closeEvents new), []. rewrite st_trace_frame, Ht, Hd, <- app_assoc.
  repeat split. intros live Hreq.
  rewrite protocol_app, (Hp live Hreq). apply protocol_closeEvents.
Qed.

Lemma uses_closed s s' :
  uses [] s s' -> st_defers s' = st_defers s ->
  exists evs,
    st_trace s' = st_trace s ++ evs
    /\ forall live, protocol live (length (st_trace s)) evs = Some live.
Proof.
  intros (evs & new & Ht & Hd & Hp) Hsame. exists evs. split; [assumption|].
  intros live. rewrite Hp by (intros c []).
  rewrite Hsame in Hd. apply (app_inv_tail (st_defers s) [] new) in Hd. now subst new.
Qed.

Ltac solve_uses :=
  first [ typeclasses eauto
        | intros; first [ apply uses_data | apply uses_log
                        | eapply uses_query; [now left | eassumption]
                        | eapply uses_ext; [now left | eassumption] ] ].

Section ProtocolLoops.

Variables generateTableDefinitions generateIndexDefinitions : SchemaList -> list QueryDefinition.
Variable closeByValue : bool.
Variable w : World.
Variable req : list Conn.

Lemma tableDatabase_uses entry :
  stable (uses req) (tableDatabase generateTableDefinitions closeByValue w entry).
Proof.
  intros s. destruct entry as [database schemaList]. unfold tableDatabase.
  destruct (length schemaList =? 0)%nat; [reflexivity|].
  unfold bind at 1. unfold NewConnection.
  destruct (w_connect w (st_trace s) database) as [err|].
  - unfold bind at 1. unfold deferClose. destruct closeByValue.
    + cbn. apply (uses_failed_open req s database [] []); [constructor | reflexivity].
    + cbn. rewrite <- app_assoc.
      apply (uses_failed_open req s database [_] [None]);
        [repeat constructor | reflexivity].
  - unfold bind at 1. unfold deferClose.
    cbn [set_defers st_trace st_instance st_entities st_defers].
    match goal with
    | |- uses req s (snd (?k ?s2)) =>
        apply (uses_after_open req database s s2); [reflexivity | reflexivity |]
    end.
    apply stable_bind; [typeclasses eauto | | intros _; apply stable_ret; typeclasses eauto].
    apply populateTableMetricsForDatabase_scoped; solve_uses.
Qed.

Lemma indexDatabase_uses entry :
  stable (uses req) (indexDatabase generateIndexDefinitions closeByValue w entry).
Proof.
  intros s. destruct entry as [database schemaList]. unfold indexDatabase.
  unfold bind at 1. unfold NewConnection.
  destruct (w_connect w (st_trace s) database) as [err|].
  - cbn. rewrite <- app_assoc.
    apply (uses_failed_open req s database [_] []); [repeat constructor | reflexivity].
  - unfold bind at 1. unfold deferClose.
    cbn [set_defers st_trace st_instance st_entities st_defers].
    match goal with
    | |- uses req s (snd (?k ?s2)) =>
        apply (uses_after_open req database s s2); [reflexivity | reflexivity |]
    end.
    apply stable_bind; [typeclasses eauto | | intros _; apply stable_ret; typeclasses eauto].
    apply populateIndexMetricsForDatabase_scoped; solve_uses.
Qed.

Lemma PopulateTableMetrics_uses databases :
  stable (uses req) (PopulateTableMetrics generateTableDefinitions closeByValue w databases).
Proof.
  apply withDefers_uses, stable_forRange; [typeclasses eauto|]. apply tableDatabase_uses.
Qed.

Lemma PopulateIndexMetrics_uses databases :
  stable (uses req) (PopulateIndexMetrics generateIndexDefinitions closeByValue w databases).
Proof.
  apply withDefers_uses, stable_forRange; [typeclasses eauto|]. apply indexDatabase_uses.
Qed.

End ProtocolLoops.

Lemma withDefers_defers {A} (body : Go A) s :
  st_defers (snd (withDefers body s)) = st_defers s.
Proof. now rewrite withDefers_run. Qed.

(** X9: the table domain and the index domain respect the connection
    protocol in every environment, whether they return or panic: each query
    runs on a connection that is open, each [Close] closes an open
    connection, and every connection opened by the domain has been closed
    when the function is left. *)
Theorem table_and_index_domains_respect_the_protocol
    (generateTableDefinitions generateIndexDefinitions : SchemaList -> list QueryDefinition)
    (closeByValue : bool) (w : World) (databases : DatabaseList) (s : State) :
  (exists evs,
     st_trace (snd (PopulateTableMetrics generateTableDefinitions closeByValue w
                      databases s)) = st_trace s ++ evs
     /\ forall live, protocol live (length (st_trace s)) evs = Some live)
  /\ (exists evs,
        st_trace (snd (PopulateIndexMetrics generateIndexDefinitions closeByValue w
                         databases s)) = st_trace s ++ evs
        /\ forall live, protocol live (length (st_trace s)) evs = Some live).
Proof.
  split.
  - apply uses_closed; [apply PopulateTableMetrics_uses | apply withDefers_defers].
  - apply uses_closed; [apply PopulateIndexMetrics_uses | apply withDefers_defers].
Qed.

Section ProtocolRun.

Variable generateInstanceDefinitions : Version -> list QueryDefinition.
Variable generateDatabaseDefinitions : DatabaseList -> Version -> list QueryDefinition.
Variable generateLockDefinitions : DatabaseList -> Version -> list QueryDefinition.
Variable generateTableDefinitions : SchemaList -> list QueryDefinition.
Variable generateIndexDefinitions : SchemaList -> list QueryDefinition.
Variable generatePgBouncerDefinitions : list QueryDefinition.
Variable ParseTolerant : string -> Err + Version.
Variable closeByValue : bool.
Variable w : World.

Lemma pgBouncer_uses req :
  stable (uses req)
    (do (con, err) <- NewConnection w "pgbouncer" ;;
     match err with
     | Some e => log_Error ("Error creating connection to pgbouncer database: " +:+ e)
     | None =>
         deferClose closeByValue con ;;;
         PopulatePgBouncerMetrics generatePgBouncerDefinitions w con
     end).
Proof.
  intros s. unfold bind at 1. unfold NewConnection.
  destruct (w_connect w (st_trace s) "pgbouncer") as [err|].
  - cbn. rewrite <- app_assoc.
    apply (uses_failed_open req s "pgbouncer" [_] []); [repeat constructor | reflexivity].
  - unfold bind at 1. unfold deferClose.
    cbn [set_defers st_trace st_instance st_entities st_defers].
    match goal with
    | |- uses req s (snd (?k ?s2)) =>
        apply (uses_after_open req "pgbouncer" s s2); [reflexivity | reflexivity |]
    end.
    apply PopulatePgBouncerMetrics_scoped; solve_uses.
Qed.

Lemma populateDomains_uses req c databaseList tableRange indexRange instance
    collectPgBouncer collectDbLocks version :
  stable (uses (c :: req))
    (populateDomains generateInstanceDefinitions generateDatabaseDefinitions
       generateLockDefinitions generateTableDefinitions generateIndexDefinitions
       generatePgBouncerDefinitions closeByValue w databaseList tableRange indexRange
       instance collectPgBouncer collectDbLocks version (Some c)).
Proof.
  unfold populateDomains.
  apply stable_bind; [typeclasses eauto | | intros _].
  { apply PopulateInstanceMetrics_scoped; solve_uses. }
  apply stable_bind; [typeclasses eauto | | intros _].
  { apply PopulateDatabaseMetrics_scoped; solve_uses. }
  apply stable_bind; [typeclasses eauto | | intros _].
  { destruct collectDbLocks; [|apply stable_ret; typeclasses eauto].
    apply PopulateDatabaseLockMetrics_scoped; solve_uses. }
  apply stable_bind; [typeclasses eauto | | intros _].
  { apply PopulateTableMetrics_uses. }
  apply stable_bind; [typeclasses eauto | | intros _].
  { apply PopulateIndexMetrics_uses. }
  destruct collectPgBouncer; [|apply stable_ret; typeclasses eauto].
  apply pgBouncer_uses.
Qed.

Lemma PopulateMetrics_uses req databaseList tableRange indexRange instance
    collectPgBouncer collectDbLocks :
  stable (uses req)
    (PopulateMetrics generateInstanceDefinitions generateDatabaseDefinitions
       generateLockDefinitions generateTableDefinitions generateIndexDefinitions
       generatePgBouncerDefinitions ParseTolerant closeByValue w
       databaseList tableRange indexRange instance collectPgBouncer collectDbLocks).
Proof.
  unfold PopulateMetrics. apply withDefers_uses. intros s.
  unfold bind at 1. unfold NewConnection.
  destruct (w_connect w (st_trace s) (ci_DatabaseName w)) as [err|].
  - cbn. rewrite <- app_assoc.
    apply (uses_failed_open req s (ci_DatabaseName w) [_] []);
      [repeat constructor | reflexivity].
  - unfold bind at 1. unfold deferClose.
    cbn [set_defers st_trace st_instance st_entities st_defers].
    match goal with
    | |- uses req s (snd (?k ?s2)) =>
        apply (uses_after_open req (ci_DatabaseName w) s s2); [reflexivity | reflexivity |]
    end.
    apply stable_bind; [typeclasses eauto | | intros r].
    { apply collectVersion_scoped; solve_uses. }
    destruct r as [e|version]; [apply log_scoped; solve_uses|].
    apply populateDomains_uses.
Qed.

(** X10: a whole run respects the connection protocol, in every
    environment, whatever the order in which each of the two [range]
    statements visits the databases, and whether the run returns or panics:
    every query and every extension check runs on a connection that is open
    at that moment, no connection is closed twice, and when
    [PopulateMetrics] is left every connection it opened, the primary one,
    one per database and domain, and the one to the pooling proxy, has been
    closed. *)
Theorem run_respects_the_connection_protocol
    (databaseList tableRange indexRange : DatabaseList) (instance : option EntityRef)
    (collectPgBouncer collectDbLocks : bool) (s : State) :
  exists evs,
    st_trace (snd (PopulateMetrics generateInstanceDefinitions generateDatabaseDefinitions
                     generateLockDefinitions generateTableDefinitions
                     generateIndexDefinitions generatePgBouncerDefinitions ParseTolerant
                     closeByValue w databaseList tableRange indexRange instance
                     collectPgBouncer collectDbLocks s))
    = st_trace s ++ evs
    /\ forall live, protocol live (length (st_trace s)) evs = Some live.
Proof.
  apply uses_closed; [apply PopulateMetrics_uses | apply withDefers_defers].
Qed.

End ProtocolRun.

(** The checker is not vacuous: it accepts the trace of a full example
    run and rejects a query after the close and a second close. *)
Lemma protocol_examples :
  protocol [] 0
    (st_trace (snd (exPopulateMetrics [qTableBloat] true (exWorld [] (inr ["12.3"]) exRows)
                      [("app", ["public"])] true true s0))) = Some []
  /\ protocol [] 0 [EOpen "app" true; EClose (mkConn "app" 0);
                    EQuery (mkConn "app" 0) "SELECT 1"] = None
  /\ protocol [] 0 [EOpen "app" true; EClose (mkConn "app" 0);
                    EClose (mkConn "app" 0)] = None
  /\ protocol [] 0 [EOpen "app" true; EQuery (mkConn "app" 0) "SELECT 1"]
     = Some [mkConn "app" 0].
Proof. repeat split; reflexivity. Qed.

(** ** What a run reaches *)

Lemma stable_forRange_In (R : relation State) `{!PreOrder R} {A}
    (body : A -> Go Flow) (l : list A) :
  (forall x, In x l -> stable R (body x)) -> stable R (forRange body l).
Proof.
  induction l as [|x xs IH]; intros Hb; cbn [forRange].
  - apply stable_ret. typeclasses eauto.
  - apply stable_bind; [typeclasses eauto | apply Hb; now left |].
    intros [|]; [|apply stable_ret; typeclasses eauto].
    apply IH. intros y Hy. apply Hb. now right.
Qed.

Lemma Forall_closeEvents (P : Event -> Prop) ds :
  (forall c, P (EClose c)) -> Forall P (closeEvents ds).
Proof.
  intros HP. induction ds as [|[c|] ds IH]; cbn; [constructor | | assumption].
  constructor; [apply HP | assumption].
Qed.

Section Reach.

Variable P : Event -> Prop.
Hypothesis P_log : forall l msg, P (ELog l msg).
Hypothesis P_query : forall c sql, P (EQuery c sql).
Hypothesis P_close : forall c, P (EClose c).

Variables generateTableDefinitions generateIndexDefinitions : SchemaList -> list QueryDefinition.
Variable closeByValue : bool.
Variable w : World.

Lemma NewConnection_appends database :
  (forall ok, P (EOpen database ok)) -> stable (appends P) (NewConnection w database).
Proof.
  intros Hopen s. unfold NewConnection.
  destruct (w_connect w (st_trace s) database); now apply appends_event.
Qed.

Lemma deferClose_appends con : stable (appends P) (deferClose closeByValue con).
Proof.
  intros s. unfold deferClose. destruct con as [c|]; [apply appends_defers|].
  destruct closeByValue; [reflexivity | apply appends_defers].
Qed.

Lemma withDefers_appends {A} (body : Go A) :
  stable (appends P) body -> stable (appends P) (withDefers body).
Proof.
  intros Hb s. rewrite withDefers_run. cbn [snd].
  destruct (Hb (set_defers [] s)) as (evs & Ht & Hf). cbn [st_trace set_defers] in Ht.
  exists (evs ++ closeEvents (st_defers (snd (body (set_defers [] s))))).
  rewrite st_trace_frame, Ht, <- app_assoc. split; [reflexivity|].
  apply Forall_app. split; [assumption | now apply Forall_closeEvents].
Qed.

Ltac solve_reach :=
  first [ typeclasses eauto
        | intros; first [ apply appends_data
                        | apply appends_event; first [ apply P_log | apply P_query ] ] ].

Lemma tableDatabase_appends entry :
  (forall ok, P (EOpen (fst entry) ok)) ->
  stable (appends P) (tableDatabase generateTableDefinitions closeByValue w entry).
Proof.
  destruct entry as [database schemaList]. cbn [fst]. intros Hopen. unfold tableDatabase.
  destruct (length schemaList =? 0)%nat; [apply stable_ret; typeclasses eauto|].
  apply stable_bind; [typeclasses eauto | now apply NewConnection_appends | intros [con err]].
  apply stable_bind; [typeclasses eauto | apply deferClose_appends | intros _].
  destruct err.
  - apply stable_bind; [typeclasses eauto | | intros _; apply stable_ret; typeclasses eauto].
    apply log_scoped. solve_reach.
  - apply stable_bind; [typeclasses eauto | | intros _; apply stable_ret; typeclasses eauto].
    apply populateTableMetricsForDatabase_scoped; solve_reach.
Qed.

Lemma indexDatabase_appends entry :
  (forall ok, P (EOpen (fst entry) ok)) ->
  stable (appends P) (indexDatabase generateIndexDefinitions closeByValue w entry).
Proof.
  destruct entry as [database schemaList]. cbn [fst]. intros Hopen. unfold indexDatabase.
  apply stable_bind; [typeclasses eauto | now apply NewConnection_appends | intros [con err]].
  destruct err.
  - apply stable_bind; [typeclasses eauto | | intros _; apply stable_ret; typeclasses eauto].
    apply log_scoped. solve_reach.
  - apply stable_bind; [typeclasses eauto | apply deferClose_appends | intros _].
    apply stable_bind; [typeclasses eauto | | intros _; apply stable_ret; typeclasses eauto].
    apply populateIndexMetricsForDatabase_scoped; solve_reach.
Qed.

Lemma PopulateTableMetrics_appends databases :
  (forall database ok, In database (map fst databases) -> P (EOpen database ok)) ->
  stable (appends P) (PopulateTableMetrics generateTableDefinitions closeByValue w databases).
Proof.
  intros Hopen. apply withDefers_appends, stable_forRange_In; [typeclasses eauto|].
  intros entry Hin. apply tableDatabase_appends. intros ok. apply Hopen.
  now apply in_map.
Qed.

Lemma PopulateIndexMetrics_appends databases :
  (forall database ok, In database (map fst databases) -> P (EOpen database ok)) ->
  stable (appends P) (PopulateIndexMetrics generateIndexDefinitions closeByValue w databases).
Proof.
  intros Hopen. apply withDefers_appends, stable_forRange_In; [typeclasses eauto|].
  intros entry Hin. apply indexDatabase_appends. intros ok. apply Hopen.
  now apply in_map.
Qed.

End Reach.

Ltac solve_reachable :=
  first [ typeclasses eauto
        | intros; first [ apply appends_data
                        | apply appends_event; cbn; auto ] ].

(** X11: a run attempts connections only to the primary database, to the
    databases of the topology and, when pooling-proxy collection is
    enabled, to "pgbouncer"; and it asks for the extension only when lock
    collection is enabled.  With both options off there is no connection to
    "pgbouncer" and no extension check, in every environment.  The two
    [range] statements visit the entries of the topology, each in an order
    of its own. *)
Theorem run_reaches_only_what_is_configured
    (generateInstanceDefinitions : Version -> list QueryDefinition)
    (generateDatabaseDefinitions generateLockDefinitions :
       DatabaseList -> Version -> list QueryDefinition)
    (generateTableDefinitions generateIndexDefinitions : SchemaList -> list QueryDefinition)
    (generatePgBouncerDefinitions : list QueryDefinition)
    (ParseTolerant : string -> Err + Version) (closeByValue : bool) (w : World)
    (databaseList tableRange indexRange : DatabaseList) (instance : option EntityRef)
    (collectPgBouncer collectDbLocks : bool) (s : State) :
  tableRange ≡ₚ databaseList ->
  indexRange ≡ₚ databaseList ->
  exists evs,
    st_trace (snd (PopulateMetrics generateInstanceDefinitions generateDatabaseDefinitions
                     generateLockDefinitions generateTableDefinitions
                     generateIndexDefinitions generatePgBouncerDefinitions ParseTolerant
                     closeByValue w databaseList tableRange indexRange instance
                     collectPgBouncer collectDbLocks s))
    = st_trace s ++ evs
    /\ Forall (reachable w databaseList collectPgBouncer collectDbLocks) evs.
Proof.
  intros Htable Hindex.
  set (P := reachable w databaseList collectPgBouncer collectDbLocks).
  assert (P_log : forall l msg, P (ELog l msg)) by (intros; exact I).
  assert (P_query : forall c sql, P (EQuery c sql)) by (intros; exact I).
  assert (P_close : forall c, P (EClose c)) by (intros; exact I).
  assert (P_primary : forall ok, P (EOpen (ci_DatabaseName w) ok)) by (intros; now left).
  assert (P_topology : forall range database ok,
             range ≡ₚ databaseList ->
             In database (map fst range) -> P (EOpen database ok)).
  { intros range database ok Hperm Hin. right. left.
    exact (Permutation_in database (Permutation_map fst Hperm) Hin). }
  change (appends P s (snd (PopulateMetrics generateInstanceDefinitions
            generateDatabaseDefinitions generateLockDefinitions generateTableDefinitions
            generateIndexDefinitions generatePgBouncerDefinitions ParseTolerant
            closeByValue w databaseList tableRange indexRange instance
            collectPgBouncer collectDbLocks s))).
  revert s. change (stable (appends P) (PopulateMetrics generateInstanceDefinitions
            generateDatabaseDefinitions generateLockDefinitions generateTableDefinitions
            generateIndexDefinitions generatePgBouncerDefinitions ParseTolerant
            closeByValue w databaseList tableRange indexRange instance
            collectPgBouncer collectDbLocks)).
  unfold PopulateMetrics. apply withDefers_appends; [assumption|].
  apply stable_bind; [typeclasses eauto | now apply NewConnection_appends | intros [con err]].
  destruct err as [e|]; [apply log_scoped; solve_reachable|].
  apply stable_bind; [typeclasses eauto | apply deferClose_appends | intros _].
  apply stable_bind; [typeclasses eauto | | intros r].
  { apply collectVersion_scoped; solve_reachable. }
  destruct r as [e|version]; [apply log_scoped; solve_reachable|].
  unfold populateDomains.
  apply stable_bind; [typeclasses eauto | | intros _].
  { apply PopulateInstanceMetrics_scoped; solve_reachable. }
  apply stable_bind; [typeclasses eauto | | intros _].
  { apply PopulateDatabaseMetrics_scoped; solve_reachable. }
  apply stable_bind; [typeclasses eauto | | intros _].
  { subst P. destruct collectDbLocks; [|apply stable_ret; typeclasses eauto].
    apply PopulateDatabaseLockMetrics_scoped; solve_reachable. }
  apply stable_bind; [typeclasses eauto | | intros _].
  { apply PopulateTableMetrics_appends; try assumption.
    intros database ok. now apply P_topology. }
  apply stable_bind; [typeclasses eauto | | intros _].
  { apply PopulateIndexMetrics_appends; try assumption.
    intros database ok. now apply P_topology. }
  subst P. destruct collectPgBouncer; [|apply stable_ret; typeclasses eauto].
  apply stable_bind; [typeclasses eauto | | intros [con' err']].
  { apply NewConnection_appends. intros ok. right. right. auto. }
  destruct err' as [e|]; [apply log_scoped; solve_reachable|].
  apply stable_bind; [typeclasses eauto | apply deferClose_appends | intros _].
  apply PopulatePgBouncerMetrics_scoped; solve_reachable.
Qed.

Lemma run_reaches_only_what_is_configured_witness :
  exists evs,
    st_trace (snd (exPopulateMetricsRanges [qTableBloat] true
                     (exWorld [] (inr ["12.3"]) exRows)
                     [("app", ["public"]); ("crm", ["sales"])]
                     [("crm", ["sales"]); ("app", ["public"])]
                     [("app", ["public"]); ("crm", ["sales"])]
                     false false s0))
    = st_trace s0 ++ evs
    /\ Forall (reachable (exWorld [] (inr ["12.3"]) exRows)
                 [("app", ["public"]); ("crm", ["sales"])] false false) evs.
Proof.
  apply (run_reaches_only_what_is_configured
           (fun _ => [qInstance1; qInstance2]) (fun _ _ => [qDatabase]) (fun _ _ => [qLock])
           (fun _ => [qTableBloat]) (fun _ => [qIndex]) [qPgBouncer]
           parseTolerantModel true (exWorld [] (inr ["12.3"]) exRows)
           [("app", ["public"]); ("crm", ["sales"])]
           [("crm", ["sales"]); ("app", ["public"])]
           [("app", ["public"]); ("crm", ["sales"])]
           (Some InstanceRef) false false s0).
  - apply perm_swap.
  - reflexivity.
Defined.

(** The two domains of one run may visit the databases in different
    orders: here the table domain goes to "crm" first and the index domain
    to "app" first. *)
Lemma run_with_independent_visit_orders :
  opensOf (st_trace (snd (exPopulateMetricsRanges [qTableBloat] true
                            (exWorld [] (inr ["12.3"]) exRows)
                            [("app", ["public"]); ("crm", ["sales"])]
                            [("crm", ["sales"]); ("app", ["public"])]
                            [("app", ["public"]); ("crm", ["sales"])]
                            false false s0)))
  = ["postgres"; "crm"; "app"; "app"; "crm"]
  /\ protocol [] 0
       (st_trace (snd (exPopulateMetricsRanges [qTableBloat] true
                         (exWorld [] (inr ["12.3"]) exRows)
                         [("app", ["public"]); ("crm", ["sales"])]
                         [("crm", ["sales"]); ("app", ["public"])]
                         [("app", ["public"]); ("crm", ["sales"])]
                         false false s0))) = Some [].
Proof. split; reflexivity. Qed.

(** ** Which databases the table and index domains visit *)

(** With rows that do not panic, a loop over definitions returns normally
    whatever the queries answer, and opens and closes nothing. *)
Lemma definitions_return w prefix onErr (rowBody : Row -> Go Flow) c defs :
  quietBody rowBody ->
  forall s, exists evs ents,
    forRange (definitionBody w prefix onErr rowBody (Some c)) defs s =
    (Done tt, withEntities evs ents s)
    /\ opensOf evs = [] /\ closesOf evs = [].
Proof.
  intros Hq. induction defs as [|d defs IH]; intros s.
  - exists [], (st_entities s). split; [|auto].
    unfold withEntities. rewrite app_nil_r. now destruct s.
  - destruct (w_rows w (st_trace s) c (GetQuery d)) as [err|rows] eqn:Hrows.
    + rewrite forRange_cons, (definitionBody_error w prefix onErr rowBody c d s err Hrows).
      destruct onErr.
      * destruct (IH (withEvents [EQuery c (GetQuery d); ELog LError (prefix +:+ err)] s))
          as (evs2 & ents2 & Hrest & Ho2 & Hc2).
        exists ([EQuery c (GetQuery d); ELog LError (prefix +:+ err)] ++ evs2), ents2.
        rewrite Hrest, withEvents_withEntities. split; [reflexivity|].
        rewrite opensOf_app, closesOf_app, Ho2, Hc2. auto.
      * exists [EQuery c (GetQuery d); ELog LError (prefix +:+ err)], (st_entities s).
        split; [|auto]. unfold withEvents, withEntities. reflexivity.
    + destruct (definitionBody_rows w prefix onErr rowBody c d s rows Hq Hrows)
        as (evs1 & ents1 & Hd & Hl1).
      destruct (IH (withEntities (EQuery c (GetQuery d) :: evs1) ents1 s))
        as (evs2 & ents2 & Hrest & Ho2 & Hc2).
      exists ((EQuery c (GetQuery d) :: evs1) ++ evs2), ents2.
      rewrite forRange_cons, Hd, Hrest, withEntities_withEntities.
      split; [reflexivity|].
      rewrite opensOf_app, closesOf_app, Ho2, Hc2.
      change (opensOf (EQuery c (GetQuery d) :: evs1)) with (opensOf evs1).
      change (closesOf (EQuery c (GetQuery d) :: evs1)) with (closesOf evs1).
      rewrite (opensOf_logs _ Hl1), (closesOf_logs _ Hl1). auto.
Qed.

Section Visits.

Variables generateTableDefinitions generateIndexDefinitions : SchemaList -> list QueryDefinition.
Variable closeByValue : bool.
Variable w : World.

Hypothesis sdk_accepts : forall name ns, w_entityErr w name ns = None.

Lemma indexDatabase_visits database schemaList s :
  exists evs ents ds ok,
    indexDatabase generateIndexDefinitions closeByValue w (database, schemaList) s =
    (Done Next, mkState (st_trace s ++ EOpen database ok :: evs) (st_instance s) ents
                  (ds ++ st_defers s))
    /\ opensOf evs = [] /\ Forall (fun d => d <> None) ds.
Proof.
  destruct (w_connect w (st_trace s) database) as [err|] eqn:Hconn.
  - exists [ELog LError ("Failed to create new connection to database "
                         +:+ database +:+ ": " +:+ err)], (st_entities s), [], false.
    rewrite (indexDatabase_connect_fails _ _ _ _ _ _ err Hconn). auto.
  - unfold indexDatabase. unfold bind at 1. unfold NewConnection. rewrite Hconn.
    unfold bind at 1. unfold deferClose.
    cbn [set_defers st_trace st_instance st_entities st_defers].
    unfold populateIndexMetricsForDatabase. rewrite indexDefinition_shape.
    match goal with
    | |- context [bind (forRange ?b ?defs) _ ?s1] =>
        destruct (definitions_return w "Could not execute index query: " Return (indexRow w)
                    (mkConn database (length (st_trace s))) defs
                    (indexRow_quiet w sdk_accepts) s1)
          as (evs & ents & Hrun & Ho & _)
    end.
    exists evs, ents, [Some (mkConn database (length (st_trace s)))], true.
    unfold bind. rewrite Hrun. unfold ret, withEntities. cbn.
    rewrite <- app_assoc. repeat split; [assumption|]. repeat constructor. discriminate.
Qed.

Lemma indexDatabases_visit databases : forall s,
  exists evs ds,
    fst (forRange (indexDatabase generateIndexDefinitions closeByValue w) databases s)
    = Done tt
    /\ st_trace (snd (forRange (indexDatabase generateIndexDefinitions closeByValue w)
                        databases s)) = st_trace s ++ evs
    /\ st_defers (snd (forRange (indexDatabase generateIndexDefinitions closeByValue w)
                         databases s)) = ds ++ st_defers s
    /\ Forall (fun d => d <> None) ds
    /\ opensOf evs = map fst databases.
Proof.
  induction databases as [|[database schemaList] dbs IH]; intros s.
  - exists [], []. cbn. rewrite app_nil_r. auto.
  - destruct (indexDatabase_visits database schemaList s)
      as (evs1 & ents1 & ds1 & ok & H1 & Ho1 & Hv1).
    match type of H1 with
    | _ = (_, ?s1) => destruct (IH s1) as (evs2 & ds2 & Hdone & Ht & Hd & Hv2 & Ho2)
    end.
    exists ((EOpen database ok :: evs1) ++ evs2), (ds2 ++ ds1).
    rewrite forRange_cons, H1, Hdone, Ht, Hd. cbn [st_trace st_defers].
    rewrite <- !app_assoc. repeat split.
    + now apply Forall_app.
    + rewrite opensOf_app, Ho2.
      change (opensOf (EOpen database ok :: evs1)) with (database :: opensOf evs1).
      now rewrite Ho1.
Qed.

(** X12: as long as the SDK resolves the entities, the index domain
    attempts a connection to every database of the topology, once and in
    the order of the visit, whether or not the database has schemas and
    whatever connections and queries fail, and it returns normally. *)
Theorem index_domain_visits_every_database (databases : DatabaseList) (s : State) :
  fst (PopulateIndexMetrics generateIndexDefinitions closeByValue w databases s) = Done tt
  /\ opensOf (st_trace (snd (PopulateIndexMetrics generateIndexDefinitions closeByValue w
                               databases s)))
     = opensOf (st_trace s) ++ map fst databases.
Proof.
  unfold PopulateIndexMetrics. rewrite withDefers_run. cbn [fst snd].
  destruct (indexDatabases_visit databases (set_defers [] s))
    as (evs & ds & Hdone & Ht & Hd & Hv & Ho).
  split.
  - rewrite Hdone. apply runDeferred_all_valid. rewrite Hd. cbn. now rewrite app_nil_r.
  - rewrite st_trace_frame, Ht. cbn [st_trace set_defers].
    now rewrite !opensOf_app, Ho, opensOf_closeEvents, app_nil_r.
Qed.

End Visits.

Lemma index_domain_visits_every_database_witness :
  opensOf (st_trace (snd (PopulateIndexMetrics (fun _ => [qIndex]) true
                            (exWorld ["crm"] (inr ["12.3"]) (exRowsFailing "SELECT indexes"))
                            [("empty", []); ("crm", ["sales"]); ("app", ["public"])] s0)))
  = ["empty"; "crm"; "app"].
Proof.
  exact (proj2 (index_domain_visits_every_database (fun _ => [qIndex]) true
                  (exWorld ["crm"] (inr ["12.3"]) (exRowsFailing "SELECT indexes"))
                  (fun _ _ => eq_refl)
                  [("empty", []); ("crm", ["sales"]); ("app", ["public"])] s0)).
Defined.

Section TableVisits.

Variable generateTableDefinitions : SchemaList -> list QueryDefinition.
Variable closeByValue : bool.
Variable w : World.

Hypothesis sdk_accepts : forall name ns, w_entityErr w name ns = None.
Hypothesis connects : forall tr database, w_connect w tr database = None.

Lemma tableDatabase_visits database (schemaList : SchemaList) s :
  (length schemaList =? 0)%nat = false ->
  exists evs ents,
    tableDatabase generateTableDefinitions closeByValue w (database, schemaList) s =
    (Done Next,
     mkState (st_trace s ++ EOpen database true :: evs) (st_instance s) ents
       (Some (mkConn database (length (st_trace s))) :: st_defers s))
    /\ opensOf evs = [].
Proof.
  intros Hne. unfold tableDatabase. rewrite Hne.
  unfold bind at 1. unfold NewConnection. rewrite connects.
  unfold bind at 1. unfold deferClose.
  cbn [set_defers st_trace st_instance st_entities st_defers].
  unfold populateTableMetricsForDatabase. rewrite tableDefinition_shape.
  match goal with
  | |- context [bind (forRange ?b ?defs) _ ?s1] =>
      destruct (definitions_return w "Could not execute table query: " Return (tableRow w)
                  (mkConn database (length (st_trace s))) defs
                  (tableRow_quiet w sdk_accepts) s1)
        as (evs & ents & Hrun & Ho & _)
  end.
  exists evs, ents. unfold bind. rewrite Hrun. unfold ret, withEntities. cbn.
  rewrite <- app_assoc. auto.
Qed.

Lemma tableDatabases_visit databases : forall s,
  exists evs ds,
    fst (forRange (tableDatabase generateTableDefinitions closeByValue w) databases s)
    = Done tt
    /\ st_trace (snd (forRange (tableDatabase generateTableDefinitions closeByValue w)
                        databases s)) = st_trace s ++ evs
    /\ st_defers (snd (forRange (tableDatabase generateTableDefinitions closeByValue w)
                         databases s)) = ds ++ st_defers s
    /\ Forall (fun d => d <> None) ds
    /\ opensOf evs = map fst (beforeEmpty databases).
Proof.
  induction databases as [|[database schemaList] dbs IH]; intros s.
  - exists [], []. cbn. rewrite app_nil_r. auto.
  - cbn [beforeEmpty]. destruct (length schemaList =? 0)%nat eqn:Hne.
    + exists [], []. rewrite forRange_cons. unfold tableDatabase. rewrite Hne.
      cbn. rewrite app_nil_r. auto.
    + destruct (tableDatabase_visits database schemaList s Hne)
        as (evs1 & ents1 & H1 & Ho1).
      match type of H1 with
      | _ = (_, ?s1) => destruct (IH s1) as (evs2 & ds2 & Hdone & Ht & Hd & Hv2 & Ho2)
      end.
      exists ((EOpen database true :: evs1) ++ evs2),
             (ds2 ++ [Some (mkConn database (length (st_trace s)))]).
      rewrite forRange_cons, H1, Hdone, Ht, Hd. cbn [st_trace st_defers].
      rewrite <- !app_assoc. repeat split.
      * apply Forall_app. split; [assumption|]. repeat constructor. discriminate.
      * rewrite opensOf_app, Ho2.
        change (opensOf (EOpen database true :: evs1)) with (database :: opensOf evs1).
        now rewrite Ho1.
Qed.

(** X13: when every connection can be opened and the SDK resolves the
    entities, the table domain returns normally and has connected, once
    each and in the order of the visit, to exactly the databases visited
    before the first database without schemas, whatever the queries
    answer; the databases after that one are not visited. *)
Theorem table_domain_visits_until_first_empty (databases : DatabaseList) (s : State) :
  fst (PopulateTableMetrics generateTableDefinitions closeByValue w databases s) = Done tt
  /\ opensOf (st_trace (snd (PopulateTableMetrics generateTableDefinitions closeByValue w
                               databases s)))
     = opensOf (st_trace s) ++ map fst (beforeEmpty databases).
Proof.
  unfold PopulateTableMetrics. rewrite withDefers_run. cbn [fst snd].
  destruct (tableDatabases_visit databases (set_defers [] s))
    as (evs & ds & Hdone & Ht & Hd & Hv & Ho).
  split.
  - rewrite Hdone. apply runDeferred_all_valid. rewrite Hd. cbn. now rewrite app_nil_r.
  - rewrite st_trace_frame, Ht. cbn [st_trace set_defers].
    now rewrite !opensOf_app, Ho, opensOf_closeEvents, app_nil_r.
Qed.

End TableVisits.

Lemma table_domain_visits_until_first_empty_witness :
  opensOf (st_trace (snd (PopulateTableMetrics (fun _ => [qTableBloat; qTablePre10]) true
                            (exWorld [] (inr ["12.3"]) (exRowsFailing "SELECT bloat"))
                            [("crm", ["sales"]); ("empty", []); ("app", ["public"])] s0)))
  = ["crm"].
Proof.
  exact (proj2 (table_domain_visits_until_first_empty (fun _ => [qTableBloat; qTablePre10])
                  true (exWorld [] (inr ["12.3"]) (exRowsFailing "SELECT bloat"))
                  (fun _ _ => eq_refl) (fun _ _ => eq_refl)
                  [("crm", ["sales"]); ("empty", []); ("app", ["public"])] s0)).
Defined.

(** ** An entity that the SDK does not deliver *)

Ltac entity_fails H :=
  unfold bind, Integration_Entity; rewrite H; cbn; unfold withEvents; cbn.

(** X14: when the SDK answers a call of [Entity] with an error (and so
    with a nil entity), the row loops of the database, lock, table and index
    domains log the error and then read [Metadata.Name] through the nil
    pointer: the row panics.  The failure is reported but it is not local
    to the record. *)
Theorem entity_failure_panics (w : World) (row : Row) (s : State) (err : Err) :
  (w_entityErr w (identity (row_database row)) "pg-database" = Some err ->
   fst (databaseRow w row s) = Panic nilDeref
   /\ reported (("Failed to get database entity for name "
                 +:+ identity (row_database row) +:+ ": ") +:+ err)
        s (snd (databaseRow w row s)))
  /\ (w_entityErr w (identity (row_table row)) "pg-table" = Some err ->
      fst (tableRow w row s) = Panic nilDeref
      /\ reported (("Failed to get table entity for table "
                    +:+ identity (row_table row) +:+ ": ") +:+ err)
           s (snd (tableRow w row s)))
  /\ (w_entityErr w (identity (row_index row)) "pg-index" = Some err ->
      fst (indexRow w row s) = Panic nilDeref
      /\ reported (("Failed to get table entity for index "
                    +:+ identity (row_index row) +:+ ": ") +:+ err)
           s (snd (indexRow w row s))).
Proof.
  split; [|split]; intros H; split.
  - unfold databaseRow, GetDatabaseName. rewrite <- (identity_getField "database name") in *.
    destruct (getField "database name" (row_database row)) as [name e1].
    destruct (ci_HostPort w) as [host port]. cbn [fst] in *.
    rewrite (bind_Done _ _ _ _ _ (logIf_run _ _ _)). entity_fails H. reflexivity.
  - unfold databaseRow, GetDatabaseName. rewrite <- (identity_getField "database name") in *.
    destruct (getField "database name" (row_database row)) as [name e1].
    destruct (ci_HostPort w) as [host port]. cbn [fst] in *.
    rewrite (bind_Done _ _ _ _ _ (logIf_run _ _ _)). entity_fails H.
    rewrite <- ?app_assoc. eexists. split; [reflexivity|].
    apply in_or_app. right. now left.
  - unfold tableRow, GetDatabaseName, GetSchemaName, GetTableName.
    rewrite <- (identity_getField "table name") in *.
    destruct (getField "database name" (row_database row)) as [dbName e1].
    destruct (getField "schema name" (row_schema row)) as [schemaName e2].
    destruct (getField "table name" (row_table row)) as [tableName e3].
    destruct (ci_HostPort w) as [host port]. cbn [fst] in *.
    do 3 rewrite (bind_Done _ _ _ _ _ (logIf_run _ _ _)).
    entity_fails H. reflexivity.
  - unfold tableRow, GetDatabaseName, GetSchemaName, GetTableName.
    rewrite <- (identity_getField "table name") in *.
    destruct (getField "database name" (row_database row)) as [dbName e1].
    destruct (getField "schema name" (row_schema row)) as [schemaName e2].
    destruct (getField "table name" (row_table row)) as [tableName e3].
    destruct (ci_HostPort w) as [host port]. cbn [fst] in *.
    do 3 rewrite (bind_Done _ _ _ _ _ (logIf_run _ _ _)).
    entity_fails H.
    rewrite <- ?app_assoc. eexists. split; [reflexivity|].
    repeat (apply in_or_app; right). now left.
  - unfold indexRow, GetDatabaseName, GetSchemaName, GetTableName, GetIndexName.
    rewrite <- (identity_getField "index name") in *.
    destruct (getField "database name" (row_database row)) as [dbName e1].
    destruct (getField "schema name" (row_schema row)) as [schemaName e2].
    destruct (getField "table name" (row_table row)) as [tableName e3].
    destruct (getField "index name" (row_index row)) as [indexName e4].
    destruct (ci_HostPort w) as [host port]. cbn [fst] in *.
    do 4 rewrite (bind_Done _ _ _ _ _ (logIf_run _ _ _)).
    entity_fails H. reflexivity.
  - unfold indexRow, GetDatabaseName, GetSchemaName, GetTableName, GetIndexName.
    rewrite <- (identity_getField "index name") in *.
    destruct (getField "database name" (row_database row)) as [dbName e1].
    destruct (getField "schema name" (row_schema row)) as [schemaName e2].
    destruct (getField "table name" (row_table row)) as [tableName e3].
    destruct (getField "index name" (row_index row)) as [indexName e4].
    destruct (ci_HostPort w) as [host port]. cbn [fst] in *.
    do 4 rewrite (bind_Done _ _ _ _ _ (logIf_run _ _ _)).
    entity_fails H.
    rewrite <- ?app_assoc. eexists. split; [reflexivity|].
    repeat (apply in_or_app; right). now left.
Qed.

Lemma entity_failure_panics_witness :
  fst (tableRow (mkWorld "postgres" ("localhost", "5432") (fun _ _ => None)
                   (fun _ _ _ => inr ["12.3"]) (fun _ _ sql => exRows sql)
                   (fun _ _ _ _ => true)
                   (fun name _ => if String.eqb name "" then Some "entity name is required"
                                  else None))
         rowNoDatabase s0) = Panic nilDeref.
Proof.
  exact (proj1 (proj1 (proj2 (entity_failure_panics
           (mkWorld "postgres" ("localhost", "5432") (fun _ _ => None)
              (fun _ _ _ => inr ["12.3"]) (fun _ _ sql => exRows sql)
              (fun _ _ _ _ => true)
              (fun name _ => if String.eqb name "" then Some "entity name is required"
                             else None))
           rowNoDatabase s0 "entity name is required")) eq_refl)).
Defined.

(** ** The entry point *)

(** X15: when [integration.New] returns, [main] exits with status 1
    exactly when the integration could not be created or the arguments are
    not valid, and it publishes exactly when both succeed.  It logs an error
    in exactly three cases: the error of [integration.New]; for invalid
    arguments a text built from the arguments alone (the error returned by
    the validation is not in it); and the error of [Publish], which leaves
    the exit status 0.  Logging is set up exactly when the integration was
    created, with the verbosity of the arguments. *)
Theorem main_publishes_only_valid_configurations (su : Startup) :
  (snd (main su) = 1%Z <-> su_new su <> None \/ su_validate su <> None)
  /\ (snd (main su) = 0%Z <-> In MPublish (fst (main su)))
  /\ (In MPublish (fst (main su)) <-> su_new su = None /\ su_validate su = None)
  /\ (forall msg,
        In (MError msg) (fst (main su)) <->
        su_new su = Some msg
        \/ (su_new su = None /\ su_validate su <> None
            /\ msg = "Configuration error: " +:+ su_args su)
        \/ (su_new su = None /\ su_validate su = None /\ su_publish su = Some msg))
  /\ (forall verbose,
        In (MSetupLogging verbose) (fst (main su)) <->
        su_new su = None /\ verbose = su_verbose su)
  /\ (forall e1 e2, main (withValidate (Some e1) su) = main (withValidate (Some e2) su)).
Proof.
  unfold main, withValidate.
  destruct su as [[e|] v a [e'|] [e''|]]; cbn;
    (split; [|split; [|split; [|split; [|split]]]]);
    try (intros x); try split; intros;
    intuition (try discriminate; simplify_eq; auto 6; try tauto).
Qed.

(** ** The pooling proxy cannot be reached *)

(** X16: a failure to connect to "pgbouncer" is not fatal.  If the
    domains before it complete, the run with pooling-proxy collection
    enabled ends in the same state as the run without it, with the failed
    attempt and its log entry added: the instance, the entities and every
    sample collected so far are kept, and no pooling-proxy query is run.
    This holds whatever the order in which the table and the index domain
    visit the databases. *)
Theorem pgbouncer_connection_failure_is_not_fatal
    (generateInstanceDefinitions : Version -> list QueryDefinition)
    (generateDatabaseDefinitions generateLockDefinitions :
       DatabaseList -> Version -> list QueryDefinition)
    (generateTableDefinitions generateIndexDefinitions : SchemaList -> list QueryDefinition)
    (generatePgBouncerDefinitions : list QueryDefinition)
    (closeByValue : bool) (w : World) (databaseList tableRange indexRange : DatabaseList)
    (instance : option EntityRef) (collectDbLocks : bool) (version : Version)
    (con : option Conn) (s s1 : State) (err : Err) :
  populateDomains generateInstanceDefinitions generateDatabaseDefinitions
    generateLockDefinitions generateTableDefinitions generateIndexDefinitions
    generatePgBouncerDefinitions closeByValue w databaseList tableRange indexRange instance
    false collectDbLocks version con s = (Done tt, s1) ->
  w_connect w (st_trace s1) "pgbouncer" = Some err ->
  populateDomains generateInstanceDefinitions generateDatabaseDefinitions
    generateLockDefinitions generateTableDefinitions generateIndexDefinitions
    generatePgBouncerDefinitions closeByValue w databaseList tableRange indexRange instance
    true collectDbLocks version con s =
  (Done tt,
   withEvents [EOpen "pgbouncer" false;
               ELog LError ("Error creating connection to pgbouncer database: " +:+ err)]
     s1).
Proof.
  unfold populateDomains. intros Hrun Hconn. unfold bind in *.
  destruct (PopulateInstanceMetrics _ _ _ _ _ s) as [[[]|m1] s2]; [|discriminate].
  destruct (PopulateDatabaseMetrics _ _ _ _ _ s2) as [[[]|m2] s3]; [|discriminate].
  match type of Hrun with
  | context [(if collectDbLocks then ?a else ?b) s3] =>
      destruct ((if collectDbLocks then a else b) s3) as [[[]|m3] s4]; [|discriminate]
  end.
  destruct (PopulateTableMetrics _ _ _ _ s4) as [[[]|m4] s5]; [|discriminate].
  destruct (PopulateIndexMetrics _ _ _ _ s5) as [[[]|m5] s6]; [|discriminate].
  cbn in Hrun. injection Hrun as ->.
  unfold NewConnection. rewrite Hconn. cbn. unfold withEvents, log_Error, emit. cbn.
  rewrite <- ?app_assoc. reflexivity.
Qed.

Lemma pgbouncer_connection_failure_is_not_fatal_witness :
  populateDomains (fun _ => [qInstance1]) (fun _ _ => [qDatabase])
    (fun _ _ => [qLock]) (fun _ => [qTableBloat]) (fun _ => [qIndex]) [qPgBouncer]
    true (exWorld ["pgbouncer"] (inr ["12.3"]) exRows)
    [("app", ["public"]); ("crm", ["sales"])]
    [("crm", ["sales"]); ("app", ["public"])]
    [("app", ["public"]); ("crm", ["sales"])]
    (Some InstanceRef) true false v12_3 (Some (mkConn "postgres" 0)) s0
  = (Done tt,
     withEvents [EOpen "pgbouncer" false;
                 ELog LError
                   "Error creating connection to pgbouncer database: connection refused"]
       (snd (populateDomains (fun _ => [qInstance1]) (fun _ _ => [qDatabase])
               (fun _ _ => [qLock]) (fun _ => [qTableBloat]) (fun _ => [qIndex])
               [qPgBouncer] true (exWorld ["pgbouncer"] (inr ["12.3"]) exRows)
               [("app", ["public"]); ("crm", ["sales"])]
               [("crm", ["sales"]); ("app", ["public"])]
               [("app", ["public"]); ("crm", ["sales"])]
               (Some InstanceRef) false false v12_3
               (Some (mkConn "postgres" 0)) s0))).
Proof.
  apply (pgbouncer_connection_failure_is_not_fatal
           (fun _ => [qInstance1]) (fun _ _ => [qDatabase])
           (fun _ _ => [qLock]) (fun _ => [qTableBloat]) (fun _ => [qIndex]) [qPgBouncer]
           true (exWorld ["pgbouncer"] (inr ["12.3"]) exRows)
           [("app", ["public"]); ("crm", ["sales"])]
           [("crm", ["sales"]); ("app", ["public"])]
           [("app", ["public"]); ("crm", ["sales"])]
           (Some InstanceRef) false v12_3 (Some (mkConn "postgres" 0)) s0).
  - vm_compute. reflexivity.
  - vm_compute. reflexivity.
Defined.

(** ** One sample per row *)










